(** * rebranch: a shallow embedding of the workflow engine

    The development follows the Go package [rebranch]:

    - [git.go]        the version-control backend ([Git], [GitInterface]);
    - [editor.go]     the selection listing ([CreateInteractiveFile],
                      [ParseInteractiveFile]) and the editor launch;
    - [store.go]      the persisted operation record ([FileStore]);
    - [validation.go] the four preflight validators;
    - [rebranch.go]   the orchestrator ([startRebranch], [continueRebranch],
                      [ApplyCherryPicks], [finishRebranch], [abortRebranch]).

    Go strings are byte strings and are modelled by [string]; Go [int] is
    modelled by [Z]; a Go map is a [gmap].  Part I holds the definitions,
    Part II the properties. *)

From Stdlib Require Import ZArith Ascii String List Bool Lia Sorted.
From stdpp Require Import base tactics option list gmap strings pretty.

Open Scope string_scope.
Open Scope Z_scope.

(** * Part I: definitions *)

(** ** The [strings] package, as far as the code uses it *)

(** White space is what [unicode.IsSpace] says, and [strings.TrimSpace]
    and [strings.Fields] read the string as UTF-8.  The white space
    characters and their encodings are
    - in one byte: U+0009 to U+000D and U+0020 (Go's [asciiSpace] table);
    - in two bytes: U+0085 (C2 85) and U+00A0 (C2 A0);
    - in three bytes: U+1680 (E1 9A 80), U+2000 to U+200A (E2 80 80 to
      E2 80 8A), U+2028 and U+2029 (E2 80 A8, E2 80 A9), U+202F
      (E2 80 AF), U+205F (E2 81 9F) and U+3000 (E3 80 80).
    Every encoding starts with a byte that is no continuation byte, so
    wherever one of them stands in a string a character starts, whatever
    comes before it; a byte that starts none of them is no white space,
    be it part of a well-formed character or not (Go reads an ill-formed
    byte as U+FFFD, one byte wide). *)
Definition isSpace (c : ascii) : bool :=
  let n := nat_of_ascii c in
  ((9 <=? n)%nat && (n <=? 13)%nat) || (n =? 32)%nat.

Definition isSpace2 (c1 c2 : ascii) : bool :=
  let n1 := nat_of_ascii c1 in
  let n2 := nat_of_ascii c2 in
  (n1 =? 194)%nat && ((n2 =? 133)%nat || (n2 =? 160)%nat).

Definition isSpace3 (c1 c2 c3 : ascii) : bool :=
  let n1 := nat_of_ascii c1 in
  let n2 := nat_of_ascii c2 in
  let n3 := nat_of_ascii c3 in
  ((n1 =? 225)%nat && (n2 =? 154)%nat && (n3 =? 128)%nat)
  || ((n1 =? 226)%nat && (n2 =? 128)%nat
      && (((128 <=? n3)%nat && (n3 <=? 138)%nat)
          || (n3 =? 168)%nat || (n3 =? 169)%nat || (n3 =? 175)%nat))
  || ((n1 =? 226)%nat && (n2 =? 129)%nat && (n3 =? 159)%nat)
  || ((n1 =? 227)%nat && (n2 =? 128)%nat && (n3 =? 128)%nat).

(** A byte below 128 is a character of its own and continues none. *)
Definition plainByte (d : ascii) : Prop := (nat_of_ascii d < 128)%nat.

(** What follows the white space character [s] starts with, if it starts
    with one. *)
Definition stripSpace (s : string) : option string :=
  match s with
  | String c1 r1 =>
      if isSpace c1 then Some r1
      else
        match r1 with
        | String c2 r2 =>
            if isSpace2 c1 c2 then Some r2
            else
              match r2 with
              | String c3 r3 =>
                  if isSpace3 c1 c2 c3 then Some r3 else None
              | EmptyString => None
              end
        | EmptyString => None
        end
  | EmptyString => None
  end.

Definition newline : ascii := ascii_of_nat 10.

Definition isEmpty (s : string) : bool :=
  match s with EmptyString => true | String _ _ => false end.

(** [strings.TrimLeftFunc(s, unicode.IsSpace)]: the string from its first
    character that is no white space. *)
Fixpoint trimLeft (s : string) : string :=
  match s with
  | String c1 r1 =>
      if isSpace c1 then trimLeft r1
      else
        match r1 with
        | String c2 r2 =>
            if isSpace2 c1 c2 then trimLeft r2
            else
              match r2 with
              | String c3 r3 =>
                  if isSpace3 c1 c2 c3 then trimLeft r3 else s
              | EmptyString => s
              end
        | EmptyString => s
        end
  | EmptyString => EmptyString
  end.

(** Nothing but white space. *)
Fixpoint allSpace (s : string) : bool :=
  match s with
  | String c1 r1 =>
      if isSpace c1 then allSpace r1
      else
        match r1 with
        | String c2 r2 =>
            if isSpace2 c1 c2 then allSpace r2
            else
              match r2 with
              | String c3 r3 => isSpace3 c1 c2 c3 && allSpace r3
              | EmptyString => false
              end
        | EmptyString => false
        end
  | EmptyString => true
  end.

(** [strings.TrimRightFunc(s, unicode.IsSpace)]: the string without the
    white space characters it ends with, that is, up to the first place
    from which on there is nothing but white space. *)
Fixpoint trimRight (s : string) : string :=
  match s with
  | EmptyString => EmptyString
  | String c r => if allSpace s then EmptyString else String c (trimRight r)
  end.

(** [strings.TrimSpace] *)
Definition TrimSpace (s : string) : string := trimRight (trimLeft s).

(** [strings.Split(s, "\n")]: always at least one piece. *)
Fixpoint splitLines (s : string) : list string :=
  match s with
  | EmptyString => [EmptyString]
  | String c r =>
      if Ascii.eqb c newline then EmptyString :: splitLines r
      else match splitLines r with
           | l :: ls => String c l :: ls
           | [] => [String c EmptyString]
           end
  end.

(** The field read so far, if any, put in front of the fields that
    follow. *)
Definition flushField (cur : string) (rest : list string) : list string :=
  if isEmpty cur then rest else cur :: rest.

(** [strings.Fields]: the maximal runs of bytes between white space
    characters, in order.  [cur] is the field being read. *)
Fixpoint fieldsFrom (cur : string) (s : string) : list string :=
  match s with
  | String c1 r1 =>
      if isSpace c1 then flushField cur (fieldsFrom EmptyString r1)
      else
        match r1 with
        | String c2 r2 =>
            if isSpace2 c1 c2 then flushField cur (fieldsFrom EmptyString r2)
            else
              match r2 with
              | String c3 r3 =>
                  if isSpace3 c1 c2 c3
                  then flushField cur (fieldsFrom EmptyString r3)
                  else fieldsFrom (cur ++ String c1 EmptyString) r1
              | EmptyString => fieldsFrom (cur ++ String c1 EmptyString) r1
              end
        | EmptyString => fieldsFrom (cur ++ String c1 EmptyString) r1
        end
  | EmptyString => flushField cur []
  end.

Definition Fields (s : string) : list string := fieldsFrom EmptyString s.

(** [strings.HasPrefix] *)
Definition HasPrefix (s p : string) : bool := String.prefix p s.

(** [strings.Join] *)
Definition Join (elems : list string) (sep : string) : string :=
  String.concat sep elems.

(** [s[:n]] on a Go string: a run-time panic ([None]) when [n] exceeds the
    length. *)
Definition slicePrefix (n : nat) (s : string) : option string :=
  if (n <=? String.length s)%nat then Some (String.substring 0 n s) else None.

(** ** Core data types ([rebranch.go]) *)

Definition TempBranchPrefix : string := "rebranch-temp-".

(** [CommitInfo]: a commit in the interactive list. *)
Record CommitInfo := mkCommitInfo {
  SHA : string;
  Message : string;
  Action : string   (* "pick" or "drop" *)
}.

(** [RebranchState]: the operation record. *)
Record RebranchState := mkRebranchState {
  SourceBranch : string;
  BaseBranch : string;
  TempBranch : string;
  CommitsToApply : list CommitInfo;
  CurrentCommitIdx : Z;
  Stage : string    (* "picking", "conflicts", "done" *)
}.

#[global] Instance CommitInfo_eq_dec : EqDecision CommitInfo.
Proof. solve_decision. Defined.

#[global] Instance RebranchState_eq_dec : EqDecision RebranchState.
Proof. solve_decision. Defined.

(** ** The selection listing ([editor.go]) *)

(** The seven-byte abbreviation both functions compute:
    [if len(shortSHA) > 7 { shortSHA = shortSHA[:7] }]. *)
Definition shortSHA (sha : string) : string :=
  if (7 <? String.length sha)%nat then String.substring 0 7 sha else sha.

Definition listingHeader : list string :=
  [ "# Interactive rebranch - Edit the list of commits to apply";
    "# Commands:";
    "#  pick, p = apply this commit";
    "#  drop, d = skip this commit";
    "#";
    "# Lines starting with # are ignored.";
    EmptyString ].

(** [fmt.Sprintf("pick %s %s", shortSHA, commit.Message)] *)
Definition listingLine (c : CommitInfo) : string :=
  "pick " ++ shortSHA (SHA c) ++ " " ++ Message c.

(** The bytes [CreateInteractiveFile] writes. *)
Definition listingContent (commits : list CommitInfo) : string :=
  Join (listingHeader ++ map listingLine commits) (String newline EmptyString)
  ++ String newline EmptyString.

(** Errors of [ParseInteractiveFile]; line numbers are 1-based. *)
Inductive ParseError :=
  | PickFileUnreadable
  | InvalidLine (lineNum : Z) (line : string)
  | InvalidAction (action : string) (lineNum : Z)
  | UnknownCommit (short : string) (lineNum : Z)
  | NoCommitsSelected.

(** The lookup table keyed by abbreviation; a later commit with the same
    abbreviation replaces an earlier one, as the Go map assignment does. *)
Definition buildCommitMap (originalCommits : list CommitInfo)
  : gmap string CommitInfo :=
  fold_left (fun m c => <[shortSHA (SHA c) := c]> m) originalCommits ∅.

(** The [switch action] of the parser. *)
Definition normalizeAction (action : string) : option string :=
  if String.eqb action "pick" || String.eqb action "p" then Some "pick"
  else if String.eqb action "drop" || String.eqb action "d" then Some "drop"
  else None.

(** The line loop; [lineNum] counts the lines read so far and [selected]
    is the slice being appended to. *)
Fixpoint parseLines (commitMap : gmap string CommitInfo) (lines : list string)
    (lineNum : Z) (selected : list CommitInfo)
  : ParseError + list CommitInfo :=
  match lines with
  | [] => inr selected
  | raw :: rest =>
      let lineNum := lineNum + 1 in
      let line := TrimSpace raw in
      if isEmpty line || HasPrefix line "#"
      then parseLines commitMap rest lineNum selected
      else
        match Fields line with
        | action :: short :: _ =>
            match normalizeAction action with
            | None => inl (InvalidAction action lineNum)
            | Some action' =>
                match commitMap !! short with
                | None => inl (UnknownCommit short lineNum)
                | Some originalCommit =>
                    parseLines commitMap rest lineNum
                      (selected ++
                       [ {| SHA := SHA originalCommit;
                            Message := Message originalCommit;
                            Action := action' |} ])
                end
            end
        | _ => inl (InvalidLine lineNum line)
        end
  end.

(** [ParseInteractiveFile] on the bytes read from the pick file. *)
Definition parseListing (data : string) (originalCommits : list CommitInfo)
  : ParseError + list CommitInfo :=
  match parseLines (buildCommitMap originalCommits) (splitLines data) 0 [] with
  | inl e => inl e
  | inr [] => inl NoCommitsSelected
  | inr selected => inr selected
  end.

(** ** The repository and its environment *)

(** A commit object of the object store. *)
Record CommitObject := mkCommitObject {
  Parents : list string;
  CommitMessage : string
}.

(** Where [HEAD] points. *)
Inductive HeadRef :=
  | OnBranch (branch : string)
  | DetachedAt (hash : string).

#[global] Instance HeadRef_eq_dec : EqDecision HeadRef.
Proof. solve_decision. Defined.

(** The file [.git/REBRANCH_STATE]: absent, present but not decodable, or
    the JSON encoding of a record (kept as the record itself). *)
Inductive StateFile :=
  | NoFile
  | Garbled
  | Stored (state : RebranchState).

Inductive Error :=
  (* git.go *)
  | HeadUnresolved
  | DetachedHead
  | BaseBranchNotFound (branch : string)
  | HeadBranchNotFound (branch : string)
  | CommitObjectMissing (hash : string)
  | SetReferenceFailed (branch : string)
  | CheckoutFailed (branch : string)
  | CherryPickConflict (sha : string)
  | CherryPickFailed (sha : string)
  | DeleteBranchFailed (branch : string)
  | RenameBranchFailed (oldName newName : string)
  | StatusFailed
  (* store.go *)
  | StateWriteFailed
  | StateReadFailed
  | StateUnmarshalFailed
  | StateRemoveFailed
  (* editor.go *)
  | PickFileWriteFailed
  | EditorFailed
  | PickFileError (e : ParseError)
  (* validation.go *)
  | InvalidRepository (cause : Error)
  | AlreadyInProgress
  | OngoingOperation (kind : string)
  | WorkingDirectoryCheckFailed (cause : Error)
  | WorkingDirectoryNotClean
  | BaseBranchMissing (branch : string)
  | CurrentBranchFailed (cause : Error)
  | SameAsBase (branch : string)
  | NoOperationInProgress
  | LoadStateFailed (cause : Error)
  | NotWaitingForConflicts (stage : string)
  | NotReadyToFinish (stage : string)
  | NotOnTempBranch (tempBranch currentBranch : string)
  (* rebranch.go *)
  | Usage
  | NoCommitsToRebranch
  | CreatePickFileFailed (cause : Error)
  | LaunchEditorFailed (cause : Error)
  | ParsePickFileFailed (cause : Error)
  | ConflictSaveFailed (cause : Error)
  | ConflictDetected (short : string)
  | DeleteOriginalFailed (branch : string) (cause : Error)
  | RenameTempFailed (oldName newName : string) (cause : Error).

(** The calls that reach outside the process and may change the repository
    or its files; a repository keeps the sequence of those issued so far. *)
Inductive Call :=
  | CallSetReference (name hash : string)
  | CallCheckout (name : string)
  | CallCherryPick (sha : string)
  | CallDeleteBranch (name : string)
  | CallRenameBranch (oldName newName : string)
  | CallStatus
  | CallSaveState (state : RebranchState)
  | CallReadState
  | CallRemoveState
  | CallWritePickFile (content : string)
  | CallLaunchEditor.

(** What the process prints on standard output. *)
Inductive Output :=
  | OutFound (n : Z) (sourceBranch baseBranch : string)
  | OutCommit (position : Z) (short message : string)
  | OutEditPrompt
  | OutSelected (n : Z)
  | OutApplied (n : Z) (tempBranch : string)
  | OutReview
  | OutRebranched (sourceBranch baseBranch : string)
  | OutWarnDeleteTemp (tempBranch : string) (cause : Error)
  | OutAborted.

Record Repo := mkRepo {
  objects : gmap string CommitObject;   (* the commit objects, by hash *)
  refs : gmap string string;            (* refs/heads: branch -> tip *)
  head : HeadRef;
  dirty : bool;                         (* uncommitted modifications *)
  unmerged : bool;                      (* unmerged entries in the index *)
  markers : list string;                (* foreign operations in progress *)
  stateFile : StateFile;                (* .git/REBRANCH_STATE *)
  pickFile : option string;             (* .git/REBRANCH_PICK *)
  stdout : list Output;
  calls : list Call
}.

(** What [git cherry-pick] makes of a commit on the current checkout: a
    new commit; a conflict (exit code 1); nothing, because the change is
    already there and the commit would be empty (exit code 1 as well); or
    another failure. *)
Inductive PickResult :=
  | Picked (newHash : string)
  | PickConflict
  | PickEmpty
  | PickError.

(** The collaborators the engine consumes but does not implement:
    - [history objs h]: the commits go-git's history walk yields from [h]
      ([Repository.Log] and [Commit.IsAncestor] both walk that way);
    - [pick r sha]: the outcome of [git cherry-pick sha] on [r];
    - [editor text]: the pick file as the editor leaves it, or [None] when
      the editor exits with an error;
    - [fault r c]: whether the call [c], issued on [r], fails for a reason
      of its environment (disk, permissions, the git binary);
    - [now]: [time.Now().Unix()]. *)
Record Env := mkEnv {
  history : gmap string CommitObject -> string -> list (string * CommitObject);
  pick : Repo -> string -> PickResult;
  editor : string -> option string;
  fault : Repo -> Call -> bool;
  now : Z
}.

(** ** Commands: state passing with errors and panics *)

Inductive outcome (A : Type) :=
  | Ok (a : A)
  | Fail (e : Error)
  | Panic.
Arguments Ok {A} a.
Arguments Fail {A} e.
Arguments Panic {A}.

Definition M (A : Type) : Type := Repo -> outcome A * Repo.

Definition ret {A} (a : A) : M A := fun r => (Ok a, r).
Definition fail {A} (e : Error) : M A := fun r => (Fail e, r).
Definition panic {A} : M A := fun r => (Panic, r).

Definition bind {A B} (m : M A) (f : A -> M B) : M B :=
  fun r =>
    match m r with
    | (Ok a, r') => f a r'
    | (Fail e, r') => (Fail e, r')
    | (Panic, r') => (Panic, r')
    end.

Notation "'let*' x := m 'in' k" := (bind m (fun x => k))
  (at level 10, x name, m at level 100, k at level 200).

(** [if err := m; err != nil { return wrap(err) }] *)
Definition wrapErr {A} (wrap : Error -> Error) (m : M A) : M A :=
  fun r =>
    match m r with
    | (Fail e, r') => (Fail (wrap e), r')
    | res => res
    end.

(** [err := m], the error kept as a value. *)
Definition try {A} (m : M A) : M (Error + A) :=
  fun r =>
    match m r with
    | (Ok a, r') => (Ok (inr a), r')
    | (Fail e, r') => (Ok (inl e), r')
    | (Panic, r') => (Panic, r')
    end.

Definition gets {A} (f : Repo -> A) : M A := fun r => (Ok (f r), r).

Definition logCall (c : Call) (r : Repo) : Repo :=
  mkRepo (objects r) (refs r) (head r) (dirty r) (unmerged r) (markers r)
         (stateFile r) (pickFile r) (stdout r) (calls r ++ [c]).

Definition print (o : Output) : M unit :=
  fun r => (Ok tt,
            mkRepo (objects r) (refs r) (head r) (dirty r) (unmerged r)
                   (markers r) (stateFile r) (pickFile r) (stdout r ++ [o])
                   (calls r)).

Definition setRefs (f : gmap string string -> gmap string string) (r : Repo) : Repo :=
  mkRepo (objects r) (f (refs r)) (head r) (dirty r) (unmerged r) (markers r)
         (stateFile r) (pickFile r) (stdout r) (calls r).

Definition setHead (h : HeadRef) (r : Repo) : Repo :=
  mkRepo (objects r) (refs r) h (dirty r) (unmerged r) (markers r)
         (stateFile r) (pickFile r) (stdout r) (calls r).

Definition setStateFile (f : StateFile) (r : Repo) : Repo :=
  mkRepo (objects r) (refs r) (head r) (dirty r) (unmerged r) (markers r) f
         (pickFile r) (stdout r) (calls r).

Definition setPickFile (f : option string) (r : Repo) : Repo :=
  mkRepo (objects r) (refs r) (head r) (dirty r) (unmerged r) (markers r)
         (stateFile r) f (stdout r) (calls r).

(** An external call: logged, then failing with [e] when the environment
    or the precondition [ok] says so, else applying [effect]. *)
Definition external (env : Env) (c : Call) (e : Error)
    (ok : Repo -> bool) (effect : Repo -> Repo) : M unit :=
  fun r =>
    if fault env r c || negb (ok r)
    then (Fail e, logCall c r)
    else (Ok tt, effect (logCall c r)).

(** ** The backend ([git.go]) *)

(** [repo.Head()]: the reference [HEAD] resolves to. *)
Definition resolveHead (r : Repo) : option string :=
  match head r with
  | OnBranch b => refs r !! b
  | DetachedAt h => Some h
  end.

Definition GetCurrentBranch : M string :=
  fun r =>
    match resolveHead r with
    | None => (Fail HeadUnresolved, r)
    | Some _ =>
        match head r with
        | OnBranch b => (Ok b, r)
        | DetachedAt _ => (Fail DetachedHead, r)
        end
    end.

Definition BranchExists (branch : string) (r : Repo) : bool :=
  bool_decide (is_Some (refs r !! branch)).

(** [Git.isAncestor(ancestor, descendant)]: after the equality shortcut it
    asks [descendantCommit.IsAncestor(ancestorCommit)], which walks the
    history of [ancestor] looking for [descendant]. *)
Definition isAncestor (env : Env) (objs : gmap string CommitObject)
    (ancestor descendant : string) : Error + bool :=
  if String.eqb ancestor descendant then inr true
  else
    match objs !! descendant with
    | None => inl (CommitObjectMissing descendant)
    | Some _ =>
        match objs !! ancestor with
        | None => inl (CommitObjectMissing ancestor)
        | Some _ =>
            inr (existsb (String.eqb descendant)
                         (map fst (history env objs ancestor)))
        end
    end.

(** The [ForEach] callback of [GetCommitsBetween], run over the commits the
    walk yields; [commits] is the slice being prepended to. *)
Fixpoint collectCommits (env : Env) (objs : gmap string CommitObject)
    (baseHash : string) (walk : list (string * CommitObject))
    (commits : list CommitInfo) : Error + list CommitInfo :=
  match walk with
  | [] => inr commits
  | (hash, commit) :: rest =>
      if String.eqb hash baseHash
      then collectCommits env objs baseHash rest commits
      else
        match isAncestor env objs baseHash hash with
        | inl e => inl e
        | inr true => collectCommits env objs baseHash rest commits
        | inr false =>
            collectCommits env objs baseHash rest
              ({| SHA := hash;
                  Message := TrimSpace (CommitMessage commit);
                  Action := "pick" |} :: commits)
        end
  end.

Definition GetCommitsBetween (env : Env) (base head : string)
  : M (list CommitInfo) :=
  fun r =>
    match refs r !! base with
    | None => (Fail (BaseBranchNotFound base), r)
    | Some baseHash =>
        match refs r !! head with
        | None => (Fail (HeadBranchNotFound head), r)
        | Some headHash =>
            match objects r !! baseHash with
            | None => (Fail (CommitObjectMissing baseHash), r)
            | Some _ =>
                match objects r !! headHash with
                | None => (Fail (CommitObjectMissing headHash), r)
                | Some _ =>
                    if String.eqb baseHash headHash then (Ok [], r)
                    else
                      match collectCommits env (objects r) baseHash
                              (history env (objects r) headHash) [] with
                      | inl e => (Fail e, r)
                      | inr commits => (Ok commits, r)
                      end
                end
            end
        end
    end.

(** [Storer.SetReference]: creates the reference or overwrites it. *)
Definition CreateBranch (env : Env) (name base : string) : M unit :=
  let* found := gets (fun r => refs r !! base) in
  match found with
  | None => fail (BaseBranchNotFound base)
  | Some hash =>
      external env (CallSetReference name hash) (SetReferenceFailed name)
        (fun _ => true) (setRefs (insert name hash))
  end.

(** [git checkout name]: git refuses a branch that does not exist, and
    refuses to switch at all while the index holds unmerged entries, the
    state a conflicting cherry-pick leaves until the conflict is resolved
    or the pick is aborted.  (That local changes would be overwritten is
    left to [fault].) *)
Definition CheckoutBranch (env : Env) (name : string) : M unit :=
  external env (CallCheckout name) (CheckoutFailed name)
    (fun r => BranchExists name r && negb (unmerged r))
    (setHead (OnBranch name)).

(** [git cherry-pick sha]: a new commit on top of what is checked out; a
    conflict, which leaves the work tree modified, the index unmerged and
    [CHERRY_PICK_HEAD] behind; an empty pick; or another failure.  The
    code takes exit code 1 for a conflict, whichever of the two it is. *)
Definition applyPick (sha newHash tip : string) (r : Repo) : Repo :=
  let message :=
    match objects r !! sha with
    | Some c => CommitMessage c
    | None => EmptyString
    end in
  mkRepo (<[newHash := mkCommitObject [tip] message]> (objects r))
         (match head r with
          | OnBranch b => <[b := newHash]> (refs r)
          | DetachedAt _ => refs r
          end)
         (match head r with
          | OnBranch b => OnBranch b
          | DetachedAt _ => DetachedAt newHash
          end)
         (dirty r) (unmerged r) (markers r) (stateFile r) (pickFile r)
         (stdout r) (calls r).

(** The conflict: modified files, unmerged entries in the index, and
    [CHERRY_PICK_HEAD]. *)
Definition leaveConflict (r : Repo) : Repo :=
  mkRepo (objects r) (refs r) (head r) true true ("cherry-pick" :: markers r)
         (stateFile r) (pickFile r) (stdout r) (calls r).

(** The empty pick: nothing modified, [CHERRY_PICK_HEAD] left behind. *)
Definition leaveEmptyPick (r : Repo) : Repo :=
  mkRepo (objects r) (refs r) (head r) (dirty r) (unmerged r)
         ("cherry-pick" :: markers r) (stateFile r) (pickFile r) (stdout r)
         (calls r).

Definition CherryPick (env : Env) (sha : string) : M unit :=
  fun r =>
    let r' := logCall (CallCherryPick sha) r in
    if fault env r (CallCherryPick sha) then (Fail (CherryPickFailed sha), r')
    else
      match resolveHead r with
      | None => (Fail (CherryPickFailed sha), r')
      | Some tip =>
          match pick env r sha with
          | Picked newHash => (Ok tt, applyPick sha newHash tip r')
          | PickConflict => (Fail (CherryPickConflict sha), leaveConflict r')
          | PickEmpty => (Fail (CherryPickConflict sha), leaveEmptyPick r')
          | PickError => (Fail (CherryPickFailed sha), r')
          end
      end.

(** [git branch -D name]: refuses a missing branch and the checked-out one. *)
Definition DeleteBranch (env : Env) (name : string) : M unit :=
  external env (CallDeleteBranch name) (DeleteBranchFailed name)
    (fun r => BranchExists name r
              && negb (bool_decide (head r = OnBranch name)))
    (setRefs (delete name)).

Definition renameRef (oldName newName : string) (r : Repo) : Repo :=
  match refs r !! oldName with
  | None => r
  | Some hash =>
      mkRepo (objects r) (<[newName := hash]> (delete oldName (refs r)))
             (if bool_decide (head r = OnBranch oldName)
              then OnBranch newName else head r)
             (dirty r) (unmerged r) (markers r) (stateFile r) (pickFile r)
             (stdout r) (calls r)
  end.

(** [git branch -m old new]: refuses a missing [old] and an existing [new]. *)
Definition RenameBranch (env : Env) (oldName newName : string) : M unit :=
  external env (CallRenameBranch oldName newName)
    (RenameBranchFailed oldName newName)
    (fun r => BranchExists oldName r
              && (String.eqb oldName newName || negb (BranchExists newName r)))
    (renameRef oldName newName).

Definition HasUncommittedChanges (env : Env) : M bool :=
  fun r =>
    if fault env r CallStatus then (Fail StatusFailed, r)
    else (Ok (dirty r), r).

Definition IsCleanWorkingDirectory (env : Env) : M bool :=
  let* hasChanges := HasUncommittedChanges env in
  ret (negb hasChanges).

(** [HasOngoingOperation]: the first marker file the loop over the Go map
    meets; the map's iteration order is unspecified, here the foreign
    markers come in the order [markers] lists them and the tool's own
    state file last.  Its error result is always [nil], so the branch of
    [validateStart] that reports a failed check is never taken. *)
Definition HasOngoingOperation (r : Repo) : bool * string :=
  match markers r with
  | kind :: _ => (true, kind)
  | [] =>
      match stateFile r with
      | NoFile => (false, EmptyString)
      | _ => (true, "rebranch")
      end
  end.

(** [IsValidRepository]: the repository was opened, so [.git] exists; what
    remains is that [HEAD] resolves. *)
Definition IsValidRepository : M unit :=
  fun r =>
    match resolveHead r with
    | None => (Fail HeadUnresolved, r)
    | Some _ => (Ok tt, r)
    end.

(** ** The store ([store.go]) *)

Definition StateExists (r : Repo) : bool :=
  match stateFile r with
  | NoFile => false
  | _ => true
  end.

Definition SaveState (env : Env) (state : RebranchState) : M unit :=
  external env (CallSaveState state) StateWriteFailed
    (fun _ => true) (setStateFile (Stored state)).

Definition LoadState (env : Env) : M RebranchState :=
  fun r =>
    if fault env r CallReadState then (Fail StateReadFailed, r)
    else
      match stateFile r with
      | NoFile => (Fail StateReadFailed, r)
      | Garbled => (Fail StateUnmarshalFailed, r)
      | Stored state => (Ok state, r)
      end.

Definition ClearState (env : Env) : M unit :=
  let* present := gets StateExists in
  if negb present then ret tt   (* nothing to clear *)
  else external env CallRemoveState StateRemoveFailed
         (fun _ => true) (setStateFile NoFile).

(** ** The pick file and the editor ([editor.go]) *)

Definition CreateInteractiveFile (env : Env) (commits : list CommitInfo) : M unit :=
  external env (CallWritePickFile (listingContent commits)) PickFileWriteFailed
    (fun _ => true) (setPickFile (Some (listingContent commits))).

Definition ParseInteractiveFile (originalCommits : list CommitInfo)
  : M (list CommitInfo) :=
  fun r =>
    match pickFile r with
    | None => (Fail (PickFileError PickFileUnreadable), r)
    | Some data =>
        match parseListing data originalCommits with
        | inl e => (Fail (PickFileError e), r)
        | inr selected => (Ok selected, r)
        end
    end.

Definition LaunchEditor (env : Env) : M unit :=
  fun r =>
    let r' := logCall CallLaunchEditor r in
    match pickFile r with
    | None => (Fail EditorFailed, r')
    | Some text =>
        match editor env text with
        | None => (Fail EditorFailed, r')
        | Some text' => (Ok tt, setPickFile (Some text') r')
        end
    end.

(** ** The preflight validators ([validation.go]) *)

Definition validateStart (env : Env) (baseBranch : string) : M unit :=
  let* _ := wrapErr InvalidRepository IsValidRepository in
  let* inProgress := gets StateExists in
  if inProgress then fail AlreadyInProgress
  else
    let* ongoing := gets HasOngoingOperation in
    if fst ongoing then fail (OngoingOperation (snd ongoing))
    else
      let* isClean := wrapErr WorkingDirectoryCheckFailed
                        (IsCleanWorkingDirectory env) in
      if negb isClean then fail WorkingDirectoryNotClean
      else
        let* baseExists := gets (BranchExists baseBranch) in
        if negb baseExists then fail (BaseBranchMissing baseBranch)
        else
          let* currentBranch := wrapErr CurrentBranchFailed GetCurrentBranch in
          if String.eqb currentBranch baseBranch
          then fail (SameAsBase currentBranch)
          else ret tt.

Definition validateContinue (env : Env) : M unit :=
  let* _ := wrapErr InvalidRepository IsValidRepository in
  let* inProgress := gets StateExists in
  if negb inProgress then fail NoOperationInProgress
  else
    let* rebranchState := wrapErr LoadStateFailed (LoadState env) in
    if negb (String.eqb (Stage rebranchState) "conflicts")
    then fail (NotWaitingForConflicts (Stage rebranchState))
    else
      let* isClean := wrapErr WorkingDirectoryCheckFailed
                        (IsCleanWorkingDirectory env) in
      if negb isClean then fail WorkingDirectoryNotClean
      else ret tt.

Definition validateFinish (env : Env) : M unit :=
  let* _ := wrapErr InvalidRepository IsValidRepository in
  let* inProgress := gets StateExists in
  if negb inProgress then fail NoOperationInProgress
  else
    let* rebranchState := wrapErr LoadStateFailed (LoadState env) in
    if negb (String.eqb (Stage rebranchState) "done")
    then fail (NotReadyToFinish (Stage rebranchState))
    else
      let* currentBranch := wrapErr CurrentBranchFailed GetCurrentBranch in
      if negb (String.eqb currentBranch (TempBranch rebranchState))
      then fail (NotOnTempBranch (TempBranch rebranchState) currentBranch)
      else
        let* isClean := wrapErr WorkingDirectoryCheckFailed
                          (IsCleanWorkingDirectory env) in
        if negb isClean then fail WorkingDirectoryNotClean
        else ret tt.

Definition validateAbort (env : Env) : M unit :=
  let* _ := wrapErr InvalidRepository IsValidRepository in
  let* inProgress := gets StateExists in
  if negb inProgress then fail NoOperationInProgress
  else ret tt.

(** ** The orchestrator ([rebranch.go]) *)

Definition withCursor (i : Z) (s : RebranchState) : RebranchState :=
  mkRebranchState (SourceBranch s) (BaseBranch s) (TempBranch s)
                  (CommitsToApply s) i (Stage s).

Definition withStage (stage : string) (s : RebranchState) : RebranchState :=
  mkRebranchState (SourceBranch s) (BaseBranch s) (TempBranch s)
                  (CommitsToApply s) (CurrentCommitIdx s) stage.

(** [countPickedCommits] *)
Definition countPickedCommits (commits : list CommitInfo) : Z :=
  Z.of_nat (length (filter (fun c => Action c = "pick") commits)).

(** [commit.SHA[:7]] *)
Definition sliceSHA (sha : string) : M string :=
  match slicePrefix 7 sha with
  | Some short => ret short
  | None => panic
  end.

(** The body of [ApplyCherryPicks]'s loop, over the entries from index [i]
    on; the result is the record as the loop leaves it in memory. *)
Fixpoint applyLoop (env : Env) (pending : list CommitInfo) (i : Z)
    (state : RebranchState) : M RebranchState :=
  match pending with
  | [] => ret state
  | commit :: rest =>
      if String.eqb (Action commit) "drop"
      then applyLoop env rest (i + 1) state
      else
        let* picked := try (CherryPick env (SHA commit)) in
        match picked with
        | inl _ =>
            let state := withStage "conflicts" (withCursor i state) in
            let* _ := wrapErr ConflictSaveFailed (SaveState env state) in
            let* short := sliceSHA (SHA commit) in
            fail (ConflictDetected short)
        | inr _ =>
            let state := withCursor i state in
            let* _ := SaveState env state in
            applyLoop env rest (i + 1) state
        end
  end.

(** [ApplyCherryPicks]: applies the remaining commits from the current
    index.  A negative index makes the first [state.CommitsToApply[i]]
    panic. *)
Definition ApplyCherryPicks (env : Env) (state : RebranchState) : M unit :=
  if CurrentCommitIdx state <? 0 then panic
  else
    let* state := applyLoop env
                    (drop (Z.to_nat (CurrentCommitIdx state))
                          (CommitsToApply state))
                    (CurrentCommitIdx state) state in
    let* _ := print (OutApplied (countPickedCommits (CommitsToApply state))
                                (TempBranch state)) in
    let* _ := print OutReview in
    SaveState env (withStage "done" state).

(** The listing [startRebranch] prints, [commit.SHA[:7]] per line. *)
Fixpoint printCommits (position : Z) (commits : list CommitInfo) : M unit :=
  match commits with
  | [] => ret tt
  | commit :: rest =>
      let* short := sliceSHA (SHA commit) in
      let* _ := print (OutCommit position short (Message commit)) in
      printCommits (position + 1) rest
  end.

(** [startRebranch]: begins the interactive rebranching process. *)
Definition startRebranch (env : Env) (baseBranch : string) : M unit :=
  let* _ := validateStart env baseBranch in
  let* sourceBranch := GetCurrentBranch in
  let* commits := GetCommitsBetween env baseBranch sourceBranch in
  match commits with
  | [] => fail NoCommitsToRebranch
  | _ =>
      let* _ := print (OutFound (Z.of_nat (length commits))
                                sourceBranch baseBranch) in
      let* _ := printCommits 1 commits in
      let* _ := wrapErr CreatePickFileFailed
                  (CreateInteractiveFile env commits) in
      let* _ := print OutEditPrompt in
      let* _ := wrapErr LaunchEditorFailed (LaunchEditor env) in
      let* selectedCommits := wrapErr ParsePickFileFailed
                                (ParseInteractiveFile commits) in
      let* _ := print (OutSelected (countPickedCommits selectedCommits)) in
      let tempBranch := TempBranchPrefix ++ pretty (now env) in
      let* _ := CreateBranch env tempBranch baseBranch in
      let* _ := CheckoutBranch env tempBranch in
      let state := {| SourceBranch := sourceBranch;
                      BaseBranch := baseBranch;
                      TempBranch := tempBranch;
                      CommitsToApply := selectedCommits;
                      CurrentCommitIdx := 0;
                      Stage := "picking" |} in
      let* _ := SaveState env state in
      ApplyCherryPicks env state
  end.

(** [CurrentCommitIdx++] on a 64-bit [int]. *)
Definition incrInt (i : Z) : Z :=
  if i =? 2^63 - 1 then - 2^63 else i + 1.

(** [continueRebranch]: resumes after conflict resolution. *)
Definition continueRebranch (env : Env) : M unit :=
  let* _ := validateContinue env in
  let* rebranchState := LoadState env in
  ApplyCherryPicks env
    (withStage "picking"
       (withCursor (incrInt (CurrentCommitIdx rebranchState)) rebranchState)).

(** [finishRebranch]: completes the rebranch by replacing the original
    branch. *)
Definition finishRebranch (env : Env) : M unit :=
  let* _ := validateFinish env in
  let* state := LoadState env in
  let* _ := wrapErr (DeleteOriginalFailed (SourceBranch state))
              (DeleteBranch env (SourceBranch state)) in
  let* _ := wrapErr (RenameTempFailed (TempBranch state) (SourceBranch state))
              (RenameBranch env (TempBranch state) (SourceBranch state)) in
  let* _ := ClearState env in
  print (OutRebranched (SourceBranch state) (BaseBranch state)).

(** [abortRebranch]: cancels the operation and cleans up. *)
Definition abortRebranch (env : Env) : M unit :=
  let* _ := validateAbort env in
  let* state := LoadState env in
  let* _ := CheckoutBranch env (SourceBranch state) in
  let* deleted := try (DeleteBranch env (TempBranch state)) in
  let* _ := match deleted with
            | inl err => print (OutWarnDeleteTemp (TempBranch state) err)
            | inr _ => ret tt
            end in
  let* _ := ClearState env in
  print OutAborted.

(** [RunCmd]: the entry point called from [cmd/main.go], past the opening
    of the repository and of the store. *)
Definition RunCmd (env : Env) (args : list string) : M unit :=
  match args with
  | [] => fail Usage
  | arg :: _ =>
      if String.eqb arg "--continue" then continueRebranch env
      else if String.eqb arg "--done" then finishRebranch env
      else if String.eqb arg "--abort" then abortRebranch env
      else startRebranch env arg
  end.

(** ** Worked examples: a small repository *)

(** A depth-first pre-order walk of the commit graph, first parent first,
    each commit once, in the manner of go-git's commit iterator; [fuel]
    bounds the number of steps. *)
Fixpoint walkHistory (fuel : nat) (objs : gmap string CommitObject)
    (stack seen : list string) : list (string * CommitObject) :=
  match fuel with
  | O => []
  | S fuel =>
      match stack with
      | [] => []
      | h :: rest =>
          if existsb (String.eqb h) seen then walkHistory fuel objs rest seen
          else
            match objs !! h with
            | None => walkHistory fuel objs rest seen
            | Some c =>
                (h, c) :: walkHistory fuel objs (Parents c ++ rest) (h :: seen)
            end
      end
  end.

Definition lf : string := String newline EmptyString.

(** [main]: b0 - b1;  [feature]: b0 - f1 - f2. *)
Definition exampleObjects : gmap string CommitObject :=
  <["b0000000" := mkCommitObject [] ("Initial commit" ++ lf)]>
  (<["b1111111" := mkCommitObject ["b0000000"] ("Main change" ++ lf)]>
  (<["f1111111" := mkCommitObject ["b0000000"] ("Feature one" ++ lf)]>
  (<["f2222222" := mkCommitObject ["f1111111"] ("Feature two" ++ lf)]> ∅))).

Definition exampleRepo : Repo :=
  mkRepo exampleObjects
         (<["main" := "b1111111"]> (<["feature" := "f2222222"]> ∅))
         (OnBranch "feature") false false [] NoFile None [] [].

(** Every cherry-pick applies, the editor saves the listing as it is,
    nothing fails, and the clock reads 100. *)
Definition exampleEnv : Env :=
  mkEnv (fun objs h => walkHistory 100 objs [h] [])
        (fun _ sha => Picked ("n" ++ sha))
        (fun text => Some text)
        (fun _ _ => false)
        100.

(** As [exampleEnv], but the cherry-pick of [f1] conflicts. *)
Definition conflictEnv : Env :=
  mkEnv (history exampleEnv)
        (fun _ sha => if String.eqb sha "f1111111" then PickConflict
                      else Picked ("n" ++ sha))
        (editor exampleEnv) (fault exampleEnv) (now exampleEnv).

(** As [exampleEnv], but the editor saves an empty file. *)
Definition emptyEditEnv : Env :=
  mkEnv (history exampleEnv) (pick exampleEnv) (fun _ => Some EmptyString)
        (fault exampleEnv) (now exampleEnv).

Definition examplePlan : list CommitInfo :=
  [ mkCommitInfo "f1111111" "Feature one" "pick";
    mkCommitInfo "f2222222" "Feature two" "pick" ].

Definition exampleState (cursor : Z) (stage : string) : RebranchState :=
  mkRebranchState "feature" "main" "rebranch-temp-100" examplePlan cursor stage.

(** The repository in the middle of an operation: the temp branch exists
    and is checked out, the record is on disk. *)
Definition midRepo (cursor : Z) (stage : string) : Repo :=
  mkRepo exampleObjects
         (<["rebranch-temp-100" := "b1111111"]> (refs exampleRepo))
         (OnBranch "rebranch-temp-100") false false []
         (Stored (exampleState cursor stage)) None [] [].

(** As [exampleRepo], but the message of [f2] has a body. *)
Definition bodyMessage : string :=
  "Feature two" ++ lf ++ lf ++ "Explains the change." ++ lf.

Definition bodyRepo : Repo :=
  mkRepo (<["f2222222" := mkCommitObject ["f1111111"] bodyMessage]> exampleObjects)
         (refs exampleRepo) (OnBranch "feature") false false [] NoFile None
         [] [].

(** A record is on disk, but [HEAD] names a branch that does not exist. *)
Definition unbornRepo : Repo :=
  mkRepo exampleObjects (refs exampleRepo) (OnBranch "ghost") false false []
         (Stored (exampleState 0 "picking")) None [] [].

(** A source branch on which a change is made and then undone.
    [main]: b0 - b1;  [toggle]: b0 - t1 - t2 - t3, where [t2] switches the
    cache on and [t3] switches it off again, giving the files of [t1]
    back.  So on the tip [t3] the change of [t2] applies once more (the
    lines it touches are as they were before it), and on top of that the
    change of [t3] applies as well.  [c1] is the commit with which the
    conflict of [t1] on the temp branch was resolved. *)
Definition toggleObjects : gmap string CommitObject :=
  <["b0000000" := mkCommitObject [] ("Initial commit" ++ lf)]>
  (<["b1111111" := mkCommitObject ["b0000000"] ("Main change" ++ lf)]>
  (<["t1111111" := mkCommitObject ["b0000000"] ("Rework the loader" ++ lf)]>
  (<["t2222222" := mkCommitObject ["t1111111"] ("Switch the cache on" ++ lf)]>
  (<["t3333333" := mkCommitObject ["t2222222"] ("Switch the cache off" ++ lf)]>
  (<["c1111111" := mkCommitObject ["b1111111"] ("Rework the loader" ++ lf)]>
   ∅))))).

Definition togglePlan : list CommitInfo :=
  [ mkCommitInfo "t1111111" "Rework the loader" "pick";
    mkCommitInfo "t2222222" "Switch the cache on" "pick";
    mkCommitInfo "t3333333" "Switch the cache off" "pick" ].

Definition toggleState : RebranchState :=
  mkRebranchState "toggle" "main" "rebranch-temp-100" togglePlan 0 "conflicts".

(** The operation stopped on the conflict of entry 0; the conflict has
    been resolved and committed on the temp branch, and the source branch
    [toggle] has then been checked out again; the work tree is clean. *)
Definition sourceCheckedOutRepo : Repo :=
  mkRepo toggleObjects
         (<["main" := "b1111111"]>
          (<["toggle" := "t3333333"]>
           (<["rebranch-temp-100" := "c1111111"]> ∅)))
         (OnBranch "toggle") false false [] (Stored toggleState) None [] [].

(** Git on that repository: the change of [t1] conflicts, those of [t2]
    and [t3] apply. *)
Definition toggleEnv : Env :=
  mkEnv (history exampleEnv)
        (fun _ sha => if String.eqb sha "t1111111" then PickConflict
                      else Picked ("n" ++ sha))
        (editor exampleEnv) (fault exampleEnv) (now exampleEnv).

(** A source branch with a merge.  [main]: b0 - b1;  [topic]: b0 - r1,
    then [a1] and [c1] side by side on top of [r1], merged by [m1] with
    [a1] as its first parent. *)
Definition mergeObjects : gmap string CommitObject :=
  <["b0000000" := mkCommitObject [] ("Initial commit" ++ lf)]>
  (<["b1111111" := mkCommitObject ["b0000000"] ("Main change" ++ lf)]>
  (<["r1000000" := mkCommitObject ["b0000000"] ("Add the parser" ++ lf)]>
  (<["a1000000" := mkCommitObject ["r1000000"] ("Parse numbers" ++ lf)]>
  (<["c1000000" := mkCommitObject ["r1000000"] ("Parse strings" ++ lf)]>
  (<["m1000000" := mkCommitObject ["a1000000"; "c1000000"]
                                  ("Merge strings into numbers" ++ lf)]>
   ∅))))).

Definition mergeRepo : Repo :=
  mkRepo mergeObjects
         (<["main" := "b1111111"]> (<["topic" := "m1000000"]> ∅))
         (OnBranch "topic") false false [] NoFile None [] [].

(** The repository [startRebranch] leaves when the first cherry-pick
    conflicts: the temp branch checked out, the index unmerged, the record
    on disk at stage "conflicts". *)
Definition conflictedRepo : Repo :=
  snd (startRebranch conflictEnv "main" exampleRepo).

(** A string given by its bytes. *)
Definition ofBytes (l : list nat) : string :=
  fold_right (fun n s => String (ascii_of_nat n) s) EmptyString l.

(** U+00A0 (no-break space), U+0085 (next line), U+3000 (ideographic
    space), and U+00E9 (e with acute accent) in UTF-8. *)
Definition noBreakSpace : string := ofBytes [194; 160]%nat.
Definition nextLine : string := ofBytes [194; 133]%nat.
Definition ideographicSpace : string := ofBytes [227; 128; 128]%nat.
Definition eAcute : string := ofBytes [195; 169]%nat.

(** ** Observations used in the statements *)

(** A command that leaves the repository as it found it, whatever it
    returns. *)
Definition readOnly {A} (m : M A) : Prop := forall r, snd (m r) = r.

(** The identifiers handed to [git cherry-pick], in call order. *)
Definition pickedSHAs (cs : list Call) : list string :=
  omap (fun c => match c with CallCherryPick sha => Some sha | _ => None end) cs.

(** The cursors of the records handed to [SaveState], in call order. *)
Definition savedCursors (cs : list Call) : list Z :=
  omap (fun c => match c with
                 | CallSaveState s => Some (CurrentCommitIdx s)
                 | _ => None
                 end) cs.

(** The entries the loop replays: those whose action is not "drop". *)
Definition notDrop (c : CommitInfo) : bool :=
  negb (String.eqb (Action c) "drop").

(** Predicates on strings. *)
Fixpoint allChars (p : ascii -> bool) (s : string) : bool :=
  match s with
  | EmptyString => true
  | String c r => p c && allChars p r
  end.

(** No white space character anywhere. *)
Fixpoint noSpace (s : string) : bool :=
  match s with
  | EmptyString => true
  | String _ r =>
      match stripSpace s with
      | Some _ => false
      | None => noSpace r
      end
  end.

(** No line break anywhere. *)
Definition singleLine (s : string) : bool :=
  allChars (fun c => negb (Ascii.eqb c newline)) s.

(** The text before the first line break. *)
Definition firstLine (s : string) : string :=
  match splitLines s with
  | l :: _ => l
  | [] => EmptyString
  end.

(** Lines the parser passes over. *)
Definition skipped (raw : string) : bool :=
  isEmpty (TrimSpace raw) || HasPrefix (TrimSpace raw) "#".

(** The entry as the parser returns it for a "pick" line. *)
Definition asPick (c : CommitInfo) : CommitInfo :=
  {| SHA := SHA c; Message := Message c; Action := "pick" |}.

(** ** The commit graph *)

(** [Reachable objs h a]: [a] is [h] or one of its ancestors, that is, the
    history of [h] traces back through [a]. *)
Inductive Reachable (objs : gmap string CommitObject) : string -> string -> Prop :=
  | Reachable_self h c :
      objs !! h = Some c -> Reachable objs h h
  | Reachable_parent h c p a :
      objs !! h = Some c -> In p (Parents c) -> Reachable objs p a ->
      Reachable objs h a.

(** What is assumed of the history walk from [h]: it yields commits of the
    object store, each once, and exactly those reachable from [h]. *)
Definition FaithfulWalk (env : Env) (objs : gmap string CommitObject)
    (h : string) : Prop :=
  (forall a c, In (a, c) (history env objs h) -> objs !! a = Some c)
  /\ (forall a, In a (map fst (history env objs h)) <-> Reachable objs h a)
  /\ List.NoDup (map fst (history env objs h)).

(** Whether the walk from [baseHash] yields [a]. *)
Definition inHistory (env : Env) (objs : gmap string CommitObject)
    (baseHash a : string) : bool :=
  existsb (String.eqb a) (map fst (history env objs baseHash)).

(** ** Assertions on commands *)

(** [triple P m Q E]: run from a repository satisfying [P], the command
    [m] ends in a repository satisfying [Q a] when it returns [a], and [E]
    when it fails or panics. *)
Definition triple {A} (P : Repo -> Prop) (m : M A)
    (Q : A -> Repo -> Prop) (E : Repo -> Prop) : Prop :=
  forall r, P r ->
    match m r with
    | (Ok a, r') => Q a r'
    | (_, r') => E r'
    end.

(** A command that leaves the branches and [HEAD] alone. *)
Definition keepsBranches {A} (m : M A) : Prop :=
  forall r, refs (snd (m r)) = refs r /\ head (snd (m r)) = head r.

(** The reference of branch [b] is [v] ([None]: there is no such branch). *)
Definition pointsAt (b : string) (v : option string) (r : Repo) : Prop :=
  refs r !! b = v.

(** The reference of branch [b] is [v], and [b] is not checked out. *)
Definition offBranch (b : string) (v : option string) (r : Repo) : Prop :=
  refs r !! b = v /\ head r <> OnBranch b.

(** ** Edited listings *)

(** A line of the listing as an edit may leave it: some action word in
    front of the abbreviation and the message. *)
Definition editedLine (action : string) (c : CommitInfo) : string :=
  action ++ " " ++ shortSHA (SHA c) ++ " " ++ Message c.

(** The bytes of a listing whose commit lines are the given ones. *)
Definition editedContent (picks : list (string * CommitInfo)) : string :=
  Join (listingHeader ++ map (fun ac => editedLine (fst ac) (snd ac)) picks)
       (String newline EmptyString)
  ++ String newline EmptyString.

(** The action the parser stores for a recognised action word. *)
Definition normalized (action : string) : string :=
  match normalizeAction action with
  | Some a => a
  | None => action
  end.

Definition withAction (action : string) (c : CommitInfo) : CommitInfo :=
  {| SHA := SHA c; Message := Message c; Action := action |}.

(** ** What a command leaves alone *)

(** [preserves f m]: however [m] ends, the observation [f] of the
    repository is after it what it was before. *)
Definition preserves {A B} (f : Repo -> B) (m : M A) : Prop :=
  forall r, f (snd (m r)) = f r.

(** The branches, [HEAD], the state of the work tree and the record. *)
Definition workState (r : Repo)
  : gmap string string * HeadRef * bool * StateFile :=
  (refs r, head r, dirty r, stateFile r).

(** The same without the record. *)
Definition treeState (r : Repo) : gmap string string * HeadRef * bool :=
  (refs r, head r, dirty r).

(** Branch [b] is checked out, has a commit, and the work tree is clean. *)
Definition cleanOn (b : string) (r : Repo) : Prop :=
  head r = OnBranch b /\ is_Some (refs r !! b) /\ dirty r = false.

(** The errors with which [startRebranch] returns between its validator
    and the creation of the temp branch. *)
Definition beforeBranching (e : Error) : bool :=
  match e with
  | NoCommitsToRebranch
  | CreatePickFileFailed _
  | LaunchEditorFailed _
  | ParsePickFileFailed _ => true
  | _ => false
  end.

(** ** Locating the repository ([store.go]) *)

(** A cleaned absolute path, as [os.Getwd] returns it: the names below the
    root, outermost first; the empty list is the root. *)
Definition Path : Type := list string.

(** [filepath.Join(dir, name)] *)
Definition joinPath (dir : Path) (name : string) : Path := (dir ++ [name])%list.

(** [filepath.Dir(dir)]: the root is its own parent. *)
Definition parentDir (dir : Path) : Path := removelast dir.

(** What [os.Stat] returns: the information on the file, the error
    [os.IsNotExist] recognises, or another error. *)
Inductive StatResult := StatOk | StatNotExist | StatError.

Inductive LocateError :=
  | GetwdFailed
  | GitDirNotFound
  | FindGitDirFailed (cause : LocateError)
  | NotAGitRepository (repoPath : Path).

Definition StateFileName : string := "REBRANCH_STATE".
Definition PickFileName : string := "REBRANCH_PICK".

(** The loop of [findGitDir]; [fuel] bounds the iterations, one per
    directory from [currentDir] up to the root. *)
Fixpoint findGitDirLoop (stat : Path -> StatResult) (fuel : nat)
    (currentDir : Path) : option Path :=
  let gitDir := joinPath currentDir ".git" in
  match stat gitDir with
  | StatOk => Some gitDir
  | _ =>
      let parent := parentDir currentDir in
      if decide (parent = currentDir) then None   (* reached the root *)
      else
        match fuel with
        | O => None
        | S fuel => findGitDirLoop stat fuel parent
        end
  end.

(** [findGitDir]: [cwd] is what [os.Getwd] returns, [None] for its
    error. *)
Definition findGitDir (stat : Path -> StatResult) (cwd : option Path)
  : LocateError + Path :=
  match cwd with
  | None => inl GetwdFailed
  | Some currentDir =>
      match findGitDirLoop stat (length currentDir) currentDir with
      | Some gitDir => inr gitDir
      | None => inl GitDirNotFound
      end
  end.

(** [NewFileStore]: the path of the state file. *)
Definition NewFileStore (stat : Path -> StatResult) (cwd : option Path)
  : LocateError + Path :=
  match findGitDir stat cwd with
  | inl e => inl (FindGitDirFailed e)
  | inr gitDir => inr (joinPath gitDir StateFileName)
  end.

(** [NewFileStoreInPath]: only the error [os.IsNotExist] recognises
    rejects the path. *)
Definition NewFileStoreInPath (stat : Path -> StatResult) (repoPath : Path)
  : LocateError + Path :=
  let gitDir := joinPath repoPath ".git" in
  match stat gitDir with
  | StatNotExist => inl (NotAGitRepository repoPath)
  | _ => inr (joinPath gitDir StateFileName)
  end.

(** [GetPickFilePath] *)
Definition GetPickFilePath (repoPath : Path) : Path :=
  joinPath (joinPath repoPath ".git") PickFileName.

(** * Part II: properties *)

(** ** Unfolding commands *)

Ltac unfold_m :=
  unfold bind, ret, fail, panic, gets, wrapErr, try, external, print in *.

Lemma bind_ok {A B} (m : M A) (f : A -> M B) r a r' :
  m r = (Ok a, r') -> bind m f r = f a r'.
Proof. intros H. unfold bind. now rewrite H. Qed.

(** ** The store *)

(** C10: clearing the record when no record file exists succeeds and
    leaves the repository, the store included, exactly as it was, whatever
    the environment would have done to a removal. *)
Theorem ClearState_without_record (env : Env) (r : Repo) :
  StateExists r = false -> ClearState env r = (Ok tt, r).
Proof.
  intros Habsent. unfold ClearState. unfold_m. now rewrite Habsent.
Qed.

Lemma ClearState_without_record_witness :
  StateExists exampleRepo = false
  /\ ClearState exampleEnv exampleRepo = (Ok tt, exampleRepo).
Proof.
  split; [reflexivity | apply ClearState_without_record; reflexivity].
Defined.

(** A successful clear leaves no record behind, so clearing again is the
    case above. *)
Lemma ClearState_ok_absent (env : Env) (r r' : Repo) :
  ClearState env r = (Ok tt, r') -> StateExists r' = false.
Proof.
  unfold ClearState. unfold_m.
  destruct (StateExists r) eqn:E; cbn.
  - destruct (fault env r CallRemoveState); cbn; intros [= <-]. reflexivity.
  - intros [= <-]. exact E.
Qed.

(** ** The validators *)

Lemma IsValidRepository_eq (r : Repo) :
  IsValidRepository r =
  (match resolveHead r with
   | Some _ => Ok tt
   | None => Fail HeadUnresolved
   end, r).
Proof. unfold IsValidRepository. now destruct (resolveHead r). Qed.

(** What [validateAbort] requires: a resolvable [HEAD] and a record file. *)
Lemma validateAbort_eq (env : Env) (r : Repo) :
  validateAbort env r =
  (match resolveHead r with
   | None => Fail (InvalidRepository HeadUnresolved)
   | Some _ => if StateExists r then Ok tt else Fail NoOperationInProgress
   end, r).
Proof.
  unfold validateAbort. unfold_m. rewrite IsValidRepository_eq.
  destruct (resolveHead r); [|reflexivity].
  now destruct (StateExists r).
Qed.

(** No validator changes the repository. *)

Lemma readOnly_ret {A} (a : A) : readOnly (ret a).
Proof. now intros r. Qed.

Lemma readOnly_fail {A} (e : Error) : readOnly (@fail A e).
Proof. now intros r. Qed.

Lemma readOnly_gets {A} (f : Repo -> A) : readOnly (gets f).
Proof. now intros r. Qed.

Lemma readOnly_bind {A B} (m : M A) (f : A -> M B) :
  readOnly m -> (forall a, readOnly (f a)) -> readOnly (bind m f).
Proof.
  intros Hm Hf r. unfold bind. specialize (Hm r).
  destruct (m r) as [[a|e|] r1]; cbn in *; subst; auto. apply Hf.
Qed.

Lemma readOnly_wrapErr {A} (wrap : Error -> Error) (m : M A) :
  readOnly m -> readOnly (wrapErr wrap m).
Proof.
  intros Hm r. unfold wrapErr. specialize (Hm r).
  now destruct (m r) as [[a|e|] r1].
Qed.

Lemma readOnly_IsValidRepository : readOnly IsValidRepository.
Proof. intros r. now rewrite IsValidRepository_eq. Qed.

Lemma readOnly_GetCurrentBranch : readOnly GetCurrentBranch.
Proof.
  intros r. unfold GetCurrentBranch.
  destruct (resolveHead r); [|reflexivity]. now destruct (head r).
Qed.

Lemma readOnly_LoadState (env : Env) : readOnly (LoadState env).
Proof.
  intros r. unfold LoadState.
  destruct (fault env r CallReadState); [reflexivity|].
  now destruct (stateFile r).
Qed.

Lemma readOnly_IsCleanWorkingDirectory (env : Env) :
  readOnly (IsCleanWorkingDirectory env).
Proof.
  apply readOnly_bind; [|intros; apply readOnly_ret].
  intros r. unfold HasUncommittedChanges. now destruct (fault env r CallStatus).
Qed.

Lemma readOnly_GetCommitsBetween (env : Env) (base hd : string) :
  readOnly (GetCommitsBetween env base hd).
Proof.
  intros r. unfold GetCommitsBetween.
  repeat (match goal with
          | |- context [match ?x with _ => _ end] => destruct x
          end; try reflexivity).
Qed.

Create HintDb readonly.
#[local] Hint Resolve readOnly_ret readOnly_fail readOnly_gets
  readOnly_wrapErr readOnly_IsValidRepository readOnly_GetCurrentBranch
  readOnly_LoadState readOnly_IsCleanWorkingDirectory
  readOnly_GetCommitsBetween : readonly.

Ltac read_only :=
  repeat first
    [ apply readOnly_bind; [solve [auto with readonly] | intros ?]
    | match goal with
      | |- readOnly (if ?b then _ else _) => destruct b
      end
    | solve [auto with readonly] ].

Lemma validateStart_frame (env : Env) (base : string) : 
  readOnly (validateStart env base).
Proof. unfold validateStart. read_only. Qed.

Lemma validateContinue_frame (env : Env) : readOnly (validateContinue env).
Proof. unfold validateContinue. read_only. Qed.

Lemma validateFinish_frame (env : Env) : readOnly (validateFinish env).
Proof. unfold validateFinish. read_only. Qed.

Lemma validateAbort_frame (env : Env) : readOnly (validateAbort env).
Proof. unfold validateAbort. read_only. Qed.

(** ** Start against an existing record *)

(** C9, as the code has it: when a record exists, start fails and leaves
    the repository untouched: no call is issued, nothing is printed, no
    branch and no file changes.  The error is "already in progress" when
    [HEAD] resolves; the validity check comes first and reports an invalid
    repository otherwise. *)
Theorem start_with_record (env : Env) (baseBranch : string) (r : Repo) :
  StateExists r = true ->
  startRebranch env baseBranch r =
  (Fail (match resolveHead r with
         | Some _ => AlreadyInProgress
         | None => InvalidRepository HeadUnresolved
         end), r).
Proof.
  intros Hrecord. unfold startRebranch, validateStart. unfold_m.
  rewrite IsValidRepository_eq.
  destruct (resolveHead r); [|reflexivity].
  now rewrite Hrecord.
Qed.

Lemma start_with_record_witness :
  StateExists (midRepo 0 "picking") = true
  /\ startRebranch exampleEnv "main" (midRepo 0 "picking")
     = (Fail AlreadyInProgress, midRepo 0 "picking").
Proof.
  split; [reflexivity|].
  exact (start_with_record exampleEnv "main" (midRepo 0 "picking") eq_refl).
Defined.

(** C9, as stated, fails where a record exists but [HEAD] does not
    resolve: the error is the invalid repository, not "already in
    progress". *)
Lemma start_with_record_unborn_head :
  StateExists unbornRepo = true
  /\ startRebranch exampleEnv "main" unbornRepo
     = (Fail (InvalidRepository HeadUnresolved), unbornRepo)
  /\ fst (startRebranch exampleEnv "main" unbornRepo) <> Fail AlreadyInProgress.
Proof.
  split; [reflexivity|]. split; [reflexivity|]. discriminate.
Qed.

(** ** Abort *)

Lemma LoadState_stored (env : Env) (r : Repo) (st : RebranchState) :
  fault env r CallReadState = false -> stateFile r = Stored st ->
  LoadState env r = (Ok st, r).
Proof. intros Hf Hs. unfold LoadState. now rewrite Hf, Hs. Qed.

(** What abort does where it can run: the abort validator asks for a
    resolvable [HEAD] and for the record file, and for nothing about the
    stage.  From
    any stage, once the validator passes, the index holds no unmerged
    entries (git refuses the checkout otherwise), and the record can be
    read, the source branch checked out and the record file removed, abort
    succeeds: the source branch is current and points where it did, and
    the record is gone.  Of the temp branch there are two outcomes, and
    nothing else is printed or changed in the branches: either it has been
    deleted, or the deletion has failed, the warning and only then the
    closing line have been printed, and the branches are as they were.
    The deletion is the outcome whenever the temp branch exists under a
    name other than the source's and the call does not fail. *)
Theorem abort_from_any_stage (env : Env) (r : Repo) (st : RebranchState) :
  is_Some (resolveHead r) ->
  stateFile r = Stored st ->
  BranchExists (SourceBranch st) r = true ->
  unmerged r = false ->
  (forall r' c,
      In c [CallReadState; CallCheckout (SourceBranch st); CallRemoveState] ->
      fault env r' c = false) ->
  (forall r0, fst (validateAbort env r0) = Ok tt
              <-> is_Some (resolveHead r0) /\ StateExists r0 = true)
  /\ exists r',
      abortRebranch env r = (Ok tt, r')
      /\ head r' = OnBranch (SourceBranch st)
      /\ refs r' !! SourceBranch st = refs r !! SourceBranch st
      /\ stateFile r' = NoFile
      /\ ((refs r' = delete (TempBranch st) (refs r)
           /\ stdout r' = (stdout r ++ [OutAborted])%list)
          \/ (refs r' = refs r
              /\ stdout r'
                 = (stdout r
                    ++ [OutWarnDeleteTemp (TempBranch st)
                          (DeleteBranchFailed (TempBranch st));
                        OutAborted])%list))
      /\ (BranchExists (TempBranch st) r = true ->
          TempBranch st <> SourceBranch st ->
          (forall r1, fault env r1 (CallDeleteBranch (TempBranch st)) = false) ->
          refs r' !! TempBranch st = None
          /\ refs r' = delete (TempBranch st) (refs r)
          /\ stdout r' = (stdout r ++ [OutAborted])%list).
Proof.
  intros Hhead Hrec Hsrc Hunm Hfault. split.
  { intros r0. rewrite validateAbort_eq. cbn.
    destruct (resolveHead r0) as [h|].
    - destruct (StateExists r0); split; intros H; try discriminate; auto.
      now destruct H.
    - split; [discriminate|]. intros [[? H] _]. discriminate. }
  assert (Hread : forall r', fault env r' CallReadState = false)
    by (intros; apply Hfault; cbn; auto).
  assert (Hco : forall r', fault env r' (CallCheckout (SourceBranch st)) = false)
    by (intros; apply Hfault; cbn; auto).
  assert (Hrm : forall r', fault env r' CallRemoveState = false)
    by (intros; apply Hfault; cbn; auto).
  unfold abortRebranch.
  rewrite (bind_ok _ _ r tt r).
  2:{ rewrite validateAbort_eq. destruct Hhead as [h ->].
      unfold StateExists. now rewrite Hrec. }
  rewrite (bind_ok _ _ r st r) by (apply LoadState_stored; auto).
  unfold CheckoutBranch, DeleteBranch, ClearState. unfold_m.
  rewrite Hco, Hsrc, Hunm. cbn.
  match goal with
  | |- context [fault env ?r1 (CallDeleteBranch ?t) || ?c] =>
      destruct (fault env r1 (CallDeleteBranch t) || c) eqn:Hdel
  end; cbn; unfold StateExists; cbn; rewrite Hrec; cbn; rewrite Hrm; cbn.
  - eexists. split; [reflexivity|]. cbn.
    do 3 (split; [reflexivity|]). split.
    + right. split; [reflexivity|]. now rewrite <- app_assoc.
    + intros Hex Hne Hdelete. exfalso. rewrite Hdelete in Hdel.
      unfold BranchExists in Hex, Hdel. cbn in Hdel. rewrite Hex in Hdel.
      rewrite bool_decide_eq_false_2 in Hdel by congruence.
      discriminate.
  - eexists. split; [reflexivity|]. cbn.
    apply orb_false_elim in Hdel as [_ Hok].
    apply negb_false_iff, andb_true_iff in Hok as [_ Hcur]. cbn in Hcur.
    apply negb_true_iff, bool_decide_eq_false in Hcur.
    assert (Hne : TempBranch st <> SourceBranch st) by congruence.
    split; [reflexivity|]. split; [now rewrite lookup_delete_ne|].
    split; [reflexivity|]. split; [now left|].
    intros _ _ _. split; [apply lookup_delete_eq|]. now split.
Qed.

Lemma abort_from_any_stage_witness :
  exists r',
    abortRebranch exampleEnv (midRepo 0 "conflicts") = (Ok tt, r')
    /\ head r' = OnBranch "feature"
    /\ stateFile r' = NoFile
    /\ refs r' !! "rebranch-temp-100" = None
    /\ stdout r' = [OutAborted].
Proof.
  destruct (abort_from_any_stage exampleEnv (midRepo 0 "conflicts")
              (exampleState 0 "conflicts"))
    as [_ (r' & Hrun & Hhead & _ & Hfile & _ & Hgone)].
  - exists "b1111111". reflexivity.
  - reflexivity.
  - reflexivity.
  - reflexivity.
  - reflexivity.
  - destruct Hgone as (Htemp & _ & Hout);
      [reflexivity|discriminate|reflexivity|].
    exists r'. repeat split; auto.
Defined.

(** The validator's other demand: where the record exists but [HEAD] does
    not resolve, the abort validator rejects the repository, and abort
    returns its error with the record and the temp branch still in
    place. *)
Lemma abort_with_record_unborn_head :
  StateExists unbornRepo = true
  /\ validateAbort exampleEnv unbornRepo
     = (Fail (InvalidRepository HeadUnresolved), unbornRepo)
  /\ abortRebranch exampleEnv unbornRepo
     = (Fail (InvalidRepository HeadUnresolved), unbornRepo).
Proof. repeat split. Qed.

(** Right after a conflict the index holds unmerged entries, and abort
    cannot leave the temp branch: git refuses the checkout, abort returns
    that error, and the temp branch, [HEAD] and the record stay. *)
Lemma abort_refused_on_unmerged_index (env : Env) (r : Repo)
    (st : RebranchState) :
  is_Some (resolveHead r) ->
  stateFile r = Stored st ->
  fault env r CallReadState = false ->
  unmerged r = true ->
  abortRebranch env r
  = (Fail (CheckoutFailed (SourceBranch st)),
     logCall (CallCheckout (SourceBranch st)) r).
Proof.
  intros Hhead Hrec Hread Hunm. unfold abortRebranch.
  rewrite (bind_ok _ _ r tt r).
  2:{ rewrite validateAbort_eq. destruct Hhead as [h ->].
      unfold StateExists. now rewrite Hrec. }
  rewrite (bind_ok _ _ r st r) by (apply LoadState_stored; auto).
  unfold CheckoutBranch. unfold_m. rewrite Hunm.
  now rewrite andb_false_r, orb_true_r.
Qed.

(** The same on the repository the loop itself leaves when the first
    cherry-pick conflicts. *)
Lemma abort_right_after_conflict :
  let r := snd (ApplyCherryPicks conflictEnv (exampleState 0 "picking")
                  (midRepo 0 "picking")) in
  stateFile r = Stored (exampleState 0 "conflicts")
  /\ fst (abortRebranch conflictEnv r) = Fail (CheckoutFailed "feature")
  /\ head (snd (abortRebranch conflictEnv r)) = OnBranch "rebranch-temp-100"
  /\ refs (snd (abortRebranch conflictEnv r)) !! "rebranch-temp-100"
     = Some "b1111111"
  /\ stateFile (snd (abortRebranch conflictEnv r))
     = Stored (exampleState 0 "conflicts").
Proof. vm_compute. repeat split. Qed.

(** C3 at a failing input: abort right after a conflict.  Start from the
    clean example repository; the first cherry-pick conflicts, start
    returns the conflict error and leaves the record at stage "conflicts",
    the temp branch checked out and the index unmerged.  The abort
    validator passes on that repository, but git refuses to check the
    source branch out, so abort returns that error: the temp branch is
    still there and still checked out, and the record is still on disk. *)
Theorem abort_after_conflict_fails :
  fst (startRebranch conflictEnv "main" exampleRepo)
  = Fail (ConflictDetected "f111111")
  /\ stateFile conflictedRepo = Stored (exampleState 0 "conflicts")
  /\ head conflictedRepo = OnBranch "rebranch-temp-100"
  /\ unmerged conflictedRepo = true
  /\ fst (validateAbort conflictEnv conflictedRepo) = Ok tt
  /\ fst (abortRebranch conflictEnv conflictedRepo)
     = Fail (CheckoutFailed "feature")
  /\ head (snd (abortRebranch conflictEnv conflictedRepo))
     = OnBranch "rebranch-temp-100"
  /\ refs (snd (abortRebranch conflictEnv conflictedRepo))
       !! "rebranch-temp-100" = Some "b1111111"
  /\ stateFile (snd (abortRebranch conflictEnv conflictedRepo))
     = Stored (exampleState 0 "conflicts").
Proof. vm_compute. repeat split. Qed.

(** ** Continue *)

Lemma validate_ok {A} (m : M A) (r : Repo) (a : A) :
  readOnly m -> fst (m r) = Ok a -> m r = (Ok a, r).
Proof.
  intros Hm Hok. specialize (Hm r). destruct (m r) as [o r']. cbn in *.
  now subst.
Qed.

(** What a passing continue-validator has checked. *)
Lemma validateContinue_ok (env : Env) (r : Repo) :
  fst (validateContinue env r) = Ok tt ->
  is_Some (resolveHead r)
  /\ fault env r CallReadState = false
  /\ (exists st, stateFile r = Stored st /\ Stage st = "conflicts")
  /\ dirty r = false.
Proof.
  unfold validateContinue, IsCleanWorkingDirectory, HasUncommittedChanges,
    LoadState.
  unfold_m. rewrite IsValidRepository_eq.
  destruct (resolveHead r) as [h|]; cbn; [|discriminate].
  unfold StateExists.
  destruct (stateFile r) as [| |st] eqn:Hfile; cbn; try discriminate;
    destruct (fault env r CallReadState) eqn:Hread; cbn;
    rewrite ?Hfile; cbn; try discriminate.
  destruct (String.eqb (Stage st) "conflicts") eqn:Hstage; cbn;
    [|discriminate].
  destruct (fault env r CallStatus); cbn; [discriminate|].
  destruct (dirty r); cbn; [discriminate|].
  intros _. apply String.eqb_eq in Hstage. eauto 10.
Qed.

(** Past its validator, continue is the apply loop on the stored record
    with the cursor incremented and the stage reset. *)
Lemma continueRebranch_run (env : Env) (r : Repo) (st : RebranchState) :
  stateFile r = Stored st ->
  fst (validateContinue env r) = Ok tt ->
  continueRebranch env r =
  ApplyCherryPicks env
    (withStage "picking" (withCursor (incrInt (CurrentCommitIdx st)) st)) r.
Proof.
  intros Hrec Hvalid. unfold continueRebranch.
  rewrite (bind_ok _ _ r tt r)
    by (apply validate_ok; auto using validateContinue_frame).
  apply validateContinue_ok in Hvalid as (_ & Hread & _ & _).
  now rewrite (bind_ok _ _ r st r) by (apply LoadState_stored; auto).
Qed.

Lemma incrInt_below_max (i : Z) : i < 2^63 - 1 -> incrInt i = i + 1.
Proof.
  intros Hmax. unfold incrInt.
  destruct (Z.eqb_spec i (2^63 - 1)); [lia|reflexivity].
Qed.

(** C7: for a record whose stage is conflicted and whose continue-validator
    passes, continue is the apply loop run on the record with the cursor
    advanced by exactly one and the stage set to picking.  Nothing but the
    validator is consulted first: the statement holds for every
    repository, whatever its history holds for the failed entry. *)
Theorem continue_increments_cursor (env : Env) (r : Repo) (st : RebranchState) :
  stateFile r = Stored st ->
  Stage st = "conflicts" ->
  fst (validateContinue env r) = Ok tt ->
  CurrentCommitIdx st < 2^63 - 1 ->
  let resumed := withStage "picking"
                   (withCursor (CurrentCommitIdx st + 1) st) in
  continueRebranch env r = ApplyCherryPicks env resumed r
  /\ CurrentCommitIdx resumed = CurrentCommitIdx st + 1
  /\ Stage resumed = "picking"
  /\ CommitsToApply resumed = CommitsToApply st.
Proof.
  intros Hrec _ Hvalid Hmax resumed. repeat split.
  rewrite (continueRebranch_run env r st Hrec Hvalid).
  now rewrite incrInt_below_max.
Qed.

Lemma continue_increments_cursor_witness :
  continueRebranch exampleEnv (midRepo 0 "conflicts")
  = ApplyCherryPicks exampleEnv (exampleState 1 "picking")
      (midRepo 0 "conflicts").
Proof.
  apply (continue_increments_cursor exampleEnv (midRepo 0 "conflicts")
           (exampleState 0 "conflicts"));
    [reflexivity | reflexivity | reflexivity | vm_compute; reflexivity].
Defined.

(** ** The apply loop *)

(** One iteration, spelled out. *)
Lemma applyLoop_cons (env : Env) commit rest i st r :
  applyLoop env (commit :: rest) i st r =
  if String.eqb (Action commit) "drop" then applyLoop env rest (i + 1) st r
  else
    match CherryPick env (SHA commit) r with
    | (Ok _, r1) =>
        bind (SaveState env (withCursor i st))
             (fun _ => applyLoop env rest (i + 1) (withCursor i st)) r1
    | (Fail _, r1) =>
        bind (wrapErr ConflictSaveFailed
                (SaveState env (withStage "conflicts" (withCursor i st))))
             (fun _ => bind (sliceSHA (SHA commit))
                         (fun short => fail (ConflictDetected short))) r1
    | (Panic, r1) => (Panic, r1)
    end.
Proof.
  cbn [applyLoop]. destruct (String.eqb (Action commit) "drop"); [reflexivity|].
  unfold bind at 1. unfold try.
  now destruct (CherryPick env (SHA commit) r) as [[[]|e|] r1].
Qed.

(** The loop over a concatenation is the loop over the first part followed
    by the loop over the second. *)
Lemma bind_unfold {A B} (m : M A) (f : A -> M B) r :
  bind m f r =
  match m r with
  | (Ok a, r') => f a r'
  | (Fail e, r') => (Fail e, r')
  | (Panic, r') => (Panic, r')
  end.
Proof. reflexivity. Qed.

Lemma applyLoop_app (env : Env) l1 l2 : forall i st r,
  applyLoop env (l1 ++ l2) i st r =
  bind (applyLoop env l1 i st)
       (fun st' => applyLoop env l2 (i + Z.of_nat (length l1)) st') r.
Proof.
  induction l1 as [|commit l1 IH]; intros i st r.
  - cbn. unfold bind, ret. now rewrite Z.add_0_r.
  - change ((commit :: l1) ++ l2)%list with (commit :: (l1 ++ l2))%list.
    rewrite (bind_unfold (applyLoop env (commit :: l1) i st)).
    rewrite !applyLoop_cons.
    assert (Hlen : i + Z.of_nat (length (commit :: l1))
                   = i + 1 + Z.of_nat (length l1)) by (cbn [length]; lia).
    rewrite Hlen.
    destruct (String.eqb (Action commit) "drop").
    + rewrite IH. reflexivity.
    + destruct (CherryPick env (SHA commit) r) as [[[]|e|] r1].
      * rewrite !bind_unfold.
        destruct (SaveState env (withCursor i st) r1) as [[[]|e|] r2];
          [|reflexivity|reflexivity].
        rewrite IH. reflexivity.
      * rewrite !bind_unfold. unfold wrapErr.
        destruct (SaveState env _ r1) as [[[]|e'|] r2]; try reflexivity.
        rewrite !bind_unfold.
        now destruct (sliceSHA (SHA commit) r2) as [[short|e'|] r3].
      * reflexivity.
Qed.

(** The loop changes nothing of the record but the cursor, which it sets
    to an index it has visited. *)
Lemma applyLoop_state (env : Env) pending : forall i st r st' r',
  applyLoop env pending i st r = (Ok st', r') ->
  st' = st
  \/ exists j, i <= j < i + Z.of_nat (length pending) /\ st' = withCursor j st.
Proof.
  induction pending as [|commit rest IH]; intros i st r st' r' Hrun.
  - left. cbn in Hrun. unfold ret in Hrun. congruence.
  - rewrite applyLoop_cons in Hrun. cbn [length].
    destruct (String.eqb (Action commit) "drop").
    + apply IH in Hrun as [->|(j & Hj & ->)]; [now left|].
      right. exists j. split; [lia|reflexivity].
    + destruct (CherryPick env (SHA commit) r) as [[[]|e|] r1].
      * unfold bind in Hrun.
        destruct (SaveState env (withCursor i st) r1) as [[[]|e|] r2];
          try discriminate.
        right. apply IH in Hrun as [->|(j & Hj & ->)].
        -- exists i. split; [lia|reflexivity].
        -- exists j. split; [lia|reflexivity].
      * unfold bind, wrapErr, fail in Hrun.
        destruct (SaveState env _ r1) as [[[]|e'|] r2]; try discriminate.
        destruct (sliceSHA (SHA commit) r2) as [[short|e'|] r3]; discriminate.
      * discriminate.
Qed.

(** Where the loop stands when it has worked through the [k] entries that
    follow the cursor. *)
Lemma applyLoop_reach (env : Env) (st : RebranchState) (r : Repo)
    (k : nat) (commit : CommitInfo) (st_k : RebranchState) (r_k : Repo) :
  let c := Z.to_nat (CurrentCommitIdx st) in
  CommitsToApply st !! (c + k)%nat = Some commit ->
  applyLoop env (take k (drop c (CommitsToApply st)))
    (CurrentCommitIdx st) st r = (Ok st_k, r_k) ->
  applyLoop env (drop c (CommitsToApply st)) (CurrentCommitIdx st) st r
  = applyLoop env (commit :: drop (S k) (drop c (CommitsToApply st)))
      (CurrentCommitIdx st + Z.of_nat k) st_k r_k
  /\ forall i, withCursor i st_k = withCursor i st.
Proof.
  intros c Hentry Hreach.
  assert (Hk : drop c (CommitsToApply st) !! k = Some commit)
    by now rewrite lookup_drop.
  split.
  - rewrite <- (take_drop_middle _ _ _ Hk) at 1.
    rewrite applyLoop_app, (bind_ok _ _ _ _ _ Hreach).
    rewrite length_take_le; [reflexivity|].
    apply lookup_lt_Some in Hk. lia.
  - intros i. apply applyLoop_state in Hreach as [->|(j & _ & ->)];
      reflexivity.
Qed.

(** C2: when the loop, having worked through the entries before index
    [i], meets an entry to apply whose cherry-pick fails, it sets the
    cursor to [i] and the stage to conflicts and saves the record; only
    when that save has succeeded does it return the conflict error, which
    names the failing commit by the first seven bytes of its identifier.
    When the save fails the error is the save failure instead.  The record
    saved is conflicted, and its cursor is the index of the entry whose
    application failed. *)
Theorem conflict_sets_cursor_and_persists (env : Env) (st : RebranchState)
    (r : Repo) (k : nat) (commit : CommitInfo) (st_k : RebranchState)
    (r_k r_fail : Repo) (e : Error) :
  0 <= CurrentCommitIdx st ->
  let c := Z.to_nat (CurrentCommitIdx st) in
  let i := CurrentCommitIdx st + Z.of_nat k in
  let conflicted := withStage "conflicts" (withCursor i st) in
  CommitsToApply st !! (c + k)%nat = Some commit ->
  Action commit <> "drop" ->
  applyLoop env (take k (drop c (CommitsToApply st)))
    (CurrentCommitIdx st) st r = (Ok st_k, r_k) ->
  CherryPick env (SHA commit) r_k = (Fail e, r_fail) ->
  (7 <= String.length (SHA commit))%nat ->
  ApplyCherryPicks env st r =
    (if fault env r_fail (CallSaveState conflicted)
     then (Fail (ConflictSaveFailed StateWriteFailed),
           logCall (CallSaveState conflicted) r_fail)
     else (Fail (ConflictDetected (String.substring 0 7 (SHA commit))),
           setStateFile (Stored conflicted)
             (logCall (CallSaveState conflicted) r_fail)))
  /\ Stage conflicted = "conflicts"
  /\ CurrentCommitIdx conflicted = i
  /\ CommitsToApply conflicted !! Z.to_nat i = Some commit.
Proof.
  intros Hcursor c i conflicted Hentry Hpick Hreach Hfail Hlen.
  repeat split.
  - unfold ApplyCherryPicks.
    destruct (Z.ltb_spec (CurrentCommitIdx st) 0); [lia|].
    rewrite bind_unfold.
    destruct (applyLoop_reach env st r k commit st_k r_k Hentry Hreach)
      as [-> Hsame].
    rewrite applyLoop_cons.
    destruct (String.eqb_spec (Action commit) "drop"); [contradiction|].
    rewrite Hfail, bind_unfold. unfold wrapErr, SaveState, external.
    fold i. rewrite Hsame. fold conflicted. cbn.
    destruct (fault env r_fail (CallSaveState conflicted)); cbn;
      [reflexivity|].
    unfold bind, sliceSHA, slicePrefix.
    destruct (Nat.leb_spec 7 (String.length (SHA commit))); [reflexivity|lia].
  - cbn. subst i c. rewrite Z2Nat.inj_add, Nat2Z.id by lia. exact Hentry.
Qed.

Lemma conflict_sets_cursor_and_persists_witness :
  exists r',
    ApplyCherryPicks conflictEnv (exampleState 0 "picking")
      (midRepo 0 "picking")
    = (Fail (ConflictDetected "f111111"), r')
    /\ stateFile r' = Stored (exampleState 0 "conflicts").
Proof.
  destruct (conflict_sets_cursor_and_persists conflictEnv
              (exampleState 0 "picking") (midRepo 0 "picking") 0%nat
              (mkCommitInfo "f1111111" "Feature one" "pick")
              (exampleState 0 "picking") (midRepo 0 "picking")
              (snd (CherryPick conflictEnv "f1111111" (midRepo 0 "picking")))
              (CherryPickConflict "f1111111"))
    as [Hrun _].
  - vm_compute. discriminate.
  - reflexivity.
  - discriminate.
  - reflexivity.
  - reflexivity.
  - vm_compute. lia.
  - eexists. split; [exact Hrun|reflexivity].
Defined.

(** ** What the loop calls *)

Lemma CherryPick_calls (env : Env) sha r :
  calls (snd (CherryPick env sha r)) = (calls r ++ [CallCherryPick sha])%list.
Proof.
  unfold CherryPick. destruct (fault env r (CallCherryPick sha)); [reflexivity|].
  destruct (resolveHead r); [|reflexivity].
  now destruct (pick env r sha).
Qed.

Lemma SaveState_calls (env : Env) s r :
  calls (snd (SaveState env s r)) = (calls r ++ [CallSaveState s])%list.
Proof.
  unfold SaveState, external.
  now destruct (fault env r (CallSaveState s) || negb true).
Qed.

Lemma pickedSHAs_app l1 l2 :
  pickedSHAs (l1 ++ l2) = (pickedSHAs l1 ++ pickedSHAs l2)%list.
Proof. apply omap_app. Qed.

Lemma savedCursors_app l1 l2 :
  savedCursors (l1 ++ l2) = (savedCursors l1 ++ savedCursors l2)%list.
Proof. apply omap_app. Qed.

(** The calls of a run of the loop: cherry-picks of entries to apply, in
    plan order and each at most once; saves whose cursors lie at or after
    the loop's starting index, never decrease, and do not exceed the cursor
    the loop ends with. *)
Lemma applyLoop_trace (env : Env) pending : forall i st r res r',
  CurrentCommitIdx st <= i ->
  applyLoop env pending i st r = (res, r') ->
  exists new,
    calls r' = (calls r ++ new)%list
    /\ pickedSHAs new `prefix_of` map SHA (List.filter notDrop pending)
    /\ Forall (fun z => i <= z) (savedCursors new)
    /\ StronglySorted Z.le (savedCursors new)
    /\ forall st', res = Ok st' ->
         CurrentCommitIdx st <= CurrentCommitIdx st'
         /\ Forall (fun z => z <= CurrentCommitIdx st') (savedCursors new).
Proof.
  induction pending as [|commit rest IH]; intros i st r res r' Hle Hrun.
  - cbn in Hrun. unfold ret in Hrun. injection Hrun as <- <-.
    exists []. rewrite app_nil_r.
    split; [reflexivity|]. split; [apply prefix_nil|].
    split; [constructor|]. split; [constructor|].
    intros st' [= <-]. split; [lia|constructor].
  - rewrite applyLoop_cons in Hrun. cbn [List.filter]. unfold notDrop at 1.
    destruct (String.eqb (Action commit) "drop"); cbn [negb].
    { destruct (IH (i + 1) st r res r' ltac:(lia) Hrun)
        as (new & Hcalls & Hpre & Hge & Hsorted & Hend).
      exists new. repeat (split; [assumption|]).
      split; [|split; assumption].
      eapply Forall_impl; [exact Hge|]. cbn. intros; lia. }
    pose proof (CherryPick_calls env (SHA commit) r) as Hpick.
    assert (Hstop : forall s res0 r2,
               calls r2 = ((calls r ++ [CallCherryPick (SHA commit)])
                             ++ [CallSaveState (withCursor i s)])%list ->
               (forall st', res0 <> Ok st') ->
               exists new,
                 calls r2 = (calls r ++ new)%list
                 /\ pickedSHAs new `prefix_of`
                      SHA commit :: map SHA (List.filter notDrop rest)
                 /\ Forall (fun z => i <= z) (savedCursors new)
                 /\ StronglySorted Z.le (savedCursors new)
                 /\ forall st', res0 = Ok st' ->
                      CurrentCommitIdx st <= CurrentCommitIdx st'
                      /\ Forall (fun z => z <= CurrentCommitIdx st')
                                (savedCursors new)).
    { intros s res0 r2 Hcalls Hres.
      exists [CallCherryPick (SHA commit); CallSaveState (withCursor i s)].
      rewrite Hcalls, <- app_assoc. cbn.
      split; [reflexivity|]. split; [apply prefix_cons, prefix_nil|].
      split; [repeat constructor; lia|]. split; [repeat constructor|].
      intros st' Hok. now destruct (Hres st'). }
    destruct (CherryPick env (SHA commit) r) as [[[]|e|] r1]; cbn in Hpick.
    + rewrite bind_unfold in Hrun.
      pose proof (SaveState_calls env (withCursor i st) r1) as Hsave.
      destruct (SaveState env (withCursor i st) r1) as [[[]|e|] r2];
        cbn in Hsave.
      * destruct (IH (i + 1) (withCursor i st) r2 res r' ltac:(cbn; lia) Hrun)
          as (new & Hcalls & Hpre & Hge & Hsorted & Hend).
        exists ([CallCherryPick (SHA commit); CallSaveState (withCursor i st)]
                ++ new)%list.
        rewrite Hcalls, Hsave, Hpick, <- !app_assoc. cbn.
        split; [reflexivity|]. split; [now apply prefix_cons|].
        assert (Hge' : Forall (fun z => i <= z) (savedCursors new))
          by (eapply Forall_impl; [exact Hge|]; cbn; intros; lia).
        split; [constructor; [lia|exact Hge']|].
        split; [constructor; [exact Hsorted|exact Hge']|].
        intros st' Hok. destruct (Hend st' Hok) as [Hc Hall]. cbn in Hc.
        split; [lia|]. constructor; [lia|exact Hall].
      * injection Hrun as <- <-.
        apply (Hstop st); [now rewrite Hsave, Hpick | discriminate].
      * injection Hrun as <- <-.
        apply (Hstop st); [now rewrite Hsave, Hpick | discriminate].
    + rewrite bind_unfold in Hrun. unfold wrapErr in Hrun.
      pose proof (SaveState_calls env
                    (withStage "conflicts" (withCursor i st)) r1) as Hsave.
      change (withStage "conflicts" (withCursor i st))
        with (withCursor i (withStage "conflicts" st)) in Hsave.
      destruct (SaveState env _ r1) as [[[]|e'|] r2]; cbn in Hsave.
      * unfold bind, sliceSHA, fail, panic, ret in Hrun.
        destruct (slicePrefix 7 (SHA commit)); injection Hrun as <- <-;
          (apply (Hstop (withStage "conflicts" st));
           [now rewrite Hsave, Hpick | discriminate]).
      * injection Hrun as <- <-.
        apply (Hstop (withStage "conflicts" st));
          [now rewrite Hsave, Hpick | discriminate].
      * injection Hrun as <- <-.
        apply (Hstop (withStage "conflicts" st));
          [now rewrite Hsave, Hpick | discriminate].
    + injection Hrun as <- <-. exists [CallCherryPick (SHA commit)].
      rewrite Hpick. cbn.
      split; [reflexivity|]. split; [apply prefix_cons, prefix_nil|].
      split; [constructor|]. split; [constructor|]. discriminate.
Qed.

Lemma StronglySorted_snoc (l : list Z) (x : Z) :
  StronglySorted Z.le l -> Forall (fun z => z <= x) l ->
  StronglySorted Z.le (l ++ [x]).
Proof.
  induction 1 as [|a l Hl IH Ha]; intros Hx; cbn.
  - repeat constructor.
  - inversion Hx; subst. constructor; [auto|].
    apply Forall_app. split; [exact Ha|]. repeat constructor. assumption.
Qed.

Lemma ApplyCherryPicks_trace (env : Env) (st : RebranchState) (r : Repo)
    res r' :
  0 <= CurrentCommitIdx st ->
  ApplyCherryPicks env st r = (res, r') ->
  exists new,
    calls r' = (calls r ++ new)%list
    /\ pickedSHAs new `prefix_of`
         map SHA (List.filter notDrop
                    (drop (Z.to_nat (CurrentCommitIdx st)) (CommitsToApply st)))
    /\ Forall (fun z => CurrentCommitIdx st <= z) (savedCursors new)
    /\ StronglySorted Z.le (savedCursors new).
Proof.
  intros Hcursor Hrun. unfold ApplyCherryPicks in Hrun.
  destruct (Z.ltb_spec (CurrentCommitIdx st) 0); [lia|].
  rewrite bind_unfold in Hrun.
  destruct (applyLoop env _ (CurrentCommitIdx st) st r) as [res0 r0] eqn:Hloop.
  destruct (applyLoop_trace env _ _ _ _ _ _ (Z.le_refl _) Hloop)
    as (new & Hcalls & Hpre & Hge & Hsorted & Hend).
  destruct res0 as [st'|e|].
  - destruct (Hend st' eq_refl) as [Hc Hall].
    apply (applyLoop_state env) in Hloop as Hst.
    unfold bind, print in Hrun.
    match type of Hrun with
    | SaveState env ?s ?r3 = _ =>
        pose proof (SaveState_calls env s r3) as Hsave; rewrite Hrun in Hsave
    end.
    cbn in Hsave.
    exists (new ++ [CallSaveState (withStage "done" st')])%list.
    rewrite Hsave, Hcalls, <- app_assoc.
    rewrite pickedSHAs_app, savedCursors_app. cbn. rewrite app_nil_r.
    split; [reflexivity|]. split; [exact Hpre|].
    split.
    + apply Forall_app. split; [exact Hge|]. repeat constructor. exact Hc.
    + now apply StronglySorted_snoc.
  - injection Hrun as <- <-. exists new. auto.
  - injection Hrun as <- <-. exists new. auto.
Qed.

(** C6, as the code has it.  Once the loop has applied the entry at index
    [i] and saved the record, the cursor on disk is [i], the entry just
    applied.  Whatever the loop is started on, it hands to cherry-pick only
    entries at or after its starting cursor, in plan order and each at most
    once, and the cursors it saves never decrease and never fall below
    that starting cursor.  Continue starts the loop one past the cursor on
    disk, so what it cherry-picks lies strictly after that cursor, and so
    do the cursors it saves. *)
Theorem cursor_marks_last_processed (env : Env) (st : RebranchState)
    (r : Repo) :
  0 <= CurrentCommitIdx st ->
  let c := Z.to_nat (CurrentCommitIdx st) in
  (forall (k : nat) commit st_k r_k r_ok,
      let i := CurrentCommitIdx st + Z.of_nat k in
      CommitsToApply st !! (c + k)%nat = Some commit ->
      Action commit <> "drop" ->
      applyLoop env (take k (drop c (CommitsToApply st)))
        (CurrentCommitIdx st) st r = (Ok st_k, r_k) ->
      CherryPick env (SHA commit) r_k = (Ok tt, r_ok) ->
      fault env r_ok (CallSaveState (withCursor i st)) = false ->
      exists r_saved,
        applyLoop env (take (S k) (drop c (CommitsToApply st)))
          (CurrentCommitIdx st) st r = (Ok (withCursor i st), r_saved)
        /\ stateFile r_saved = Stored (withCursor i st)
        /\ CurrentCommitIdx (withCursor i st) = i)
  /\ (forall res r',
        ApplyCherryPicks env st r = (res, r') ->
        exists new,
          calls r' = (calls r ++ new)%list
          /\ pickedSHAs new `prefix_of`
               map SHA (List.filter notDrop (drop c (CommitsToApply st)))
          /\ Forall (fun z => CurrentCommitIdx st <= z) (savedCursors new)
          /\ StronglySorted Z.le (savedCursors new))
  /\ (stateFile r = Stored st ->
      fst (validateContinue env r) = Ok tt ->
      CurrentCommitIdx st < 2^63 - 1 ->
      exists new,
        calls (snd (continueRebranch env r)) = (calls r ++ new)%list
        /\ pickedSHAs new `prefix_of`
             map SHA (List.filter notDrop (drop (S c) (CommitsToApply st)))
        /\ Forall (fun z => CurrentCommitIdx st < z) (savedCursors new)
        /\ StronglySorted Z.le (savedCursors new)).
Proof.
  intros Hcursor c. split; [|split].
  - intros k commit st_k r_k r_ok i Hentry Hpick Hreach Hok Hsave.
    assert (Hk : drop c (CommitsToApply st) !! k = Some commit)
      by now rewrite lookup_drop.
    assert (Hsame : withCursor i st_k = withCursor i st).
    { apply applyLoop_state in Hreach as [->|(j & _ & ->)]; reflexivity. }
    rewrite (take_S_r _ _ _ Hk), applyLoop_app.
    rewrite (bind_ok _ _ _ _ _ Hreach).
    rewrite length_take_le by (apply lookup_lt_Some in Hk; lia).
    fold i. rewrite applyLoop_cons.
    destruct (String.eqb_spec (Action commit) "drop"); [contradiction|].
    rewrite Hok, bind_unfold. unfold SaveState, external.
    rewrite Hsame, Hsave. cbn. unfold ret. eexists. split; [reflexivity|].
    split; reflexivity.
  - intros res r'. now apply ApplyCherryPicks_trace.
  - intros Hrec Hvalid Hmax.
    rewrite (continueRebranch_run env r st Hrec Hvalid).
    rewrite incrInt_below_max by assumption.
    destruct (ApplyCherryPicks env _ r) as [res r'] eqn:Hrun.
    apply ApplyCherryPicks_trace in Hrun as (new & Hcalls & Hpre & Hge & Hs);
      [|cbn; lia].
    cbn in Hpre, Hge. exists new. cbn [snd].
    split; [exact Hcalls|]. split; [|split; [|exact Hs]].
    + replace (S c) with (Z.to_nat (CurrentCommitIdx st + 1)) by (subst c; lia).
      exact Hpre.
    + eapply Forall_impl; [exact Hge|]. cbn. intros; lia.
Qed.

Lemma cursor_marks_last_processed_witness :
  exists r_saved,
    applyLoop exampleEnv (take 1 examplePlan) 0 (exampleState 0 "picking")
      (midRepo 0 "picking")
    = (Ok (exampleState 0 "picking"), r_saved)
    /\ stateFile r_saved = Stored (exampleState 0 "picking").
Proof.
  destruct (cursor_marks_last_processed exampleEnv (exampleState 0 "picking")
              (midRepo 0 "picking")) as [Hstep _]; [cbn; lia|].
  destruct (Hstep 0%nat (mkCommitInfo "f1111111" "Feature one" "pick")
              (exampleState 0 "picking") (midRepo 0 "picking")
              (snd (CherryPick exampleEnv "f1111111" (midRepo 0 "picking"))))
    as (r_saved & Hrun & Hfile & _).
  - reflexivity.
  - discriminate.
  - reflexivity.
  - reflexivity.
  - reflexivity.
  - exists r_saved. split; [exact Hrun|exact Hfile].
Defined.

(** C6, as stated, fails: with both entries of the plan to apply and no
    failure, the record saved after entry 0 has been applied carries cursor
    0, the entry just applied, not 1, the next unprocessed one; and the
    loop started again on that record hands entry 0 to cherry-pick a second
    time. *)
Lemma persisted_cursor_is_not_next_unprocessed :
  let st := exampleState 0 "picking" in
  let after := applyLoop exampleEnv (take 1 examplePlan) 0 st
                 (midRepo 0 "picking") in
  fst after = Ok st
  /\ pickedSHAs (calls (snd after)) = ["f1111111"]
  /\ stateFile (snd after) = Stored st
  /\ CurrentCommitIdx st = 0
  /\ CurrentCommitIdx st <> 1
  /\ pickedSHAs (calls (snd (ApplyCherryPicks exampleEnv st (snd after))))
     = ["f1111111"; "f1111111"; "f2222222"].
Proof. cbv zeta. repeat split. discriminate. Qed.

(** ** The commit range *)

Lemma existsb_eqb_In (a : string) (l : list string) :
  existsb (String.eqb a) l = true <-> In a l.
Proof.
  rewrite existsb_exists. split.
  - intros (x & Hin & Heq). apply String.eqb_eq in Heq. now subst.
  - intros Hin. exists a. split; [assumption|apply String.eqb_refl].
Qed.

(** The callback loop: of the commits the walk yields it keeps those that
    are neither the base nor in the base's history, newest last. *)
Lemma collectCommits_eq (env : Env) objs baseHash cb walk : forall commits,
  objs !! baseHash = Some cb ->
  (forall a c, In (a, c) walk -> objs !! a = Some c) ->
  collectCommits env objs baseHash walk commits =
  inr (rev (map (fun ac => {| SHA := fst ac;
                              Message := TrimSpace (CommitMessage (snd ac));
                              Action := "pick" |})
              (List.filter
                 (fun ac => negb (String.eqb (fst ac) baseHash)
                            && negb (inHistory env objs baseHash (fst ac)))
                 walk))
       ++ commits)%list.
Proof.
  intros commits Hbase.
  revert commits. induction walk as [|[a c] walk IH]; intros commits Hstored.
  - reflexivity.
  - cbn [collectCommits List.filter fst snd].
    assert (Hrest : forall a' c', In (a', c') walk -> objs !! a' = Some c')
      by (intros; apply Hstored; now right).
    destruct (String.eqb_spec a baseHash) as [->|Hne]; cbn [negb andb].
    + now apply IH.
    + unfold isAncestor. rewrite (proj2 (String.eqb_neq _ _)) by congruence.
      rewrite (Hstored a c) by now left. rewrite Hbase.
      fold (inHistory env objs baseHash a).
      destruct (inHistory env objs baseHash a); cbn [negb].
      * now apply IH.
      * rewrite IH by assumption. cbn [map rev]. now rewrite <- app_assoc.
Qed.

Lemma map_fst_filter {A B} (P : A -> bool) (l : list (A * B)) :
  map fst (List.filter (fun ab => P (fst ab)) l) = List.filter P (map fst l).
Proof.
  induction l as [|[a b] l IH]; [reflexivity|].
  cbn. destruct (P a); cbn; now rewrite IH.
Qed.

Lemma filter_none {A} (P : A -> bool) (l : list A) :
  (forall x, In x l -> P x = false) -> List.filter P l = [].
Proof.
  induction l as [|x l IH]; intros H; [reflexivity|].
  cbn. rewrite (H x) by now left. apply IH. intros; apply H; now right.
Qed.

Lemma inHistory_reachable (env : Env) objs h a :
  FaithfulWalk env objs h ->
  inHistory env objs h a = true <-> Reachable objs h a.
Proof.
  intros (_ & Hreach & _). unfold inHistory.
  now rewrite existsb_eqb_In, Hreach.
Qed.

(** The resolver's result as a set.  For base and head references that
    resolve to commits of the object store, the resolver returns exactly
    the commits reachable from head that are not the base or one of its
    ancestors, whichever path leads to them; it lists each once, in the
    reverse of the order in which the walk from head meets them.  The
    history walk is go-git's and is assumed to yield exactly the commits
    reachable from where it starts; nothing is assumed of its order. *)
Theorem commits_between_exact (env : Env) (r : Repo) (base head : string)
    (baseHash headHash : string) :
  refs r !! base = Some baseHash ->
  refs r !! head = Some headHash ->
  is_Some (objects r !! baseHash) ->
  is_Some (objects r !! headHash) ->
  FaithfulWalk env (objects r) baseHash ->
  FaithfulWalk env (objects r) headHash ->
  exists commits,
    GetCommitsBetween env base head r = (Ok commits, r)
    /\ (forall a, In a (map SHA commits)
                  <-> Reachable (objects r) headHash a
                      /\ ~ Reachable (objects r) baseHash a)
    /\ map SHA commits
       = rev (List.filter
                (fun a => negb (inHistory env (objects r) baseHash a))
                (map fst (history env (objects r) headHash)))
    /\ List.NoDup (map SHA commits).
Proof.
  intros Hbase Hhead [cb Hcb] [ch Hch] Wbase Whead.
  pose proof Whead as (Hstored & Hreach & Hnodup).
  set (keep := fun a => negb (inHistory env (objects r) baseHash a)).
  assert (Hmem : forall a,
             In a (rev (List.filter keep (map fst (history env (objects r) headHash))))
             <-> Reachable (objects r) headHash a
                 /\ ~ Reachable (objects r) baseHash a).
  { intros a. rewrite <- in_rev, filter_In, Hreach. unfold keep.
    rewrite negb_true_iff, <- not_true_iff_false.
    now rewrite (inHistory_reachable env _ _ _ Wbase). }
  assert (Hnd : List.NoDup (rev (List.filter keep
                              (map fst (history env (objects r) headHash))))).
  { apply List.NoDup_rev, List.NoDup_filter, Hnodup. }
  unfold GetCommitsBetween. rewrite Hbase, Hhead, Hcb, Hch.
  destruct (String.eqb_spec baseHash headHash) as [Heq|Hne].
  - exists []. split; [reflexivity|].
    assert (Hnone : List.filter keep
                      (map fst (history env (objects r) headHash)) = []).
    { apply filter_none. intros a Ha. unfold keep.
      apply negb_false_iff, (inHistory_reachable env _ _ _ Wbase).
      rewrite Heq. now apply Hreach. }
    rewrite Hnone in Hmem, Hnd. rewrite Hnone.
    split; [exact Hmem|]. split; [reflexivity|exact Hnd].
  - rewrite (collectCommits_eq env _ _ cb) by assumption.
    rewrite app_nil_r. eexists. split; [reflexivity|].
    assert (Hshas :
      map SHA
        (rev (map (fun ac => {| SHA := fst ac;
                                Message := TrimSpace (CommitMessage (snd ac));
                                Action := "pick" |})
                (List.filter
                   (fun ac => negb (String.eqb (fst ac) baseHash)
                              && negb (inHistory env (objects r) baseHash (fst ac)))
                   (history env (objects r) headHash))))
      = rev (List.filter keep (map fst (history env (objects r) headHash)))).
    { rewrite map_rev, map_map. cbn [SHA]. f_equal.
      rewrite <- (map_fst_filter keep).
      f_equal. apply List.filter_ext. intros [a c]. cbn [fst]. unfold keep.
      destruct (String.eqb_spec a baseHash) as [->|]; [|reflexivity].
      cbn. symmetry. apply negb_false_iff.
      apply (inHistory_reachable env _ _ _ Wbase).
      now apply (Reachable_self _ _ cb). }
    rewrite Hshas. split; [exact Hmem|]. split; [reflexivity|exact Hnd].
Qed.

(** The example repository meets the assumption on the walk. *)
Lemma Reachable_inv objs h a :
  Reachable objs h a ->
  exists c, objs !! h = Some c
            /\ (a = h \/ exists p, In p (Parents c) /\ Reachable objs p a).
Proof.
  intros H. inversion H; subst; eauto 10.
Qed.

Lemma example_walk_feature :
  history exampleEnv exampleObjects "f2222222"
  = [ ("f2222222", mkCommitObject ["f1111111"] ("Feature two" ++ lf));
      ("f1111111", mkCommitObject ["b0000000"] ("Feature one" ++ lf));
      ("b0000000", mkCommitObject [] ("Initial commit" ++ lf)) ].
Proof. vm_compute. reflexivity. Qed.

Lemma example_walk_main :
  history exampleEnv exampleObjects "b1111111"
  = [ ("b1111111", mkCommitObject ["b0000000"] ("Main change" ++ lf));
      ("b0000000", mkCommitObject [] ("Initial commit" ++ lf)) ].
Proof. vm_compute. reflexivity. Qed.

Ltac reach_cases H :=
  apply Reachable_inv in H as (? & Hobj & [->|(? & Hpar & H)]);
  vm_compute in Hobj; injection Hobj as <-;
  [| cbn in Hpar; destruct Hpar as [<-|[]] ].

Lemma example_reach_root a :
  Reachable exampleObjects "b0000000" a -> a = "b0000000".
Proof.
  intros H. apply Reachable_inv in H as (? & Hobj & [->|(? & Hpar & _)]);
    [reflexivity|].
  vm_compute in Hobj. injection Hobj as <-. destruct Hpar.
Qed.

Lemma example_faithful_feature : FaithfulWalk exampleEnv exampleObjects "f2222222".
Proof.
  unfold FaithfulWalk. rewrite example_walk_feature. split; [|split].
  - intros a c [[= <- <-]|[[= <- <-]|[[= <- <-]|[]]]]; reflexivity.
  - intros a. cbn. split.
    + intros [<-|[<-|[<-|[]]]].
      * eapply Reachable_self. reflexivity.
      * eapply Reachable_parent; [reflexivity|now left|].
        eapply Reachable_self. reflexivity.
      * eapply Reachable_parent; [reflexivity|now left|].
        eapply Reachable_parent; [reflexivity|now left|].
        eapply Reachable_self. reflexivity.
    + intros H. reach_cases H; [auto|]. reach_cases H; [auto|].
      apply example_reach_root in H. auto.
  - cbn. repeat constructor; cbn; intuition discriminate.
Qed.

Lemma example_faithful_main : FaithfulWalk exampleEnv exampleObjects "b1111111".
Proof.
  unfold FaithfulWalk. rewrite example_walk_main. split; [|split].
  - intros a c [[= <- <-]|[[= <- <-]|[]]]; reflexivity.
  - intros a. cbn. split.
    + intros [<-|[<-|[]]].
      * eapply Reachable_self. reflexivity.
      * eapply Reachable_parent; [reflexivity|now left|].
        eapply Reachable_self. reflexivity.
    + intros H. reach_cases H; [auto|].
      apply example_reach_root in H. auto.
  - cbn. repeat constructor; cbn; intuition discriminate.
Qed.

Lemma commits_between_exact_witness :
  exists commits,
    GetCommitsBetween exampleEnv "main" "feature" exampleRepo
    = (Ok commits, exampleRepo)
    /\ map SHA commits = ["f1111111"; "f2222222"].
Proof.
  destruct (commits_between_exact exampleEnv exampleRepo "main" "feature"
              "b1111111" "f2222222")
    as (commits & Hrun & _ & Horder & _).
  - reflexivity.
  - reflexivity.
  - eexists. reflexivity.
  - eexists. reflexivity.
  - exact example_faithful_main.
  - exact example_faithful_feature.
  - exists commits. split; [exact Hrun|].
    rewrite Horder. vm_compute. reflexivity.
Defined.

(** C4 at a failing input: a source branch with a merge.  The walk from
    the merge [m1] goes down the first parent to the root before it comes
    to the second parent: m1, a1, r1, b0, c1.  The resolver prepends what
    it keeps, so it returns c1, r1, a1, m1: the commit [c1] is listed
    before [r1], its own parent.  The set is the one claimed, the order is
    not oldest first. *)
Theorem merge_lists_child_before_parent :
  map fst (history exampleEnv mergeObjects "m1000000")
  = ["m1000000"; "a1000000"; "r1000000"; "b0000000"; "c1000000"]
  /\ GetCommitsBetween exampleEnv "main" "topic" mergeRepo
     = (Ok [ mkCommitInfo "c1000000" "Parse strings" "pick";
             mkCommitInfo "r1000000" "Add the parser" "pick";
             mkCommitInfo "a1000000" "Parse numbers" "pick";
             mkCommitInfo "m1000000" "Merge strings into numbers" "pick" ],
        mergeRepo)
  /\ objects mergeRepo !! "c1000000"
     = Some (mkCommitObject ["r1000000"] ("Parse strings" ++ lf)).
Proof. vm_compute. repeat split. Qed.

(** ** Strings *)

Lemma app_String c s t : String c s ++ t = String c (s ++ t).
Proof. reflexivity. Qed.

Lemma app_Empty t : EmptyString ++ t = t.
Proof. reflexivity. Qed.

Lemma string_app_assoc (a b c : string) : (a ++ b) ++ c = a ++ (b ++ c).
Proof.
  induction a as [|x a IH]; [reflexivity|].
  rewrite !app_String. now rewrite IH.
Qed.

Lemma string_app_nil_r (a : string) : a ++ EmptyString = a.
Proof. induction a as [|x a IH]; [reflexivity|]. now rewrite app_String, IH. Qed.

(** *** White space characters *)

(** The functions of the package in terms of [stripSpace]. *)
Lemma trimLeft_eq s :
  trimLeft s = match stripSpace s with
               | Some r => trimLeft r
               | None => s
               end.
Proof.
  destruct s as [|c1 [|c2 [|c3 r3]]]; cbn; try reflexivity.
  - now destruct (isSpace c1).
  - destruct (isSpace c1); [reflexivity|]. now destruct (isSpace2 c1 c2).
  - destruct (isSpace c1); [reflexivity|].
    destruct (isSpace2 c1 c2); [reflexivity|]. now destruct (isSpace3 c1 c2 c3).
Qed.

Lemma allSpace_eq s :
  allSpace s = match s with
               | EmptyString => true
               | String _ _ =>
                   match stripSpace s with
                   | Some r => allSpace r
                   | None => false
                   end
               end.
Proof.
  destruct s as [|c1 [|c2 [|c3 r3]]]; cbn; try reflexivity.
  - now destruct (isSpace c1).
  - destruct (isSpace c1); [reflexivity|]. now destruct (isSpace2 c1 c2).
  - destruct (isSpace c1); [reflexivity|].
    destruct (isSpace2 c1 c2); [reflexivity|]. now destruct (isSpace3 c1 c2 c3).
Qed.

Lemma fieldsFrom_eq cur s :
  fieldsFrom cur s
  = match s with
    | EmptyString => flushField cur []
    | String c r =>
        match stripSpace s with
        | Some r' => flushField cur (fieldsFrom EmptyString r')
        | None => fieldsFrom (cur ++ String c EmptyString) r
        end
    end.
Proof.
  destruct s as [|c1 [|c2 [|c3 r3]]]; cbn; try reflexivity.
  - now destruct (isSpace c1).
  - destruct (isSpace c1); [reflexivity|]. now destruct (isSpace2 c1 c2).
  - destruct (isSpace c1); [reflexivity|].
    destruct (isSpace2 c1 c2); [reflexivity|]. now destruct (isSpace3 c1 c2 c3).
Qed.

Lemma isSpace2_plain c d : plainByte d -> isSpace2 c d = false.
Proof.
  unfold plainByte, isSpace2. intros Hd.
  destruct (Nat.eqb_spec (nat_of_ascii d) 133); [lia|].
  destruct (Nat.eqb_spec (nat_of_ascii d) 160); [lia|].
  apply andb_false_r.
Qed.

Lemma isSpace3_plain_2 c d e : plainByte d -> isSpace3 c d e = false.
Proof.
  unfold plainByte, isSpace3. intros Hd.
  destruct (Nat.eqb_spec (nat_of_ascii d) 154); [lia|].
  destruct (Nat.eqb_spec (nat_of_ascii d) 128); [lia|].
  destruct (Nat.eqb_spec (nat_of_ascii d) 129); [lia|].
  now rewrite !andb_false_r.
Qed.

Lemma isSpace3_plain_3 c1 c2 d : plainByte d -> isSpace3 c1 c2 d = false.
Proof.
  unfold plainByte, isSpace3. intros Hd.
  destruct (Nat.eqb_spec (nat_of_ascii d) 128); [lia|].
  destruct (Nat.eqb_spec (nat_of_ascii d) 159); [lia|].
  destruct (Nat.eqb_spec (nat_of_ascii d) 168); [lia|].
  destruct (Nat.eqb_spec (nat_of_ascii d) 169); [lia|].
  destruct (Nat.eqb_spec (nat_of_ascii d) 175); [lia|].
  destruct (Nat.leb_spec 128 (nat_of_ascii d)); [lia|].
  now rewrite !andb_false_r.
Qed.

Lemma isSpace_plain c : isSpace c = true -> plainByte c.
Proof.
  unfold isSpace, plainByte. intros H.
  apply orb_true_iff in H as [H|H].
  - apply andb_true_iff in H as [_ H]. apply Nat.leb_le in H. lia.
  - apply Nat.eqb_eq in H. lia.
Qed.

(** A white space character at the head of a string is there whatever
    follows the string. *)
Lemma stripSpace_app_Some s r t :
  stripSpace s = Some r -> stripSpace (s ++ t) = Some (r ++ t).
Proof.
  destruct s as [|c1 [|c2 [|c3 r3]]]; rewrite ?app_String, ?app_Empty;
    cbn [stripSpace]; try discriminate.
  - destruct (isSpace c1); [|discriminate]. now intros [= <-].
  - destruct (isSpace c1); [now intros [= <-]|].
    destruct (isSpace2 c1 c2); [|discriminate]. now intros [= <-].
  - destruct (isSpace c1); [now intros [= <-]|].
    destruct (isSpace2 c1 c2); [now intros [= <-]|].
    destruct (isSpace3 c1 c2 c3); [|discriminate]. now intros [= <-].
Qed.

(** And none appears at the head of a string by putting a plain byte
    behind the string. *)
Lemma stripSpace_app_None c s d t :
  stripSpace (String c s) = None -> plainByte d ->
  stripSpace (String c s ++ String d t) = None.
Proof.
  intros Hs Hd. destruct s as [|c2 [|c3 r3]];
    rewrite ?app_String, ?app_Empty; cbn [stripSpace] in *.
  - destruct (isSpace c); [discriminate|].
    rewrite isSpace2_plain by assumption.
    destruct t; [reflexivity|]. now rewrite isSpace3_plain_2.
  - destruct (isSpace c); [discriminate|].
    destruct (isSpace2 c c2); [discriminate|].
    now rewrite isSpace3_plain_3.
  - destruct (isSpace c); [discriminate|].
    destruct (isSpace2 c c2); [discriminate|].
    now destruct (isSpace3 c c2 c3).
Qed.

Lemma stripSpace_shorter s r :
  stripSpace s = Some r -> (String.length r < String.length s)%nat.
Proof.
  destruct s as [|c1 [|c2 [|c3 r3]]]; cbn; try discriminate.
  - destruct (isSpace c1); [|discriminate]. intros [= <-]. cbn. lia.
  - destruct (isSpace c1); [intros [= <-]; cbn; lia|].
    destruct (isSpace2 c1 c2); [|discriminate]. intros [= <-]. cbn. lia.
  - destruct (isSpace c1); [intros [= <-]; cbn; lia|].
    destruct (isSpace2 c1 c2); [intros [= <-]; cbn; lia|].
    destruct (isSpace3 c1 c2 c3); [|discriminate]. intros [= <-]. cbn. lia.
Qed.

(** Induction along the white space characters a string starts with. *)
Lemma leading_space_ind (P : string -> Prop) :
  P EmptyString ->
  (forall s r, stripSpace s = Some r -> P r -> P s) ->
  (forall c s, stripSpace (String c s) = None -> P (String c s)) ->
  forall s, P s.
Proof.
  intros Hnil Hstrip Hstop s.
  remember (String.length s) as n eqn:Hn.
  revert s Hn. induction n as [n IH] using lt_wf_ind. intros s Hn.
  destruct s as [|c s]; [exact Hnil|].
  destruct (stripSpace (String c s)) as [r|] eqn:Hs.
  - apply (Hstrip _ r Hs). apply (IH (String.length r)); [|reflexivity].
    subst n. now apply stripSpace_shorter.
  - now apply Hstop.
Qed.

Lemma allSpace_app_plain s d t :
  plainByte d ->
  allSpace (s ++ String d t) = allSpace s && allSpace (String d t).
Proof.
  intros Hd. induction s as [|s r Hs IH|c s Hs] using leading_space_ind.
  - reflexivity.
  - rewrite (allSpace_eq s), (allSpace_eq (s ++ String d t)).
    rewrite (stripSpace_app_Some _ _ _ Hs), Hs.
    destruct s; [discriminate Hs|]. rewrite app_String. exact IH.
  - rewrite (allSpace_eq (String c s)), (allSpace_eq (String c s ++ String d t)).
    rewrite Hs, app_String. rewrite <- app_String.
    now rewrite stripSpace_app_None.
Qed.

Lemma trimLeft_app_plain s d t :
  plainByte d ->
  trimLeft (s ++ String d t)
  = if allSpace s then trimLeft (String d t) else trimLeft s ++ String d t.
Proof.
  intros Hd. induction s as [|s r Hs IH|c s Hs] using leading_space_ind.
  - reflexivity.
  - rewrite (trimLeft_eq s), (trimLeft_eq (s ++ String d t)), (allSpace_eq s).
    rewrite (stripSpace_app_Some _ _ _ Hs), Hs.
    destruct s; [discriminate Hs|]. exact IH.
  - rewrite (trimLeft_eq (String c s)), (trimLeft_eq (String c s ++ String d t)).
    rewrite (allSpace_eq (String c s)), Hs.
    now rewrite stripSpace_app_None.
Qed.

Lemma trimRight_allSpace s : allSpace s = true -> trimRight s = EmptyString.
Proof. destruct s; [reflexivity|]. cbn [trimRight]. now intros ->. Qed.

Lemma trimRight_cons c r :
  trimRight (String c r)
  = if allSpace (String c r) then EmptyString else String c (trimRight r).
Proof. reflexivity. Qed.

Lemma trimRight_app_plain s d t :
  plainByte d ->
  trimRight (s ++ String d t)
  = if allSpace (String d t) then trimRight s
    else s ++ trimRight (String d t).
Proof.
  intros Hd. induction s as [|c s IH].
  - rewrite !app_Empty. destruct (allSpace (String d t)) eqn:Ht; [|reflexivity].
    now apply trimRight_allSpace.
  - rewrite app_String, (trimRight_cons c (s ++ String d t)), <- app_String.
    rewrite allSpace_app_plain by assumption. rewrite IH.
    rewrite (trimRight_cons c s).
    remember (trimRight (String d t)) as tail eqn:Htail. clear Htail.
    destruct (allSpace (String d t)).
    + now rewrite andb_true_r.
    + rewrite andb_false_r. reflexivity.
Qed.

(** Trailing line break, tab or blank does not show in [TrimSpace]. *)
Lemma TrimSpace_app_space s d :
  isSpace d = true -> TrimSpace (s ++ String d EmptyString) = TrimSpace s.
Proof.
  intros Hd. pose proof (isSpace_plain _ Hd) as Hplain. unfold TrimSpace.
  assert (Hone : allSpace (String d EmptyString) = true)
    by (cbn; now rewrite Hd).
  rewrite trimLeft_app_plain by assumption.
  destruct (allSpace s) eqn:Hs.
  - rewrite trimLeft_eq. cbn [stripSpace]. rewrite Hd. cbn.
    clear Hone. induction s as [|s r Hr IH|c s Hr] using leading_space_ind.
    + reflexivity.
    + rewrite (trimLeft_eq s), Hr. apply IH.
      rewrite allSpace_eq, Hr in Hs. now destruct s.
    + rewrite allSpace_eq, Hr in Hs. discriminate.
  - rewrite trimRight_app_plain by assumption. now rewrite Hone.
Qed.

(** White space beyond ASCII is white space: a no-break space at the end
    of a line is trimmed, a no-break space or a next-line character
    separates fields, an ideographic space at the head is trimmed; a
    letter of two bytes is left alone, and so is a continuation byte that
    stands alone. *)
Lemma white_space_beyond_ascii :
  TrimSpace ("Feature two" ++ noBreakSpace ++ lf) = "Feature two"
  /\ Fields ("pick" ++ noBreakSpace ++ "f111111 Feature one")
     = ["pick"; "f111111"; "Feature"; "one"]
  /\ Fields ("pick f111111" ++ nextLine ++ "Feature one")
     = ["pick"; "f111111"; "Feature"; "one"]
  /\ TrimSpace (ideographicSpace ++ "caf" ++ eAcute ++ " ") = "caf" ++ eAcute
  /\ TrimSpace ("x" ++ ofBytes [160]%nat) = "x" ++ ofBytes [160]%nat.
Proof. vm_compute. repeat split. Qed.

Lemma splitLines_line l rest :
  singleLine l = true ->
  splitLines (l ++ String newline rest) = l :: splitLines rest.
Proof.
  induction l as [|c l IH]; [reflexivity|].
  change (String c l ++ String newline rest)
    with (String c (l ++ String newline rest)).
  cbn. intros [Hc Hl]%andb_true_iff. apply negb_true_iff in Hc.
  now rewrite Hc, (IH Hl).
Qed.

Lemma splitLines_single l : singleLine l = true -> splitLines l = [l].
Proof.
  induction l as [|c l IH]; cbn; [reflexivity|].
  intros [Hc Hl]%andb_true_iff. apply negb_true_iff in Hc.
  now rewrite Hc, (IH Hl).
Qed.

Lemma allChars_app p s t :
  allChars p (s ++ t) = allChars p s && allChars p t.
Proof.
  induction s as [|c s IH]; [reflexivity|].
  rewrite app_String. cbn. now rewrite IH, andb_assoc.
Qed.

(** *** Words *)

Lemma noSpace_cons c r :
  noSpace (String c r) = true
  <-> stripSpace (String c r) = None /\ noSpace r = true.
Proof.
  cbn [noSpace]. destruct (stripSpace (String c r)).
  - split; [discriminate|]. intros [? _]. discriminate.
  - split; auto. now intros [_ ?].
Qed.

Lemma noSpace_prefix p q : noSpace (p ++ q) = true -> noSpace p = true.
Proof.
  induction p as [|c p IH]; [reflexivity|].
  rewrite app_String. intros [Hhead Hrest]%noSpace_cons.
  apply noSpace_cons. split; [|now apply IH].
  destruct (stripSpace (String c p)) as [r|] eqn:Hs; [|reflexivity].
  apply (stripSpace_app_Some _ _ q) in Hs. rewrite app_String in Hs.
  congruence.
Qed.

Lemma substring_prefix s : forall n,
  exists q, s = String.substring 0 n s ++ q.
Proof.
  induction s as [|c s IH]; intros [|n]; cbn.
  - now exists EmptyString.
  - now exists EmptyString.
  - now exists (String c s).
  - destruct (IH n) as [q Hq]. exists q. rewrite app_String. now f_equal.
Qed.

Lemma noSpace_substring s n :
  noSpace s = true -> noSpace (String.substring 0 n s) = true.
Proof.
  intros Hs. destruct (substring_prefix s n) as [q Hq].
  rewrite Hq in Hs. now apply noSpace_prefix in Hs.
Qed.

Lemma noSpace_singleLine s : noSpace s = true -> singleLine s = true.
Proof.
  unfold singleLine. induction s as [|c s IH]; [reflexivity|].
  intros [Hhead Hrest]%noSpace_cons. cbn [allChars].
  rewrite (IH Hrest), andb_true_r.
  destruct (Ascii.eqb_spec c newline) as [->|]; [|reflexivity].
  discriminate Hhead.
Qed.

(** The abbreviation of an identifier that is one word is one word. *)
Lemma shortSHA_word sha :
  sha <> EmptyString -> noSpace sha = true ->
  isEmpty (shortSHA sha) = false /\ noSpace (shortSHA sha) = true.
Proof.
  intros Hne Hword. unfold shortSHA.
  destruct (7 <? String.length sha)%nat eqn:Hlen.
  - split; [|now apply noSpace_substring].
    destruct sha; [discriminate Hlen|reflexivity].
  - split; [|assumption]. destruct sha; [contradiction|reflexivity].
Qed.

Lemma word_not_allSpace w :
  isEmpty w = false -> noSpace w = true -> allSpace w = false.
Proof.
  destruct w as [|c w]; [discriminate|]. intros _ [Hhead _]%noSpace_cons.
  now rewrite allSpace_eq, Hhead.
Qed.

(** Trimming leaves a word as it is. *)
Lemma trimRight_word w : noSpace w = true -> trimRight w = w.
Proof.
  induction w as [|c w IH]; [reflexivity|]. intros Hw.
  rewrite trimRight_cons, (word_not_allSpace (String c w) eq_refl Hw).
  apply noSpace_cons in Hw as [_ Hw]. now rewrite IH.
Qed.

Lemma trimLeft_word w d t :
  isEmpty w = false -> noSpace w = true -> plainByte d ->
  trimLeft (w ++ String d t) = w ++ String d t.
Proof.
  intros Hne Hw Hd. rewrite trimLeft_app_plain by assumption.
  rewrite (word_not_allSpace _ Hne Hw).
  destruct w as [|c w]; [discriminate|].
  apply noSpace_cons in Hw as [Hhead _]. now rewrite trimLeft_eq, Hhead.
Qed.

(** A word in front of a plain byte is read as a whole. *)
Lemma fieldsFrom_word w : forall cur d rest,
  noSpace w = true -> plainByte d ->
  fieldsFrom cur (w ++ String d rest) = fieldsFrom (cur ++ w) (String d rest).
Proof.
  induction w as [|c w IH]; intros cur d rest Hw Hd.
  - now rewrite app_Empty, string_app_nil_r.
  - apply noSpace_cons in Hw as [Hhead Hw].
    rewrite fieldsFrom_eq, app_String. rewrite <- app_String.
    rewrite stripSpace_app_None by assumption.
    rewrite (IH _ _ _ Hw Hd). now rewrite string_app_assoc.
Qed.

Lemma fieldsFrom_last w : forall cur,
  noSpace w = true -> fieldsFrom cur w = flushField (cur ++ w) [].
Proof.
  induction w as [|c w IH]; intros cur Hw.
  - now rewrite string_app_nil_r.
  - apply noSpace_cons in Hw as [Hhead Hw].
    rewrite fieldsFrom_eq, Hhead, (IH _ Hw). now rewrite string_app_assoc.
Qed.

Lemma isEmpty_app_false a b : isEmpty b = false -> isEmpty (a ++ b) = false.
Proof. destruct a; [now rewrite app_Empty|reflexivity]. Qed.

Lemma plainByte_blank : plainByte " ".
Proof. unfold plainByte. apply Nat.ltb_lt. reflexivity. Qed.

(** A line made of an action word, an abbreviation and a message, trimmed
    and split into fields, starts with the action word and the
    abbreviation. *)
Lemma wordLine_fields (a short msg : string) :
  isEmpty a = false -> noSpace a = true ->
  isEmpty short = false -> noSpace short = true ->
  let line := TrimSpace (a ++ " " ++ short ++ " " ++ msg) in
  line = a ++ " " ++ short ++ trimRight (" " ++ msg)
  /\ isEmpty line = false
  /\ exists more, Fields line = a :: short :: more.
Proof.
  intros Ha Haw Hshort Hsw.
  set (tail := trimRight (" " ++ msg)).
  assert (Hline : TrimSpace (a ++ " " ++ short ++ " " ++ msg)
                  = a ++ " " ++ short ++ tail).
  { unfold TrimSpace. rewrite !app_String, !app_Empty.
    rewrite trimLeft_word by auto using plainByte_blank.
    rewrite trimRight_app_plain by apply plainByte_blank.
    assert (Hrest : allSpace (String " " (short ++ String " " msg)) = false).
    { rewrite allSpace_eq. cbn [stripSpace]. change (isSpace " ") with true.
      cbv iota. rewrite allSpace_app_plain by apply plainByte_blank.
      now rewrite (word_not_allSpace _ Hshort Hsw). }
    rewrite Hrest. f_equal. rewrite trimRight_cons, Hrest. f_equal.
    rewrite trimRight_app_plain by apply plainByte_blank.
    unfold tail. rewrite app_String, app_Empty.
    rewrite (trimRight_cons " " msg).
    destruct (allSpace (String " " msg)).
    - now rewrite trimRight_word, string_app_nil_r.
    - reflexivity. }
  cbv zeta. rewrite Hline. split; [reflexivity|]. split.
  { destruct a; [discriminate Ha|reflexivity]. }
  unfold Fields. rewrite app_String, app_Empty.
  rewrite fieldsFrom_word by auto using plainByte_blank. rewrite app_Empty.
  rewrite fieldsFrom_eq. cbn [stripSpace]. change (isSpace " ") with true.
  cbv iota. unfold flushField at 1. rewrite Ha.
  assert (Htail : tail = EmptyString \/ exists t, tail = String " " t).
  { unfold tail. rewrite app_String, app_Empty, trimRight_cons.
    destruct (allSpace (String " " msg)); eauto. }
  destruct Htail as [->|[t ->]].
  - exists []. rewrite string_app_nil_r, fieldsFrom_last by assumption.
    rewrite app_Empty. unfold flushField. now rewrite Hshort.
  - eexists. rewrite fieldsFrom_word by auto using plainByte_blank.
    rewrite app_Empty, fieldsFrom_eq. cbn [stripSpace].
    change (isSpace " ") with true. cbv iota. unfold flushField at 1.
    rewrite Hshort. reflexivity.
Qed.

(** A listing line, trimmed and split into fields, starts with the action
    and the abbreviation. *)
Lemma listingLine_fields (c : CommitInfo) :
  SHA c <> EmptyString -> noSpace (SHA c) = true ->
  let line := TrimSpace (listingLine c) in
  isEmpty line = false
  /\ HasPrefix line "#" = false
  /\ exists more, Fields line = "pick" :: shortSHA (SHA c) :: more.
Proof.
  intros Hne Hword.
  destruct (shortSHA_word _ Hne Hword) as [Hshort Hsw].
  destruct (wordLine_fields "pick" (shortSHA (SHA c)) (Message c))
    as (Hline & Hnonempty & Hfields);
    [reflexivity|reflexivity|assumption|assumption|].
  cbv zeta in *. unfold listingLine.
  change ("pick " ++ shortSHA (SHA c) ++ " " ++ Message c)
    with ("pick" ++ " " ++ shortSHA (SHA c) ++ " " ++ Message c).
  split; [exact Hnonempty|]. split; [now rewrite Hline|exact Hfields].
Qed.

Lemma listingLine_singleLine (c : CommitInfo) :
  noSpace (SHA c) = true -> singleLine (Message c) = true ->
  singleLine (listingLine c) = true.
Proof.
  intros Hword Hmsg. unfold singleLine, listingLine.
  rewrite !allChars_app. fold (singleLine (Message c)). rewrite Hmsg.
  assert (Hs : singleLine (shortSHA (SHA c)) = true).
  { apply noSpace_singleLine. unfold shortSHA.
    destruct (7 <? String.length (SHA c))%nat; [|assumption].
    now apply noSpace_substring. }
  unfold singleLine in Hs. now rewrite Hs.
Qed.

(** ** The summary of an entry *)

Lemma collectCommits_messages (env : Env) objs baseHash walk (P : CommitInfo -> Prop) :
  forall commits result,
  (forall a c, In (a, c) walk ->
               P {| SHA := a; Message := TrimSpace (CommitMessage c);
                    Action := "pick" |}) ->
  Forall P commits ->
  collectCommits env objs baseHash walk commits = inr result ->
  Forall P result.
Proof.
  induction walk as [|[a c] walk IH]; intros commits result Hwalk Hacc Hrun.
  - cbn in Hrun. now injection Hrun as <-.
  - cbn [collectCommits] in Hrun.
    assert (Hrest : forall a' c', In (a', c') walk ->
              P {| SHA := a'; Message := TrimSpace (CommitMessage c');
                   Action := "pick" |})
      by (intros; apply Hwalk; now right).
    destruct (String.eqb a baseHash); [now apply (IH commits)|].
    destruct (isAncestor env objs baseHash a) as [e|[|]]; [discriminate| |].
    + now apply (IH commits).
    + eapply IH; [exact Hrest| |exact Hrun].
      constructor; [apply Hwalk; now left|exact Hacc].
Qed.

(** C8, as the code has it: the summary of every entry the resolver
    returns is the message of the commit the walk yielded for it, with the
    white space at both ends removed: the whole message, body included.
    It is the first line of the message when the message is one line with
    no white space at its ends, alone or followed by a line break. *)
Theorem summary_is_trimmed_message (env : Env) (r r' : Repo)
    (base head : string) (commits : list CommitInfo) :
  GetCommitsBetween env base head r = (Ok commits, r') ->
  forall entry, In entry commits ->
    exists headHash c,
      refs r !! head = Some headHash
      /\ In (SHA entry, c) (history env (objects r) headHash)
      /\ Message entry = TrimSpace (CommitMessage c)
      /\ forall l, TrimSpace l = l -> singleLine l = true ->
           CommitMessage c = l \/ CommitMessage c = l ++ lf ->
           Message entry = firstLine (CommitMessage c).
Proof.
  intros Hrun. unfold GetCommitsBetween in Hrun.
  destruct (refs r !! base) as [baseHash|]; [|discriminate].
  destruct (refs r !! head) as [headHash|]; [|discriminate].
  destruct (objects r !! baseHash); [|discriminate].
  destruct (objects r !! headHash); [|discriminate].
  destruct (String.eqb baseHash headHash).
  { injection Hrun as <- <-. intros entry []. }
  destruct (collectCommits env (objects r) baseHash _ []) as [e|result] eqn:Hcol;
    [discriminate|].
  injection Hrun as <- <-.
  apply List.Forall_forall.
  eapply collectCommits_messages; [|constructor|exact Hcol].
  intros a co Hin. exists headHash, co. cbn.
  split; [reflexivity|]. split; [exact Hin|]. split; [reflexivity|].
  intros l Htight Hline [->| ->].
  - unfold firstLine. now rewrite (splitLines_single l Hline).
  - unfold firstLine, lf. rewrite (splitLines_line l _ Hline).
    now rewrite TrimSpace_app_space.
Qed.

Lemma summary_is_trimmed_message_witness :
  exists c,
    In ("f2222222", c) (history exampleEnv exampleObjects "f2222222")
    /\ "Feature two" = TrimSpace (CommitMessage c).
Proof.
  destruct (summary_is_trimmed_message exampleEnv exampleRepo exampleRepo
              "main" "feature"
              [ mkCommitInfo "f1111111" "Feature one" "pick";
                mkCommitInfo "f2222222" "Feature two" "pick" ]
              eq_refl
              (mkCommitInfo "f2222222" "Feature two" "pick"))
    as (headHash & c & Hhead & Hwalk & Hmsg & _).
  - right. left. reflexivity.
  - vm_compute in Hhead. injection Hhead as <-.
    exists c. split; [exact Hwalk|exact Hmsg].
Defined.

(** C8, as stated, fails for a commit whose message has a body: the
    summary is the whole trimmed message, not its first line. *)
Lemma summary_of_commit_with_body :
  objects bodyRepo !! "f2222222"
  = Some (mkCommitObject ["f1111111"] bodyMessage)
  /\ firstLine bodyMessage = "Feature two"
  /\ fst (GetCommitsBetween exampleEnv "main" "feature" bodyRepo)
     = Ok [ mkCommitInfo "f1111111" "Feature one" "pick";
            mkCommitInfo "f2222222"
              ("Feature two" ++ lf ++ lf ++ "Explains the change.") "pick" ]
  /\ "Feature two" ++ lf ++ lf ++ "Explains the change." <> firstLine bodyMessage.
Proof. repeat split. discriminate. Qed.

(** ** The selection listing *)

Lemma Join_cons (x y : string) (l : list string) (sep : string) :
  Join (x :: y :: l) sep = x ++ sep ++ Join (y :: l) sep.
Proof. reflexivity. Qed.

(** Splitting what [Join] put together. *)
Lemma splitLines_join (lines : list string) : forall first,
  Forall (fun l => singleLine l = true) (first :: lines) ->
  splitLines (Join (first :: lines) (String newline EmptyString) ++ String newline EmptyString)
  = ((first :: lines) ++ [EmptyString])%list.
Proof.
  induction lines as [|l lines IH]; intros first Hall.
  - inversion Hall; subst. change (Join [first] (String newline EmptyString)) with first.
    now rewrite splitLines_line.
  - inversion Hall; subst. rewrite Join_cons.
    rewrite !string_app_assoc, app_String, app_Empty.
    rewrite splitLines_line by assumption.
    now rewrite <- app_comm_cons, IH.
Qed.

Lemma parseLines_skip commitMap skip : forall rest lineNum selected,
  forallb skipped skip = true ->
  parseLines commitMap (skip ++ rest) lineNum selected
  = parseLines commitMap rest (lineNum + Z.of_nat (length skip)) selected.
Proof.
  induction skip as [|raw skip IH]; intros rest lineNum selected Hskip.
  - cbn. now rewrite Z.add_0_r.
  - cbn in Hskip. apply andb_true_iff in Hskip as [Hraw Hskip].
    rewrite <- app_comm_cons. cbn [parseLines]. unfold skipped in Hraw.
    rewrite Hraw, (IH _ _ _ Hskip). f_equal. cbn [length]. lia.
Qed.

Lemma parseLines_picks commitMap commits : forall rest lineNum selected,
  Forall (fun c => SHA c <> EmptyString /\ noSpace (SHA c) = true
                   /\ commitMap !! shortSHA (SHA c) = Some c) commits ->
  parseLines commitMap (map listingLine commits ++ rest) lineNum selected
  = parseLines commitMap rest (lineNum + Z.of_nat (length commits))
      (selected ++ map asPick commits).
Proof.
  induction commits as [|c commits IH]; intros rest lineNum selected Hall.
  - cbn. now rewrite Z.add_0_r, app_nil_r.
  - inversion Hall as [|? ? (Hne & Hword & Hfound) Hrest]; subst.
    cbn [map]. rewrite <- app_comm_cons. cbn [parseLines].
    destruct (listingLine_fields c Hne Hword) as (Hnonempty & Hcomment & more & Hfields).
    cbv zeta in Hnonempty, Hcomment, Hfields.
    rewrite Hnonempty, Hcomment, Hfields. cbn [orb].
    change (normalizeAction "pick") with (Some "pick").
    rewrite Hfound, (IH _ _ _ Hrest). fold (asPick c).
    rewrite <- app_assoc. cbn [app length]. f_equal. lia.
Qed.

Lemma buildCommitMap_other (commits : list CommitInfo) :
  forall (m : gmap string CommitInfo) (k : string),
  ~ In k (map (fun c => shortSHA (SHA c)) commits) ->
  fold_left (fun m c => <[shortSHA (SHA c) := c]> m) commits m !! k = m !! k.
Proof.
  induction commits as [|c commits IH]; intros m k Hk; [reflexivity|].
  cbn [fold_left]. rewrite IH by (intros H; apply Hk; now right).
  apply lookup_insert_ne. intros Heq. apply Hk. now left.
Qed.

(** With abbreviations that tell the commits apart, the table finds each
    commit under its abbreviation. *)
Lemma buildCommitMap_lookup (commits : list CommitInfo) (c : CommitInfo) :
  List.NoDup (map (fun c => shortSHA (SHA c)) commits) ->
  In c commits ->
  buildCommitMap commits !! shortSHA (SHA c) = Some c.
Proof.
  unfold buildCommitMap. generalize (∅ : gmap string CommitInfo).
  induction commits as [|x commits IH]; intros m Hnd Hin; [destruct Hin|].
  cbn [map] in Hnd. inversion Hnd as [|? ? Hx Hnd']; subst.
  cbn [fold_left]. destruct Hin as [->|Hin].
  - rewrite buildCommitMap_other by assumption. apply lookup_insert_eq.
  - now apply IH.
Qed.

(** X2: the listing of commits whose identifiers are words with distinct
    abbreviations and whose messages are single lines parses, unedited,
    into the same commits in the same order, each marked "pick". *)
Lemma render_parse_single_line (commits : list CommitInfo) :
  commits <> [] ->
  Forall (fun c => SHA c <> EmptyString /\ noSpace (SHA c) = true
                   /\ singleLine (Message c) = true) commits ->
  List.NoDup (map (fun c => shortSHA (SHA c)) commits) ->
  parseListing (listingContent commits) commits = inr (map asPick commits).
Proof.
  intros Hne Hall Hnd. unfold parseListing, listingContent.
  change (listingHeader ++ map listingLine commits)%list
    with ("# Interactive rebranch - Edit the list of commits to apply"
          :: (tl listingHeader ++ map listingLine commits))%list.
  rewrite splitLines_join.
  2:{ constructor; [reflexivity|]. apply Forall_app. split.
      - repeat constructor.
      - apply List.Forall_map. eapply List.Forall_impl; [|exact Hall].
        intros c (_ & Hword & Hmsg). now apply listingLine_singleLine. }
  change ("# Interactive rebranch - Edit the list of commits to apply"
          :: (tl listingHeader ++ map listingLine commits))%list
    with (listingHeader ++ map listingLine commits)%list.
  rewrite <- app_assoc.
  rewrite parseLines_skip by reflexivity.
  rewrite parseLines_picks.
  2:{ apply List.Forall_forall. intros c Hin.
      rewrite List.Forall_forall in Hall.
      destruct (Hall c Hin) as (Hsha & Hword & _).
      repeat split; auto. now apply buildCommitMap_lookup. }
  cbn. destruct commits; [contradiction|reflexivity].
Qed.

(** C5 at a failing input: the resolver's commits for a branch whose
    second commit has a message with a body.  The listing rendered from
    them, parsed unedited, is rejected at the first line of the body, and
    so is the start command, before any branch is created. *)
Theorem listing_of_commit_with_body_is_rejected :
  let commits :=
    [ mkCommitInfo "f1111111" "Feature one" "pick";
      mkCommitInfo "f2222222"
        ("Feature two" ++ lf ++ lf ++ "Explains the change.") "pick" ] in
  fst (GetCommitsBetween exampleEnv "main" "feature" bodyRepo) = Ok commits
  /\ parseListing (listingContent commits) commits
     = inl (InvalidAction "Explains" 11)
  /\ fst (startRebranch exampleEnv "main" bodyRepo)
     = Fail (ParsePickFileFailed
               (PickFileError (InvalidAction "Explains" 11)))
  /\ refs (snd (startRebranch exampleEnv "main" bodyRepo)) = refs bodyRepo.
Proof. cbv zeta. repeat split. Qed.

(** Two commits with the same seven-byte abbreviation: the table keeps the
    later one, and the unedited listing parses into that one twice. *)
Lemma listing_with_equal_abbreviations :
  let commits :=
    [ mkCommitInfo "abc1234aaa" "One" "pick";
      mkCommitInfo "abc1234bbb" "Two" "pick" ] in
  parseListing (listingContent commits) commits
  = inr [ mkCommitInfo "abc1234bbb" "Two" "pick";
          mkCommitInfo "abc1234bbb" "Two" "pick" ].
Proof. reflexivity. Qed.

(** ** Frame rules for the branches *)

Lemma triple_ret {A} (P : Repo -> Prop) (a : A) (Q : A -> Repo -> Prop) E :
  (forall r, P r -> Q a r) -> triple P (ret a) Q E.
Proof. intros H r Hr. now apply H. Qed.

Lemma triple_fail {A} (P : Repo -> Prop) e (Q : A -> Repo -> Prop) (E : Repo -> Prop) :
  (forall r, P r -> E r) -> triple P (fail e) Q E.
Proof. intros H r Hr. now apply H. Qed.

Lemma triple_bind {A B} (P : Repo -> Prop) (m : M A) (f : A -> M B)
    (Qm : A -> Repo -> Prop) (Q : B -> Repo -> Prop) (E : Repo -> Prop) :
  triple P m Qm E -> (forall a, triple (Qm a) (f a) Q E) ->
  triple P (bind m f) Q E.
Proof.
  intros Hm Hf r Hr. specialize (Hm r Hr). rewrite bind_unfold.
  destruct (m r) as [[a|e|] r1]; auto. now apply Hf.
Qed.

Lemma triple_wrapErr {A} (P : Repo -> Prop) wrap (m : M A) Q E :
  triple P m Q E -> triple P (wrapErr wrap m) Q E.
Proof.
  intros Hm r Hr. specialize (Hm r Hr). unfold wrapErr.
  now destruct (m r) as [[a|e|] r1].
Qed.

Lemma triple_try {A} (P : Repo -> Prop) (m : M A) (Q : Repo -> Prop) :
  triple P m (fun _ => Q) Q -> triple P (try m) (fun _ => Q) Q.
Proof.
  intros Hm r Hr. specialize (Hm r Hr). unfold try.
  now destruct (m r) as [[a|e|] r1].
Qed.

(** An assertion that reads only the branches and [HEAD] survives a
    command that keeps them. *)
Lemma triple_keeps {A} (I : gmap string string -> HeadRef -> Prop) (m : M A) :
  keepsBranches m ->
  triple (fun r => I (refs r) (head r)) m
         (fun _ r => I (refs r) (head r)) (fun r => I (refs r) (head r)).
Proof.
  intros Hm r Hr. destruct (Hm r) as [Hrefs Hhead].
  destruct (m r) as [[a|e|] r1]; cbn in *; now rewrite Hrefs, Hhead.
Qed.

Lemma keeps_readOnly {A} (m : M A) : readOnly m -> keepsBranches m.
Proof. intros Hm r. now rewrite (Hm r). Qed.

Lemma keeps_bind {A B} (m : M A) (f : A -> M B) :
  keepsBranches m -> (forall a, keepsBranches (f a)) -> keepsBranches (bind m f).
Proof.
  intros Hm Hf r. rewrite bind_unfold. destruct (Hm r) as [H1 H2].
  destruct (m r) as [[a|e|] r1]; cbn in *; auto.
  destruct (Hf a r1) as [H3 H4]. split; congruence.
Qed.

Lemma keeps_wrapErr {A} wrap (m : M A) :
  keepsBranches m -> keepsBranches (wrapErr wrap m).
Proof.
  intros Hm r. specialize (Hm r). unfold wrapErr.
  now destruct (m r) as [[a|e|] r1].
Qed.

Lemma keeps_print o : keepsBranches (print o).
Proof. now intros r. Qed.

Lemma keeps_external env c e ok effect :
  (forall r, refs (effect r) = refs r /\ head (effect r) = head r) ->
  keepsBranches (external env c e ok effect).
Proof.
  intros He r. unfold external.
  destruct (fault env r c || negb (ok r)); cbn; [now split|].
  destruct (He (logCall c r)) as [-> ->]. now split.
Qed.

Lemma keeps_SaveState env s : keepsBranches (SaveState env s).
Proof. apply keeps_external. now intros r. Qed.

Lemma keeps_ClearState env : keepsBranches (ClearState env).
Proof.
  apply keeps_bind; [apply keeps_readOnly, readOnly_gets|].
  intros []; cbn; [|apply keeps_readOnly, readOnly_ret].
  apply keeps_external. now intros r.
Qed.

Lemma keeps_CreateInteractiveFile env commits :
  keepsBranches (CreateInteractiveFile env commits).
Proof. apply keeps_external. now intros r. Qed.

Lemma keeps_LaunchEditor env : keepsBranches (LaunchEditor env).
Proof.
  intros r. unfold LaunchEditor. destruct (pickFile r); [|now split].
  now destruct (editor env s).
Qed.

Lemma keeps_ParseInteractiveFile commits :
  keepsBranches (ParseInteractiveFile commits).
Proof.
  apply keeps_readOnly. intros r. unfold ParseInteractiveFile.
  destruct (pickFile r); [|reflexivity].
  now destruct (parseListing s commits).
Qed.

Lemma keeps_sliceSHA sha : keepsBranches (sliceSHA sha).
Proof. intros r. unfold sliceSHA. now destruct (slicePrefix 7 sha). Qed.

Lemma keeps_printCommits commits : forall position,
  keepsBranches (printCommits position commits).
Proof.
  induction commits as [|c commits IH]; intros position.
  - apply keeps_readOnly, readOnly_ret.
  - cbn [printCommits]. apply keeps_bind; [apply keeps_sliceSHA|intros short].
    apply keeps_bind; [apply keeps_print|intros _]. apply IH.
Qed.

Lemma triple_conseq {A} (P P' : Repo -> Prop) (m : M A)
    (Q Q' : A -> Repo -> Prop) (E E' : Repo -> Prop) :
  triple P' m Q' E' ->
  (forall r, P r -> P' r) -> (forall a r, Q' a r -> Q a r) ->
  (forall r, E' r -> E r) ->
  triple P m Q E.
Proof.
  intros Hm HP HQ HE r Hr. specialize (Hm r (HP r Hr)).
  destruct (m r) as [[a|e|] r1]; auto.
Qed.

(** Commands that keep the branches keep both assertions. *)
Lemma keeps_pointsAt {A} (m : M A) b v :
  keepsBranches m ->
  triple (pointsAt b v) m (fun _ => pointsAt b v) (pointsAt b v).
Proof. intros Hm. exact (triple_keeps (fun rf _ => rf !! b = v) m Hm). Qed.

Lemma keeps_offBranch {A} (m : M A) b v :
  keepsBranches m ->
  triple (offBranch b v) m (fun _ => offBranch b v) (offBranch b v).
Proof.
  intros Hm.
  exact (triple_keeps (fun rf hd => rf !! b = v /\ hd <> OnBranch b) m Hm).
Qed.

(** A cherry-pick moves what is checked out and nothing else. *)
Lemma CherryPick_offBranch env sha b v :
  triple (offBranch b v) (CherryPick env sha)
         (fun _ => offBranch b v) (offBranch b v).
Proof.
  intros r [Hb Hoff]. unfold CherryPick.
  destruct (fault env r (CallCherryPick sha)); [now split|].
  destruct (resolveHead r) as [tip|]; [|now split].
  destruct (pick env r sha); [|now split|now split|now split].
  unfold offBranch, applyPick. cbn.
  destruct (head r) as [cur|h] eqn:Hhead.
  - split; [|exact Hoff]. rewrite lookup_insert_ne; [exact Hb|congruence].
  - split; [exact Hb|discriminate].
Qed.

(** Creating a branch under another name leaves [b] alone. *)
Lemma CreateBranch_pointsAt env name base b v :
  name <> b ->
  triple (pointsAt b v) (CreateBranch env name base)
         (fun _ => pointsAt b v) (pointsAt b v).
Proof.
  intros Hne r Hb. unfold CreateBranch, gets, fail, external.
  rewrite bind_unfold. destruct (refs r !! base) as [hash|]; [|exact Hb].
  destruct (fault env r _ || negb true); [exact Hb|].
  unfold pointsAt. cbn. now rewrite lookup_insert_ne.
Qed.

(** Checking out another branch leaves [b] alone and unchecked. *)
Lemma CheckoutBranch_leaves env name b v :
  name <> b ->
  triple (pointsAt b v) (CheckoutBranch env name)
         (fun _ => offBranch b v) (pointsAt b v).
Proof.
  intros Hne r Hb. unfold CheckoutBranch, external.
  destruct (fault env r _ || negb _); [exact Hb|].
  split; [exact Hb|]. cbn. congruence.
Qed.

(** The apply loop leaves alone every branch that is not checked out. *)
Lemma applyLoop_offBranch env b v pending : forall i st,
  triple (offBranch b v) (applyLoop env pending i st)
         (fun _ => offBranch b v) (offBranch b v).
Proof.
  induction pending as [|commit rest IH]; intros i st.
  - now apply triple_ret.
  - cbn [applyLoop]. destruct (String.eqb (Action commit) "drop"); [apply IH|].
    eapply triple_bind.
    { apply triple_try, CherryPick_offBranch. }
    intros [e|[]]; cbn beta iota.
    + eapply triple_bind.
      { apply triple_wrapErr, keeps_offBranch, keeps_SaveState. }
      intros ?. eapply triple_bind.
      { apply keeps_offBranch, keeps_sliceSHA. }
      intros short. now apply triple_fail.
    + eapply triple_bind; [apply keeps_offBranch, keeps_SaveState|].
      intros ?. apply IH.
Qed.

Lemma ApplyCherryPicks_offBranch env b v st :
  triple (offBranch b v) (ApplyCherryPicks env st)
         (fun _ => offBranch b v) (offBranch b v).
Proof.
  unfold ApplyCherryPicks. destruct (CurrentCommitIdx st <? 0).
  - intros r Hr. exact Hr.
  - eapply triple_bind; [apply applyLoop_offBranch|]. intros st'.
    eapply triple_bind; [apply keeps_offBranch, keeps_print|]. intros ?.
    eapply triple_bind; [apply keeps_offBranch, keeps_print|]. intros ?.
    apply keeps_offBranch, keeps_SaveState.
Qed.

(** Continue leaves alone every branch that is not checked out: the source
    branch keeps its commit as long as it is not the branch checked out
    when continue runs. *)
Lemma continue_keeps_unchecked_branches env b v :
  triple (offBranch b v) (continueRebranch env)
         (fun _ => offBranch b v) (offBranch b v).
Proof.
  unfold continueRebranch.
  eapply triple_bind;
    [apply keeps_offBranch, keeps_readOnly, validateContinue_frame|].
  intros ?. eapply triple_bind;
    [apply keeps_offBranch, keeps_readOnly, readOnly_LoadState|].
  intros st. apply ApplyCherryPicks_offBranch.
Qed.

(** Start leaves alone every branch but the temp branch it creates: the
    source branch keeps its commit unless it bears the very name start
    derives from the clock. *)
Lemma start_keeps_other_branches env baseBranch b v :
  TempBranchPrefix ++ pretty (now env) <> b ->
  triple (pointsAt b v) (startRebranch env baseBranch)
         (fun _ => pointsAt b v) (pointsAt b v).
Proof.
  intros Hne. unfold startRebranch.
  assert (Hoff : forall r, offBranch b v r -> pointsAt b v r)
    by (intros r [H _]; exact H).
  eapply triple_bind;
    [apply keeps_pointsAt, keeps_readOnly, validateStart_frame|]. intros ?.
  eapply triple_bind;
    [apply keeps_pointsAt, keeps_readOnly, readOnly_GetCurrentBranch|].
  intros sourceBranch.
  eapply triple_bind;
    [apply keeps_pointsAt, keeps_readOnly, readOnly_GetCommitsBetween|].
  intros [|c commits]; [now apply triple_fail|].
  eapply triple_bind; [apply keeps_pointsAt, keeps_print|]. intros ?.
  eapply triple_bind; [apply keeps_pointsAt, keeps_printCommits|]. intros ?.
  eapply triple_bind;
    [apply triple_wrapErr, keeps_pointsAt, keeps_CreateInteractiveFile|].
  intros ?.
  eapply triple_bind; [apply keeps_pointsAt, keeps_print|]. intros ?.
  eapply triple_bind;
    [apply triple_wrapErr, keeps_pointsAt, keeps_LaunchEditor|]. intros ?.
  eapply triple_bind;
    [apply triple_wrapErr, keeps_pointsAt, keeps_ParseInteractiveFile|].
  intros selected.
  eapply triple_bind; [apply keeps_pointsAt, keeps_print|]. intros ?.
  eapply triple_bind; [now apply CreateBranch_pointsAt|]. intros ?.
  eapply triple_bind; [now apply CheckoutBranch_leaves|]. intros ?.
  eapply triple_conseq with (P' := offBranch b v)
    (Q' := fun _ => offBranch b v) (E' := offBranch b v); auto.
  eapply triple_bind; [apply keeps_offBranch, keeps_SaveState|]. intros ?.
  apply ApplyCherryPicks_offBranch.
Qed.

(** Finish touches the branches only past its validator. *)
Lemma finish_is_guarded env r :
  fst (validateFinish env r) <> Ok tt -> snd (finishRebranch env r) = r.
Proof.
  intros Hfail. unfold finishRebranch. rewrite bind_unfold.
  pose proof (validateFinish_frame env r) as Hframe.
  destruct (validateFinish env r) as [[[]|e|] r0]; cbn in *;
    [contradiction|assumption|assumption].
Qed.

(** ** The source branch *)

(** What the lemmas above leave open is the case in which the source branch
    is itself checked out when the loop runs. *)

(** C1 at a failing input.  The source branch [toggle] holds a change
    ([t2]) and its undoing ([t3]); the operation stopped on the conflict of
    the first entry, and the source branch is checked out, clean, when
    continue is invoked.  The validator passes, the remaining entries [t2]
    and [t3] are cherry-picked onto the source branch, where both apply,
    and continue returns success with the source branch moved from [t3] to
    a new commit; the temp branch has not moved. *)
Theorem continue_on_source_moves_source :
  stateFile sourceCheckedOutRepo = Stored toggleState
  /\ head sourceCheckedOutRepo = OnBranch "toggle"
  /\ SourceBranch toggleState = "toggle"
  /\ fst (validateContinue toggleEnv sourceCheckedOutRepo) = Ok tt
  /\ refs sourceCheckedOutRepo !! "toggle" = Some "t3333333"
  /\ fst (continueRebranch toggleEnv sourceCheckedOutRepo) = Ok tt
  /\ pickedSHAs (calls (snd (continueRebranch toggleEnv sourceCheckedOutRepo)))
     = ["t2222222"; "t3333333"]
  /\ refs (snd (continueRebranch toggleEnv sourceCheckedOutRepo)) !! "toggle"
     = Some "nt3333333"
  /\ refs (snd (continueRebranch toggleEnv sourceCheckedOutRepo))
       !! "rebranch-temp-100" = Some "c1111111".
Proof. vm_compute. repeat split. Qed.

(** * Part III: further properties of the code *)

(** ** Parsing an edited listing *)

Lemma normalizeAction_words a a' :
  normalizeAction a = Some a' ->
  (a = "pick" \/ a = "p" \/ a = "drop" \/ a = "d")
  /\ (a' = "pick" \/ a' = "drop").
Proof.
  unfold normalizeAction.
  destruct (String.eqb_spec a "pick") as [->|_]; cbn; [intros [= <-]; auto|].
  destruct (String.eqb_spec a "p") as [->|_]; cbn; [intros [= <-]; auto|].
  destruct (String.eqb_spec a "drop") as [->|_]; cbn; [intros [= <-]; auto 6|].
  destruct (String.eqb_spec a "d") as [->|_]; cbn; [intros [= <-]; auto 6|].
  discriminate.
Qed.

(** An edited line, trimmed and split into fields, starts with its action
    word and the abbreviation. *)
Lemma editedLine_fields (a : string) (c : CommitInfo) :
  a = "pick" \/ a = "p" \/ a = "drop" \/ a = "d" ->
  SHA c <> EmptyString -> noSpace (SHA c) = true ->
  let line := TrimSpace (editedLine a c) in
  isEmpty line = false
  /\ HasPrefix line "#" = false
  /\ exists more, Fields line = a :: shortSHA (SHA c) :: more.
Proof.
  intros Ha Hne Hword.
  destruct (shortSHA_word _ Hne Hword) as [Hshort Hsw].
  assert (Haw : isEmpty a = false /\ noSpace a = true)
    by (destruct Ha as [->|[->|[->| ->]]]; split; reflexivity).
  destruct Haw as [Hanon Haword].
  destruct (wordLine_fields a (shortSHA (SHA c)) (Message c))
    as (Hline & Hnonempty & Hfields);
    [assumption|assumption|assumption|assumption|].
  cbv zeta in *. unfold editedLine.
  split; [exact Hnonempty|]. split; [|exact Hfields].
  rewrite Hline. now destruct Ha as [->|[->|[->| ->]]].
Qed.

Lemma editedLine_singleLine (a : string) (c : CommitInfo) :
  a = "pick" \/ a = "p" \/ a = "drop" \/ a = "d" ->
  noSpace (SHA c) = true -> singleLine (Message c) = true ->
  singleLine (editedLine a c) = true.
Proof.
  intros Ha Hword Hmsg. unfold singleLine, editedLine.
  rewrite !allChars_app. fold (singleLine (Message c)). rewrite Hmsg.
  assert (Hs : singleLine (shortSHA (SHA c)) = true).
  { apply noSpace_singleLine. unfold shortSHA.
    destruct (7 <? String.length (SHA c))%nat; [|assumption].
    now apply noSpace_substring. }
  unfold singleLine in Hs. rewrite Hs.
  now destruct Ha as [->|[->|[->| ->]]].
Qed.

Lemma parseLines_edited commitMap picks : forall rest lineNum selected,
  Forall (fun ac => is_Some (normalizeAction (fst ac))
                    /\ SHA (snd ac) <> EmptyString
                    /\ noSpace (SHA (snd ac)) = true
                    /\ commitMap !! shortSHA (SHA (snd ac)) = Some (snd ac))
         picks ->
  parseLines commitMap
    (map (fun ac => editedLine (fst ac) (snd ac)) picks ++ rest) lineNum selected
  = parseLines commitMap rest (lineNum + Z.of_nat (length picks))
      (selected ++ map (fun ac => withAction (normalized (fst ac)) (snd ac)) picks).
Proof.
  induction picks as [|[a c] picks IH]; intros rest lineNum selected Hall.
  - cbn. now rewrite Z.add_0_r, app_nil_r.
  - inversion Hall as [|? ? ([a' Ha'] & Hne & Hword & Hfound) Hrest]; subst.
    cbn [fst snd] in *.
    cbn [map fst snd]. rewrite <- app_comm_cons. cbn [parseLines].
    destruct (normalizeAction_words _ _ Ha') as [Hwords _].
    destruct (editedLine_fields a c Hwords Hne Hword)
      as (Hnonempty & Hcomment & more & Hfields).
    cbv zeta in Hnonempty, Hcomment, Hfields.
    rewrite Hnonempty, Hcomment, Hfields. cbn [orb].
    rewrite Ha', Hfound, (IH _ _ _ Hrest).
    unfold normalized at 2. rewrite Ha'. unfold withAction at 2.
    rewrite <- app_assoc. cbn [app length]. f_equal. lia.
Qed.

(** X1: the parser on an edited listing.  Take commits whose identifiers
    are words with distinct seven-byte abbreviations and whose messages are
    single lines, and a listing made of the header and of lines that name
    some of those commits, in any order, each behind one of the words pick,
    p, drop, d.  Parsing yields the named commits in the order of the
    lines, with identifiers and messages as in the original commits and
    the action normalised to "pick" or "drop". *)
Theorem parse_edited_listing (originals : list CommitInfo)
    (picks : list (string * CommitInfo)) :
  picks <> [] ->
  Forall (fun c => SHA c <> EmptyString /\ noSpace (SHA c) = true
                   /\ singleLine (Message c) = true) originals ->
  List.NoDup (map (fun c => shortSHA (SHA c)) originals) ->
  Forall (fun ac => is_Some (normalizeAction (fst ac))
                    /\ In (snd ac) originals) picks ->
  parseListing (editedContent picks) originals
  = inr (map (fun ac => withAction (normalized (fst ac)) (snd ac)) picks).
Proof.
  intros Hne Hall Hnd Hpicks. unfold parseListing, editedContent.
  rewrite List.Forall_forall in Hall, Hpicks.
  change (listingHeader ++ map (fun ac => editedLine (fst ac) (snd ac)) picks)%list
    with ("# Interactive rebranch - Edit the list of commits to apply"
          :: (tl listingHeader
              ++ map (fun ac => editedLine (fst ac) (snd ac)) picks))%list.
  rewrite splitLines_join.
  2:{ constructor; [reflexivity|]. apply Forall_app. split.
      - repeat constructor.
      - apply List.Forall_map. apply List.Forall_forall. intros [a c] Hin.
        destruct (Hpicks _ Hin) as ([a' Ha'] & Hc). cbn [fst snd] in *.
        destruct (Hall _ Hc) as (_ & Hword & Hmsg).
        apply editedLine_singleLine; auto.
        now destruct (normalizeAction_words _ _ Ha'). }
  change ("# Interactive rebranch - Edit the list of commits to apply"
          :: (tl listingHeader
              ++ map (fun ac => editedLine (fst ac) (snd ac)) picks))%list
    with (listingHeader
          ++ map (fun ac => editedLine (fst ac) (snd ac)) picks)%list.
  rewrite <- app_assoc.
  rewrite parseLines_skip by reflexivity.
  rewrite parseLines_edited.
  2:{ apply List.Forall_forall. intros [a c] Hin.
      destruct (Hpicks _ Hin) as (Ha & Hc). cbn [fst snd] in *.
      destruct (Hall _ Hc) as (Hsha & Hword & _).
      repeat split; auto. now apply buildCommitMap_lookup. }
  cbn. destruct picks; [contradiction|reflexivity].
Qed.

Lemma parse_edited_listing_witness :
  parseListing
    (editedContent [ ("d", mkCommitInfo "f2222222" "Feature two" "pick");
                     ("p", mkCommitInfo "f1111111" "Feature one" "pick") ])
    examplePlan
  = inr [ mkCommitInfo "f2222222" "Feature two" "drop";
          mkCommitInfo "f1111111" "Feature one" "pick" ].
Proof.
  apply (parse_edited_listing examplePlan
           [ ("d", mkCommitInfo "f2222222" "Feature two" "pick");
             ("p", mkCommitInfo "f1111111" "Feature one" "pick") ]).
  - discriminate.
  - repeat (constructor; [repeat split; discriminate|]). constructor.
  - repeat (constructor; [cbn; intuition discriminate|]). constructor.
  - constructor; [split; [now exists "drop"|right; left; reflexivity]|].
    constructor; [split; [now exists "pick"|left; reflexivity]|].
    constructor.
Defined.

Lemma render_parse_single_line_witness :
  parseListing (listingContent examplePlan) examplePlan = inr examplePlan.
Proof.
  apply (render_parse_single_line examplePlan).
  - discriminate.
  - repeat (constructor; [repeat split; discriminate|]). constructor.
  - repeat (constructor; [cbn; intuition discriminate|]). constructor.
Defined.

(** ** Rejected listings *)

(** The line loop over a concatenation: the first part, then the second
    with the line count and the selection the first part left. *)
Lemma parseLines_app commitMap l1 : forall l2 lineNum selected,
  parseLines commitMap (l1 ++ l2) lineNum selected
  = match parseLines commitMap l1 lineNum selected with
    | inl e => inl e
    | inr selected' =>
        parseLines commitMap l2 (lineNum + Z.of_nat (length l1)) selected'
    end.
Proof.
  induction l1 as [|raw l1 IH]; intros l2 lineNum selected.
  - cbn. now rewrite Z.add_0_r.
  - rewrite <- app_comm_cons. cbn [parseLines length].
    assert (Hn : lineNum + Z.of_nat (S (length l1))
                 = lineNum + 1 + Z.of_nat (length l1)) by lia.
    rewrite Hn.
    destruct (isEmpty (TrimSpace raw) || HasPrefix (TrimSpace raw) "#");
      [apply IH|].
    destruct (Fields (TrimSpace raw)) as [|action [|short more]];
      try reflexivity.
    destruct (normalizeAction action); [|reflexivity].
    destruct (commitMap !! short); [apply IH|reflexivity].
Qed.

(** X3: an unrecognised action word is reported with the word and the
    1-based number of its line.  Whatever the file holds after it, when the
    lines before a line parse and that line, neither blank nor a comment,
    starts with a word other than pick, p, drop, d followed by at least one
    more field, parsing fails with the invalid-action error for that word
    at that line. *)
Theorem parse_rejects_unknown_action (data : string)
    (originals : list CommitInfo) (before after : list string)
    (raw action short : string) (more : list string)
    (selected : list CommitInfo) :
  splitLines data = (before ++ raw :: after)%list ->
  parseLines (buildCommitMap originals) before 0 [] = inr selected ->
  skipped raw = false ->
  Fields (TrimSpace raw) = action :: short :: more ->
  normalizeAction action = None ->
  parseListing data originals
  = inl (InvalidAction action (Z.of_nat (length before) + 1)).
Proof.
  intros Hsplit Hbefore Hline Hfields Haction.
  unfold parseListing. rewrite Hsplit, parseLines_app, Hbefore.
  cbn [parseLines]. unfold skipped in Hline.
  now rewrite Hline, Hfields, Haction.
Qed.

Lemma parse_rejects_unknown_action_witness :
  parseListing ("# Interactive rebranch" ++ lf
                ++ "pick f111111 Feature one" ++ lf
                ++ "squash f222222 Feature two" ++ lf) examplePlan
  = inl (InvalidAction "squash" 3).
Proof.
  apply (parse_rejects_unknown_action _ examplePlan
           ["# Interactive rebranch"; "pick f111111 Feature one"]
           [EmptyString] "squash f222222 Feature two" "squash" "f222222"
           ["Feature"; "two"]
           [mkCommitInfo "f1111111" "Feature one" "pick"]);
    reflexivity.
Defined.

Lemma buildCommitMap_fold_In (commits : list CommitInfo) :
  forall (m : gmap string CommitInfo) k c,
  fold_left (fun m c => <[shortSHA (SHA c) := c]> m) commits m !! k = Some c ->
  (In c commits /\ shortSHA (SHA c) = k) \/ m !! k = Some c.
Proof.
  induction commits as [|x commits IH]; intros m k c Hfound; [now right|].
  cbn [fold_left] in Hfound. apply IH in Hfound as [[Hin Hk]|Hm].
  - left. split; [now right|exact Hk].
  - destruct (decide (shortSHA (SHA x) = k)) as [Heq|Hne].
    + subst k. rewrite lookup_insert_eq in Hm. injection Hm as <-.
      left. split; [now left|reflexivity].
    + rewrite lookup_insert_ne in Hm by assumption. now right.
Qed.

(** What the table finds is one of the original commits, filed under its
    own abbreviation. *)
Lemma buildCommitMap_In (commits : list CommitInfo) k c :
  buildCommitMap commits !! k = Some c ->
  In c commits /\ shortSHA (SHA c) = k.
Proof.
  intros H. apply buildCommitMap_fold_In in H as [H|H]; [exact H|].
  rewrite lookup_empty in H. discriminate.
Qed.

Lemma buildCommitMap_None (commits : list CommitInfo) k :
  ~ In k (map (fun c => shortSHA (SHA c)) commits) ->
  buildCommitMap commits !! k = None.
Proof.
  intros Hk. unfold buildCommitMap. rewrite buildCommitMap_other by assumption.
  apply lookup_empty.
Qed.

(** A no-break space between the action word and the abbreviation, or a
    next-line character after the abbreviation, separates the fields as a
    blank does, and the line is accepted. *)
Lemma listing_with_white_space_beyond_ascii :
  parseListing ("pick" ++ noBreakSpace ++ "f111111 Feature one" ++ lf
                ++ "drop f222222" ++ nextLine ++ "Feature two" ++ lf)
               examplePlan
  = inr [ mkCommitInfo "f1111111" "Feature one" "pick";
          mkCommitInfo "f2222222" "Feature two" "drop" ].
Proof. vm_compute. reflexivity. Qed.

(** X4: an abbreviation that belongs to none of the original commits is
    reported with the 1-based number of its line: when the lines before a
    line parse and that line holds a recognised action word followed by a
    field that no original commit abbreviates to, parsing fails with the
    unknown-commit error for that field at that line. *)
Theorem parse_rejects_unknown_commit (data : string)
    (originals : list CommitInfo) (before after : list string)
    (raw action short : string) (more : list string)
    (selected : list CommitInfo) :
  splitLines data = (before ++ raw :: after)%list ->
  parseLines (buildCommitMap originals) before 0 [] = inr selected ->
  skipped raw = false ->
  Fields (TrimSpace raw) = action :: short :: more ->
  is_Some (normalizeAction action) ->
  ~ In short (map (fun c => shortSHA (SHA c)) originals) ->
  parseListing data originals
  = inl (UnknownCommit short (Z.of_nat (length before) + 1)).
Proof.
  intros Hsplit Hbefore Hline Hfields [a Haction] Hshort.
  unfold parseListing. rewrite Hsplit, parseLines_app, Hbefore.
  cbn [parseLines]. unfold skipped in Hline.
  now rewrite Hline, Hfields, Haction, buildCommitMap_None.
Qed.

Lemma parse_rejects_unknown_commit_witness :
  parseListing ("pick f111111 Feature one" ++ lf
                ++ "pick abcdef0 Something else" ++ lf) examplePlan
  = inl (UnknownCommit "abcdef0" 2).
Proof.
  apply (parse_rejects_unknown_commit _ examplePlan
           ["pick f111111 Feature one"] [EmptyString]
           "pick abcdef0 Something else" "pick" "abcdef0"
           ["Something"; "else"]
           [mkCommitInfo "f1111111" "Feature one" "pick"]);
    try reflexivity.
  - now exists "pick".
  - cbn. intuition discriminate.
Defined.

(** X5: a file in which every line is blank or a comment selects nothing,
    and is rejected as such whatever the original commits are. *)
Theorem parse_rejects_empty_selection (data : string)
    (originals : list CommitInfo) :
  forallb skipped (splitLines data) = true ->
  parseListing data originals = inl NoCommitsSelected.
Proof.
  intros Hskip. unfold parseListing.
  rewrite <- (app_nil_r (splitLines data)).
  now rewrite parseLines_skip.
Qed.

Lemma parse_rejects_empty_selection_witness :
  parseListing (listingContent []) examplePlan = inl NoCommitsSelected.
Proof.
  apply parse_rejects_empty_selection. reflexivity.
Defined.

Lemma parseLines_entries commitMap (P : CommitInfo -> Prop) lines :
  forall lineNum selected result,
  (forall k c a, commitMap !! k = Some c -> a = "pick" \/ a = "drop" ->
                 P (withAction a c)) ->
  Forall P selected ->
  parseLines commitMap lines lineNum selected = inr result ->
  Forall P result
  /\ (length result <= length selected + length lines)%nat
  /\ (length selected <= length result)%nat.
Proof.
  induction lines as [|raw lines IH]; intros lineNum selected result HP Hsel Hrun.
  - cbn in Hrun. injection Hrun as <-. cbn. split; [assumption|lia].
  - cbn [parseLines] in Hrun. cbn [length].
    destruct (isEmpty (TrimSpace raw) || HasPrefix (TrimSpace raw) "#").
    { destruct (IH _ _ _ HP Hsel Hrun) as (H1 & H2 & H3).
      split; [assumption|lia]. }
    destruct (Fields (TrimSpace raw)) as [|action [|short more]];
      try discriminate.
    destruct (normalizeAction action) as [a|] eqn:Ha; [|discriminate].
    destruct (commitMap !! short) as [c|] eqn:Hc; [|discriminate].
    assert (Hsel' : Forall P (selected ++ [withAction a c])).
    { apply Forall_app. split; [assumption|]. constructor; [|constructor].
      apply (HP short); [assumption|].
      now destruct (normalizeAction_words _ _ Ha). }
    destruct (IH _ _ _ HP Hsel' Hrun) as (H1 & H2 & H3).
    rewrite length_app in H2, H3. cbn in H2, H3.
    split; [assumption|lia].
Qed.

(** X6: whatever the file holds, a successful parse returns at least one
    entry and at most one per line, and every entry is one of the original
    commits (same identifier, same message) with the action "pick" or
    "drop": the summary typed in the file is never used. *)
Theorem parse_returns_original_commits (data : string)
    (originals selected : list CommitInfo) :
  parseListing data originals = inr selected ->
  selected <> []
  /\ (length selected <= length (splitLines data))%nat
  /\ Forall (fun entry =>
               exists c, In c originals
                         /\ SHA entry = SHA c /\ Message entry = Message c
                         /\ (Action entry = "pick" \/ Action entry = "drop"))
            selected.
Proof.
  unfold parseListing. intros Hrun.
  destruct (parseLines (buildCommitMap originals) (splitLines data) 0 [])
    as [e|result] eqn:Hlines; [discriminate|].
  destruct result as [|entry result]; [discriminate|].
  injection Hrun as <-.
  eapply parseLines_entries in Hlines as (Hall & Hlen & _).
  - split; [discriminate|]. split; [exact Hlen|exact Hall].
  - intros k c a Hfound Ha. exists c.
    apply buildCommitMap_In in Hfound as [Hin _]. cbn. auto.
  - constructor.
Qed.

Lemma parse_returns_original_commits_witness :
  examplePlan <> []
  /\ (length examplePlan <= length (splitLines (listingContent examplePlan)))%nat.
Proof.
  destruct (parse_returns_original_commits (listingContent examplePlan)
              examplePlan examplePlan eq_refl) as (Hne & Hlen & _).
  split; assumption.
Defined.

(** ** The record file *)

(** X7: what clearing the record leaves behind.  After a successful
    [ClearState] no record exists, loading fails with the read error, and
    clearing again succeeds without a change; a failed [ClearState] is a
    failed removal and leaves the file as it was.  Branches and [HEAD] are
    untouched either way. *)
Theorem clear_state_outcomes (env : Env) (r : Repo) :
  let r' := snd (ClearState env r) in
  match fst (ClearState env r) with
  | Ok _ =>
      StateExists r' = false
      /\ fst (LoadState env r') = Fail StateReadFailed
      /\ ClearState env r' = (Ok tt, r')
  | Fail e =>
      e = StateRemoveFailed /\ StateExists r = true
      /\ stateFile r' = stateFile r
  | Panic => False
  end
  /\ refs r' = refs r /\ head r' = head r.
Proof.
  cbv zeta. split; [|apply keeps_ClearState].
  unfold ClearState. unfold_m.
  destruct (StateExists r) eqn:Hex; cbn.
  - destruct (fault env r CallRemoveState); cbn; [auto|].
    unfold LoadState, StateExists. cbn.
    now destruct (fault env _ CallReadState).
  - unfold LoadState. rewrite Hex. cbn. split; [reflexivity|].
    unfold StateExists in Hex. destruct (stateFile r); try discriminate.
    now destruct (fault env r CallReadState).
Qed.

(** ** What the validators require *)

Lemma HasOngoingOperation_none (r : Repo) :
  fst (HasOngoingOperation r) = false
  <-> markers r = [] /\ stateFile r = NoFile.
Proof.
  unfold HasOngoingOperation.
  destruct (markers r); [|split; [discriminate|intros [? _]; discriminate]].
  destruct (stateFile r); cbn; split; auto; try discriminate;
    intros [_ ?]; discriminate.
Qed.

(** X8: the start validator passes exactly when [HEAD] resolves, no record
    file and no marker of a foreign operation exists, the status can be
    read and shows a clean work tree, the base branch exists, and [HEAD]
    is on a branch other than the base. *)
Theorem validateStart_passes_iff (env : Env) (baseBranch : string) (r : Repo) :
  fst (validateStart env baseBranch r) = Ok tt
  <-> is_Some (resolveHead r)
      /\ stateFile r = NoFile
      /\ markers r = []
      /\ fault env r CallStatus = false
      /\ dirty r = false
      /\ is_Some (refs r !! baseBranch)
      /\ exists b, head r = OnBranch b /\ b <> baseBranch.
Proof.
  unfold validateStart, IsCleanWorkingDirectory, HasUncommittedChanges,
    GetCurrentBranch, BranchExists.
  unfold_m. rewrite IsValidRepository_eq.
  destruct (resolveHead r) as [tip|] eqn:Hhead; cbn.
  2:{ split; [discriminate|]. intros ([? ?] & _). discriminate. }
  unfold StateExists.
  destruct (stateFile r) eqn:Hfile; cbn;
    try (split; [discriminate|]; intros (_ & ? & _); discriminate).
  destruct (HasOngoingOperation r) as [ongoing kind] eqn:Hop.
  pose proof (HasOngoingOperation_none r) as Hnone.
  rewrite Hop, Hfile in Hnone. cbn in Hnone. cbn.
  destruct ongoing; cbn.
  { split; [discriminate|]. intros (_ & _ & Hm & _).
    assert (true = false) by (apply Hnone; auto). discriminate. }
  assert (Hmark : markers r = []) by now apply Hnone.
  destruct (fault env r CallStatus); cbn.
  { split; [discriminate|]. intros (_ & _ & _ & ? & _). discriminate. }
  destruct (dirty r); cbn.
  { split; [discriminate|]. intros (_ & _ & _ & _ & ? & _). discriminate. }
  destruct (refs r !! baseBranch) as [baseTip|] eqn:Hbase; cbn.
  2:{ rewrite ?bool_decide_eq_false_2 by (intros [? ?]; discriminate). cbn.
      split; [discriminate|]. intros (_ & _ & _ & _ & _ & [? ?] & _).
      discriminate. }
  rewrite ?bool_decide_eq_true_2 by eauto. cbn. rewrite ?Hhead.
  destruct (head r) as [b|h] eqn:Hh; cbn.
  2:{ split; [discriminate|]. intros (_ & _ & _ & _ & _ & _ & b & ? & _).
      discriminate. }
  destruct (String.eqb_spec b baseBranch) as [->|Hne]; cbn.
  - split; [discriminate|].
    intros (_ & _ & _ & _ & _ & _ & b & [= <-] & Hb). contradiction.
  - split; [|reflexivity]. intros _. repeat split; eauto.
Qed.

(** X9: the continue validator passes exactly when [HEAD] resolves, the
    record can be read and decoded, its stage is "conflicts", and the
    status can be read and shows a clean work tree.  It asks nothing about
    which branch is checked out. *)
Theorem validateContinue_passes_iff (env : Env) (r : Repo) :
  fst (validateContinue env r) = Ok tt
  <-> is_Some (resolveHead r)
      /\ fault env r CallReadState = false
      /\ (exists st, stateFile r = Stored st /\ Stage st = "conflicts")
      /\ fault env r CallStatus = false
      /\ dirty r = false.
Proof.
  unfold validateContinue, IsCleanWorkingDirectory, HasUncommittedChanges,
    LoadState.
  unfold_m. rewrite IsValidRepository_eq.
  destruct (resolveHead r) as [tip|]; cbn.
  2:{ split; [discriminate|]. intros ([? ?] & _). discriminate. }
  unfold StateExists.
  destruct (stateFile r) as [| |st] eqn:Hfile; cbn;
    destruct (fault env r CallReadState) eqn:Hread; cbn;
    rewrite ?Hfile; cbn;
    try (split; [discriminate|]; intros (_ & ? & (? & ? & _) & _);
         discriminate).
  destruct (String.eqb_spec (Stage st) "conflicts") as [Hstage|Hstage]; cbn.
  2:{ split; [discriminate|]. intros (_ & _ & (st' & [= <-] & ?) & _).
      contradiction. }
  destruct (fault env r CallStatus); cbn.
  { split; [discriminate|]. intros (_ & _ & _ & ? & _). discriminate. }
  destruct (dirty r); cbn.
  { split; [discriminate|]. intros (_ & _ & _ & _ & ?). discriminate. }
  split; [|reflexivity]. intros _. repeat split; eauto.
Qed.

(** X10: the finish validator passes exactly when [HEAD] resolves, the
    record can be read and decoded, its stage is "done", [HEAD] is on the
    temp branch the record names, and the status can be read and shows a
    clean work tree. *)
Theorem validateFinish_passes_iff (env : Env) (r : Repo) :
  fst (validateFinish env r) = Ok tt
  <-> is_Some (resolveHead r)
      /\ fault env r CallReadState = false
      /\ (exists st, stateFile r = Stored st /\ Stage st = "done"
                     /\ head r = OnBranch (TempBranch st))
      /\ fault env r CallStatus = false
      /\ dirty r = false.
Proof.
  unfold validateFinish, IsCleanWorkingDirectory, HasUncommittedChanges,
    LoadState, GetCurrentBranch.
  unfold_m. rewrite IsValidRepository_eq.
  destruct (resolveHead r) as [tip|] eqn:Hhead; cbn.
  2:{ split; [discriminate|]. intros ([? ?] & _). discriminate. }
  unfold StateExists.
  destruct (stateFile r) as [| |st] eqn:Hfile; cbn;
    destruct (fault env r CallReadState) eqn:Hread; cbn;
    rewrite ?Hfile; cbn;
    try (split; [discriminate|]; intros (_ & ? & (? & ? & _) & _);
         discriminate).
  destruct (String.eqb_spec (Stage st) "done") as [Hstage|Hstage]; cbn.
  2:{ split; [discriminate|]. intros (_ & _ & (st' & [= <-] & ? & _) & _).
      contradiction. }
  rewrite Hhead.
  destruct (head r) as [b|h] eqn:Hh; cbn.
  2:{ split; [discriminate|].
      intros (_ & _ & (st' & _ & _ & ?) & _). discriminate. }
  destruct (String.eqb_spec b (TempBranch st)) as [->|Hne]; cbn.
  2:{ split; [discriminate|].
      intros (_ & _ & (st' & [= <-] & _ & [= ?]) & _). contradiction. }
  destruct (fault env r CallStatus); cbn.
  { split; [discriminate|]. intros (_ & _ & _ & ? & _). discriminate. }
  destruct (dirty r); cbn.
  { split; [discriminate|]. intros (_ & _ & _ & _ & ?). discriminate. }
  split; [|reflexivity]. intros _. repeat split; eauto.
Qed.

(** X11: no validator changes anything: whatever they return, the
    repository, its files, the output and the calls issued are as
    before. *)
Theorem validators_change_nothing (env : Env) (baseBranch : string) (r : Repo) :
  snd (validateStart env baseBranch r) = r
  /\ snd (validateContinue env r) = r
  /\ snd (validateFinish env r) = r
  /\ snd (validateAbort env r) = r.
Proof.
  repeat split.
  - apply validateStart_frame.
  - apply validateContinue_frame.
  - apply validateFinish_frame.
  - apply validateAbort_frame.
Qed.

(** X12: with no record file, continue, finish and abort each fail with
    "no rebranch operation in progress" and change nothing, provided
    [HEAD] resolves (otherwise each reports the invalid repository). *)
Theorem no_record_no_operation (env : Env) (r : Repo) :
  is_Some (resolveHead r) ->
  stateFile r = NoFile ->
  continueRebranch env r = (Fail NoOperationInProgress, r)
  /\ finishRebranch env r = (Fail NoOperationInProgress, r)
  /\ abortRebranch env r = (Fail NoOperationInProgress, r).
Proof.
  intros [tip Hhead] Hfile.
  unfold continueRebranch, finishRebranch, abortRebranch,
    validateContinue, validateFinish, validateAbort.
  unfold_m. rewrite !IsValidRepository_eq, Hhead. unfold StateExists.
  now rewrite Hfile.
Qed.

Lemma no_record_no_operation_witness :
  continueRebranch exampleEnv exampleRepo = (Fail NoOperationInProgress, exampleRepo)
  /\ finishRebranch exampleEnv exampleRepo = (Fail NoOperationInProgress, exampleRepo)
  /\ abortRebranch exampleEnv exampleRepo = (Fail NoOperationInProgress, exampleRepo).
Proof.
  apply no_record_no_operation; [now exists "f2222222"|reflexivity].
Defined.

(** X13: the stage gates.  With a readable record whose stage is not
    "done", finish fails with the not-ready error naming the stage; with
    one whose stage is not "conflicts", continue fails with the
    not-waiting error naming the stage.  Neither changes anything. *)
Theorem wrong_stage_is_rejected (env : Env) (r : Repo) (st : RebranchState) :
  is_Some (resolveHead r) ->
  stateFile r = Stored st ->
  fault env r CallReadState = false ->
  (Stage st <> "done" ->
   finishRebranch env r = (Fail (NotReadyToFinish (Stage st)), r))
  /\ (Stage st <> "conflicts" ->
      continueRebranch env r = (Fail (NotWaitingForConflicts (Stage st)), r)).
Proof.
  intros [tip Hhead] Hfile Hread. split; intros Hstage.
  - unfold finishRebranch, validateFinish, LoadState. unfold_m.
    rewrite IsValidRepository_eq, Hhead. unfold StateExists.
    rewrite Hfile. cbn. rewrite Hread, Hfile. cbn.
    now destruct (String.eqb_spec (Stage st) "done").
  - unfold continueRebranch, validateContinue, LoadState. unfold_m.
    rewrite IsValidRepository_eq, Hhead. unfold StateExists.
    rewrite Hfile. cbn. rewrite Hread, Hfile. cbn.
    now destruct (String.eqb_spec (Stage st) "conflicts").
Qed.

Lemma wrong_stage_is_rejected_witness :
  finishRebranch exampleEnv (midRepo 0 "conflicts")
  = (Fail (NotReadyToFinish "conflicts"), midRepo 0 "conflicts")
  /\ continueRebranch exampleEnv (midRepo 1 "done")
     = (Fail (NotWaitingForConflicts "done"), midRepo 1 "done").
Proof.
  split.
  - apply (wrong_stage_is_rejected exampleEnv (midRepo 0 "conflicts")
             (exampleState 0 "conflicts"));
      [now exists "b1111111"|reflexivity|reflexivity|discriminate].
  - apply (wrong_stage_is_rejected exampleEnv (midRepo 1 "done")
             (exampleState 1 "done"));
      [now exists "b1111111"|reflexivity|reflexivity|discriminate].
Defined.

(** ** The apply loop, run to its end *)

Lemma withCursor_same st : withCursor (CurrentCommitIdx st) st = st.
Proof. now destruct st. Qed.

Lemma applyLoop_complete (env : Env) pending : forall i st r st' r',
  applyLoop env pending i st r = (Ok st', r') ->
  exists new,
    calls r' = (calls r ++ new)%list
    /\ pickedSHAs new = map SHA (List.filter notDrop pending).
Proof.
  induction pending as [|commit rest IH]; intros i st r st' r' Hrun.
  - cbn in Hrun. unfold ret in Hrun. injection Hrun as <- <-.
    exists []. now rewrite app_nil_r.
  - rewrite applyLoop_cons in Hrun. cbn [List.filter]. unfold notDrop at 1.
    destruct (String.eqb (Action commit) "drop"); cbn [negb];
      [now apply IH in Hrun|].
    pose proof (CherryPick_calls env (SHA commit) r) as Hpick.
    destruct (CherryPick env (SHA commit) r) as [[[]|e|] r1]; cbn in Hpick.
    + rewrite bind_unfold in Hrun.
      pose proof (SaveState_calls env (withCursor i st) r1) as Hsave.
      destruct (SaveState env (withCursor i st) r1) as [[[]|e|] r2];
        cbn in Hsave; try discriminate.
      apply IH in Hrun as (new & Hcalls & Hpicked).
      exists ([CallCherryPick (SHA commit); CallSaveState (withCursor i st)]
              ++ new)%list.
      rewrite Hcalls, Hsave, Hpick, <- !app_assoc. cbn.
      split; [reflexivity|]. f_equal. exact Hpicked.
    + rewrite bind_unfold in Hrun. unfold wrapErr in Hrun.
      destruct (SaveState env _ r1) as [[[]|e'|] r2]; try discriminate.
      unfold bind, sliceSHA, fail, panic, ret in Hrun.
      destruct (slicePrefix 7 (SHA commit)); discriminate.
    + discriminate.
Qed.

(** X14: when [ApplyCherryPicks] returns without error, every entry from
    the cursor on whose action is not "drop" has been handed to
    cherry-pick, once and in plan order, no dropped entry has, and the
    record on disk is the one the loop was given with the stage "done" and
    a cursor not before the one it started from. *)
Theorem apply_runs_to_done (env : Env) (st : RebranchState) (r r' : Repo) :
  0 <= CurrentCommitIdx st ->
  ApplyCherryPicks env st r = (Ok tt, r') ->
  exists new j,
    calls r' = (calls r ++ new)%list
    /\ pickedSHAs new
       = map SHA (List.filter notDrop
                    (drop (Z.to_nat (CurrentCommitIdx st)) (CommitsToApply st)))
    /\ CurrentCommitIdx st <= j
    /\ stateFile r' = Stored (withStage "done" (withCursor j st)).
Proof.
  intros Hcursor Hrun. unfold ApplyCherryPicks in Hrun.
  destruct (Z.ltb_spec (CurrentCommitIdx st) 0); [lia|].
  rewrite bind_unfold in Hrun.
  destruct (applyLoop env _ (CurrentCommitIdx st) st r) as [[st'|e|] r0] eqn:Hloop;
    try discriminate.
  destruct (applyLoop_complete env _ _ _ _ _ _ Hloop) as (new & Hcalls & Hpicked).
  assert (Hst : exists j, CurrentCommitIdx st <= j /\ st' = withCursor j st).
  { apply applyLoop_state in Hloop as [->|(j & Hj & ->)].
    - exists (CurrentCommitIdx st). split; [lia|]. now rewrite withCursor_same.
    - exists j. split; [lia|reflexivity]. }
  destruct Hst as (j & Hj & ->).
  unfold bind, print, SaveState, external in Hrun. cbn in Hrun.
  match type of Hrun with
  | (if ?b then _ else _) = _ => destruct b; [discriminate|]
  end.
  injection Hrun as <-. cbn.
  exists (new ++ [CallSaveState (withStage "done" (withCursor j st))])%list, j.
  rewrite Hcalls, <- app_assoc. split; [reflexivity|].
  rewrite pickedSHAs_app. cbn. rewrite app_nil_r. auto.
Qed.

Lemma apply_runs_to_done_witness :
  exists new,
    calls (snd (ApplyCherryPicks exampleEnv (exampleState 0 "picking")
                  (midRepo 0 "picking")))
    = ([] ++ new)%list
    /\ pickedSHAs new = ["f1111111"; "f2222222"].
Proof.
  destruct (apply_runs_to_done exampleEnv (exampleState 0 "picking")
              (midRepo 0 "picking")
              (snd (ApplyCherryPicks exampleEnv (exampleState 0 "picking")
                      (midRepo 0 "picking"))))
    as (new & j & Hcalls & Hpicked & _).
  - vm_compute. discriminate.
  - vm_compute. reflexivity.
  - exists new. split; [exact Hcalls|exact Hpicked].
Defined.

(** ** Finish *)

Lemma validateFinish_ok (env : Env) (r : Repo) :
  fst (validateFinish env r) = Ok tt ->
  fault env r CallReadState = false
  /\ exists st tip, stateFile r = Stored st
                    /\ head r = OnBranch (TempBranch st)
                    /\ refs r !! TempBranch st = Some tip.
Proof.
  unfold validateFinish, IsCleanWorkingDirectory, HasUncommittedChanges,
    LoadState, GetCurrentBranch.
  unfold_m. rewrite IsValidRepository_eq.
  destruct (resolveHead r) as [tip|] eqn:Hhead; cbn; [|discriminate].
  unfold StateExists.
  destruct (stateFile r) as [| |st] eqn:Hfile; cbn; try discriminate;
    destruct (fault env r CallReadState) eqn:Hread; cbn;
    rewrite ?Hfile; cbn; try discriminate.
  destruct (String.eqb (Stage st) "done"); cbn; [|discriminate].
  rewrite Hhead.
  destruct (head r) as [b|h] eqn:Hh; cbn; [|discriminate].
  destruct (String.eqb_spec b (TempBranch st)) as [->|Hne]; cbn;
    [|discriminate].
  intros _. split; [reflexivity|]. exists st, tip. repeat split.
  unfold resolveHead in Hhead. now rewrite Hh in Hhead.
Qed.

(** X15: what a finish does.  When the finish validator passes, the source
    branch exists under a name other than the temp branch's, and neither
    the deletion, the rename nor the removal of the record fails in the
    environment, finish succeeds: the source branch name now points at the
    commit the temp branch pointed at and is checked out, the temp branch
    and the record are gone, and every other branch is where it was. *)
Theorem finish_replaces_source (env : Env) (r : Repo) (st : RebranchState) :
  fst (validateFinish env r) = Ok tt ->
  stateFile r = Stored st ->
  SourceBranch st <> TempBranch st ->
  is_Some (refs r !! SourceBranch st) ->
  (forall r' c,
      In c [CallDeleteBranch (SourceBranch st);
            CallRenameBranch (TempBranch st) (SourceBranch st);
            CallRemoveState] ->
      fault env r' c = false) ->
  exists r',
    finishRebranch env r = (Ok tt, r')
    /\ refs r' !! SourceBranch st = refs r !! TempBranch st
    /\ refs r' !! TempBranch st = None
    /\ head r' = OnBranch (SourceBranch st)
    /\ stateFile r' = NoFile
    /\ forall b, b <> SourceBranch st -> b <> TempBranch st ->
                 refs r' !! b = refs r !! b.
Proof.
  intros Hvalid Hfile Hne [srcTip Hsrc] Hfault.
  destruct (validateFinish_ok env r Hvalid)
    as (Hread & st' & tip & Hfile' & Hhead & Htemp).
  rewrite Hfile in Hfile'. injection Hfile' as <-.
  assert (Hdel : forall r', fault env r' (CallDeleteBranch (SourceBranch st)) = false)
    by (intros; apply Hfault; cbn; auto).
  assert (Hren : forall r', fault env r'
             (CallRenameBranch (TempBranch st) (SourceBranch st)) = false)
    by (intros; apply Hfault; cbn; auto).
  assert (Hrm : forall r', fault env r' CallRemoveState = false)
    by (intros; apply Hfault; cbn; auto).
  unfold finishRebranch.
  rewrite (bind_ok _ _ r tt r)
    by (apply validate_ok; auto using validateFinish_frame).
  rewrite (bind_ok _ _ r st r) by (apply LoadState_stored; auto).
  unfold DeleteBranch, RenameBranch, ClearState, BranchExists. unfold_m.
  rewrite Hdel. cbn. rewrite Hsrc, Hhead.
  rewrite bool_decide_eq_true_2 by eauto.
  rewrite (bool_decide_eq_false_2 (OnBranch (TempBranch st)
                                   = OnBranch (SourceBranch st)))
    by congruence.
  cbn. rewrite Hren. cbn.
  rewrite lookup_delete_ne by assumption. rewrite Htemp.
  rewrite bool_decide_eq_true_2 by eauto.
  rewrite lookup_delete_eq.
  rewrite (bool_decide_eq_false_2 (is_Some None))
    by (intros [? ?]; discriminate).
  rewrite orb_true_r. cbn.
  unfold renameRef. cbn. rewrite lookup_delete_ne by assumption.
  rewrite Htemp. cbn. unfold StateExists. cbn. rewrite Hfile. cbn.
  rewrite Hrm. cbn.
  eexists. split; [reflexivity|]. cbn. rewrite ?Hhead.
  rewrite bool_decide_eq_true_2 by reflexivity.
  repeat split.
  - now rewrite lookup_insert_eq.
  - rewrite lookup_insert_ne by assumption. apply lookup_delete_eq.
  - intros b Hb1 Hb2.
    rewrite lookup_insert_ne by congruence.
    rewrite !lookup_delete_ne by congruence. reflexivity.
Qed.

Lemma finish_replaces_source_witness :
  exists r',
    finishRebranch exampleEnv (midRepo 1 "done") = (Ok tt, r')
    /\ refs r' !! "feature" = Some "b1111111"
    /\ refs r' !! "rebranch-temp-100" = None
    /\ head r' = OnBranch "feature"
    /\ stateFile r' = NoFile.
Proof.
  destruct (finish_replaces_source exampleEnv (midRepo 1 "done")
              (exampleState 1 "done"))
    as (r' & Hrun & Hsrc & Htemp & Hhead & Hfile & _).
  - vm_compute. reflexivity.
  - reflexivity.
  - discriminate.
  - now exists "f2222222".
  - intros r0 c _. reflexivity.
  - exists r'. repeat split; assumption.
Defined.

(** ** The validators as guards *)

Lemma bind_guard (v : M unit) (k : unit -> M unit) (r : Repo) :
  readOnly v -> fst (v r) <> Ok tt -> bind v k r = (fst (v r), r).
Proof.
  intros Hv Hfail. rewrite bind_unfold. specialize (Hv r).
  destruct (v r) as [[[]|e|] r0]; cbn in *; subst; congruence.
Qed.

(** X16: every command is guarded by its validator.  When the validator of
    start, continue, finish or abort does not pass, the command returns
    what the validator returned and the repository, its files and the
    trace of external calls are exactly as before. *)
Theorem commands_are_guarded (env : Env) (baseBranch : string) (r : Repo) :
  (fst (validateStart env baseBranch r) <> Ok tt ->
   startRebranch env baseBranch r = (fst (validateStart env baseBranch r), r))
  /\ (fst (validateContinue env r) <> Ok tt ->
      continueRebranch env r = (fst (validateContinue env r), r))
  /\ (fst (validateFinish env r) <> Ok tt ->
      finishRebranch env r = (fst (validateFinish env r), r))
  /\ (fst (validateAbort env r) <> Ok tt ->
      abortRebranch env r = (fst (validateAbort env r), r)).
Proof.
  repeat split; intros Hfail.
  - apply bind_guard; [apply validateStart_frame|assumption].
  - apply bind_guard; [apply validateContinue_frame|assumption].
  - apply bind_guard; [apply validateFinish_frame|assumption].
  - apply bind_guard; [apply validateAbort_frame|assumption].
Qed.

Lemma commands_are_guarded_witness :
  startRebranch exampleEnv "main" (midRepo 0 "conflicts")
  = (Fail AlreadyInProgress, midRepo 0 "conflicts")
  /\ abortRebranch exampleEnv unbornRepo
     = (Fail (InvalidRepository HeadUnresolved), unbornRepo).
Proof.
  split.
  - destruct (commands_are_guarded exampleEnv "main" (midRepo 0 "conflicts"))
      as (Hstart & _).
    rewrite Hstart; [vm_compute; reflexivity|vm_compute; discriminate].
  - destruct (commands_are_guarded exampleEnv "main" unbornRepo)
      as (_ & _ & _ & Habort).
    rewrite Habort; [vm_compute; reflexivity|vm_compute; discriminate].
Defined.

(** ** The branches a command leaves alone *)

(** X17: start moves no branch but the temp branch it creates: any branch
    whose name is not the temp name derived from the clock, the source and
    the base among them, points after the run, whether it succeeded, failed
    or stopped on a conflict, at the commit it pointed at before (and does
    not appear if it did not exist). *)
Theorem start_leaves_other_branches (env : Env) (baseBranch b : string)
    (r : Repo) :
  TempBranchPrefix ++ pretty (now env) <> b ->
  refs (snd (startRebranch env baseBranch r)) !! b = refs r !! b.
Proof.
  intros Hne.
  pose proof (start_keeps_other_branches env baseBranch b (refs r !! b)
                Hne r eq_refl) as Hrun.
  unfold pointsAt in Hrun.
  now destruct (startRebranch env baseBranch r) as [[[]|e|] r'].
Qed.

Lemma start_leaves_other_branches_witness :
  refs (snd (startRebranch exampleEnv "main" exampleRepo)) !! "feature"
  = Some "f2222222".
Proof.
  rewrite (start_leaves_other_branches exampleEnv "main" "feature" exampleRepo).
  - reflexivity.
  - vm_compute. discriminate.
Defined.

(** X18: continue moves only the branch that is checked out when it runs:
    a branch that is not checked out then keeps its commit, and is still
    not checked out afterwards, however the run ends. *)
Theorem continue_leaves_unchecked_branches (env : Env) (b : string) (r : Repo) :
  head r <> OnBranch b ->
  refs (snd (continueRebranch env r)) !! b = refs r !! b
  /\ head (snd (continueRebranch env r)) <> OnBranch b.
Proof.
  intros Hoff.
  pose proof (continue_keeps_unchecked_branches env b (refs r !! b) r
                (conj eq_refl Hoff)) as Hrun.
  unfold offBranch in Hrun.
  now destruct (continueRebranch env r) as [[[]|e|] r'].
Qed.

Lemma continue_leaves_unchecked_branches_witness :
  refs (snd (continueRebranch exampleEnv (midRepo 0 "conflicts"))) !! "feature"
  = Some "f2222222".
Proof.
  destruct (continue_leaves_unchecked_branches exampleEnv "feature"
              (midRepo 0 "conflicts")) as [Hrefs _].
  - discriminate.
  - rewrite Hrefs. reflexivity.
Defined.

Lemma CheckoutBranch_pointsAt env name b v :
  triple (pointsAt b v) (CheckoutBranch env name)
         (fun _ => pointsAt b v) (pointsAt b v).
Proof.
  intros r Hb. unfold CheckoutBranch, external.
  now destruct (fault env r _ || negb _).
Qed.

Lemma DeleteBranch_pointsAt env name b v :
  name <> b ->
  triple (pointsAt b v) (DeleteBranch env name)
         (fun _ => pointsAt b v) (pointsAt b v).
Proof.
  intros Hne r Hb. unfold DeleteBranch, external.
  match goal with |- context [if ?c then _ else _] => destruct c end;
    [exact Hb|].
  unfold pointsAt. cbn. now rewrite lookup_delete_ne.
Qed.

(** X19: abort moves no branch but the temp branch of the record: with the
    record on disk, every branch other than its temp branch, the source
    among them, points after the run at the commit it pointed at before,
    however the run ends. *)
Theorem abort_leaves_other_branches (env : Env) (st : RebranchState)
    (b : string) (r : Repo) :
  stateFile r = Stored st ->
  b <> TempBranch st ->
  refs (snd (abortRebranch env r)) !! b = refs r !! b.
Proof.
  intros Hfile Hne. unfold abortRebranch. rewrite bind_unfold.
  pose proof (validateAbort_frame env r) as Hframe.
  destruct (validateAbort env r) as [[[]|e|] r0]; cbn in Hframe; subst r0;
    try reflexivity.
  rewrite bind_unfold. unfold LoadState at 1. rewrite Hfile.
  destruct (fault env r CallReadState); [reflexivity|].
  assert (Hrest : triple (pointsAt b (refs r !! b))
            (let* _ := CheckoutBranch env (SourceBranch st) in
             let* deleted := try (DeleteBranch env (TempBranch st)) in
             let* _ := match deleted with
                       | inl err => print (OutWarnDeleteTemp (TempBranch st) err)
                       | inr _ => ret tt
                       end in
             let* _ := ClearState env in
             print OutAborted)
            (fun _ => pointsAt b (refs r !! b)) (pointsAt b (refs r !! b))).
  { eapply triple_bind; [apply CheckoutBranch_pointsAt|]. intros ?.
    eapply triple_bind;
      [apply triple_try, DeleteBranch_pointsAt; congruence|].
    intros deleted.
    eapply triple_bind.
    { destruct deleted;
        [apply keeps_pointsAt, keeps_print
        |apply keeps_pointsAt, keeps_readOnly, readOnly_ret]. }
    intros ?.
    eapply triple_bind; [apply keeps_pointsAt, keeps_ClearState|]. intros ?.
    apply keeps_pointsAt, keeps_print. }
  specialize (Hrest r eq_refl). unfold pointsAt in Hrest.
  match goal with
  | |- refs (snd ?run) !! b = _ => destruct run as [[[]|e|] r']
  end; exact Hrest.
Qed.

Lemma abort_leaves_other_branches_witness :
  refs (snd (abortRebranch exampleEnv (midRepo 0 "conflicts"))) !! "feature"
  = Some "f2222222".
Proof.
  rewrite (abort_leaves_other_branches exampleEnv (exampleState 0 "conflicts")
             "feature" (midRepo 0 "conflicts")).
  - reflexivity.
  - reflexivity.
  - discriminate.
Defined.

(** ** Runs of [startRebranch], step by step *)

Lemma bind_Ok_inv {A B} (m : M A) (f : A -> M B) r b r' :
  bind m f r = (Ok b, r') ->
  exists a r1, m r = (Ok a, r1) /\ f a r1 = (Ok b, r').
Proof.
  rewrite bind_unfold. destruct (m r) as [[a|e|] r1]; try discriminate.
  intros H. now exists a, r1.
Qed.

Lemma bind_Fail_inv {A B} (m : M A) (f : A -> M B) r e r' :
  bind m f r = (Fail e, r') ->
  m r = (Fail e, r')
  \/ exists a r1, m r = (Ok a, r1) /\ f a r1 = (Fail e, r').
Proof.
  rewrite bind_unfold. destruct (m r) as [[a|e0|] r1]; try discriminate.
  - intros H. right. now exists a, r1.
  - intros [= -> ->]. now left.
Qed.

Lemma preserves_run {A B} (f : Repo -> B) (m : M A) r o r' :
  preserves f m -> m r = (o, r') -> f r' = f r.
Proof. intros Hm Hrun. specialize (Hm r). now rewrite Hrun in Hm. Qed.

Lemma preserves_readOnly {A B} (f : Repo -> B) (m : M A) :
  readOnly m -> preserves f m.
Proof. intros Hm r. now rewrite Hm. Qed.

Lemma preserves_bind {A B C} (f : Repo -> C) (m : M A) (k : A -> M B) :
  preserves f m -> (forall a, preserves f (k a)) -> preserves f (bind m k).
Proof.
  intros Hm Hk r. rewrite bind_unfold. specialize (Hm r).
  destruct (m r) as [[a|e|] r1]; cbn in *; auto.
  now rewrite Hk.
Qed.

Lemma preserves_wrapErr {A B} (f : Repo -> B) wrap (m : M A) :
  preserves f m -> preserves f (wrapErr wrap m).
Proof.
  intros Hm r. specialize (Hm r). unfold wrapErr.
  now destruct (m r) as [[a|e|] r1].
Qed.

Lemma preserves_tree {A} (m : M A) :
  preserves workState m -> preserves treeState m.
Proof.
  intros Hm r. specialize (Hm r). unfold workState, treeState in *.
  congruence.
Qed.

Lemma work_print o : preserves workState (print o).
Proof. now intros r. Qed.

Lemma work_sliceSHA sha : preserves workState (sliceSHA sha).
Proof. intros r. unfold sliceSHA. now destruct (slicePrefix 7 sha). Qed.

Lemma work_printCommits commits : forall position,
  preserves workState (printCommits position commits).
Proof.
  induction commits as [|c commits IH]; intros position.
  - now intros r.
  - cbn [printCommits]. apply preserves_bind; [apply work_sliceSHA|intros short].
    apply preserves_bind; [apply work_print|intros _]. apply IH.
Qed.

Lemma work_CreateInteractiveFile env commits :
  preserves workState (CreateInteractiveFile env commits).
Proof.
  intros r. unfold CreateInteractiveFile, external.
  now destruct (fault env r _ || negb true).
Qed.

Lemma work_LaunchEditor env : preserves workState (LaunchEditor env).
Proof.
  intros r. unfold LaunchEditor. destruct (pickFile r); [|reflexivity].
  now destruct (editor env s).
Qed.

Lemma work_ParseInteractiveFile commits :
  preserves workState (ParseInteractiveFile commits).
Proof.
  intros r. unfold ParseInteractiveFile. destruct (pickFile r); [|reflexivity].
  now destruct (parseListing s commits).
Qed.

Lemma tree_SaveState env s : preserves treeState (SaveState env s).
Proof.
  intros r. unfold SaveState, external.
  now destruct (fault env r _ || negb true).
Qed.

(** The part of [startRebranch] between the resolver and the creation of
    the temp branch, with what follows as [k]. *)
Lemma start_listing_preserves {A} commits sourceBranch baseBranch env
    (k : list CommitInfo -> M A) :
  preserves workState
    (let* _ := print (OutFound (Z.of_nat (length commits))
                               sourceBranch baseBranch) in
     let* _ := printCommits 1 commits in
     let* _ := wrapErr CreatePickFileFailed
                 (CreateInteractiveFile env commits) in
     let* _ := print OutEditPrompt in
     let* _ := wrapErr LaunchEditorFailed (LaunchEditor env) in
     let* selectedCommits := wrapErr ParsePickFileFailed
                               (ParseInteractiveFile commits) in
     let* _ := print (OutSelected (countPickedCommits selectedCommits)) in
     ret selectedCommits).
Proof.
  apply preserves_bind; [apply work_print|intros ?].
  apply preserves_bind; [apply work_printCommits|intros ?].
  apply preserves_bind;
    [apply preserves_wrapErr, work_CreateInteractiveFile|intros ?].
  apply preserves_bind; [apply work_print|intros ?].
  apply preserves_bind; [apply preserves_wrapErr, work_LaunchEditor|intros ?].
  apply preserves_bind;
    [apply preserves_wrapErr, work_ParseInteractiveFile|intros ?].
  apply preserves_bind; [apply work_print|intros ?].
  apply preserves_readOnly, readOnly_ret.
Qed.

Lemma validateStart_ok (env : Env) (baseBranch : string) (r : Repo) :
  fst (validateStart env baseBranch r) = Ok tt ->
  stateFile r = NoFile
  /\ dirty r = false
  /\ exists b tip, head r = OnBranch b /\ refs r !! b = Some tip
                   /\ b <> baseBranch.
Proof.
  unfold validateStart, IsCleanWorkingDirectory, HasUncommittedChanges,
    GetCurrentBranch, BranchExists.
  unfold_m. rewrite IsValidRepository_eq.
  destruct (resolveHead r) as [tip|] eqn:Hhead; cbn; [|discriminate].
  unfold StateExists.
  destruct (stateFile r) eqn:Hfile; cbn; try discriminate.
  destruct (HasOngoingOperation r) as [[] kind]; cbn; [discriminate|].
  destruct (fault env r CallStatus); cbn; [discriminate|].
  destruct (dirty r); cbn; [discriminate|].
  destruct (bool_decide (is_Some (refs r !! baseBranch))); cbn;
    [|discriminate].
  rewrite ?Hhead.
  destruct (head r) as [b|h] eqn:Hh; cbn; [|discriminate].
  destruct (String.eqb_spec b baseBranch) as [->|Hne]; cbn; [discriminate|].
  intros _. repeat split. exists b, tip. repeat split; auto.
  unfold resolveHead in Hhead. now rewrite Hh in Hhead.
Qed.

Lemma validateFinish_pass (env : Env) (r : Repo) (st : RebranchState) :
  stateFile r = Stored st -> Stage st = "done" ->
  cleanOn (TempBranch st) r ->
  fault env r CallReadState = false -> fault env r CallStatus = false ->
  fst (validateFinish env r) = Ok tt.
Proof.
  intros Hfile Hstage (Hhead & [tip Htip] & Hdirty) Hread Hstatus.
  unfold validateFinish, IsCleanWorkingDirectory, HasUncommittedChanges,
    LoadState, GetCurrentBranch.
  unfold_m. rewrite IsValidRepository_eq.
  unfold resolveHead, StateExists.
  rewrite Hhead, Htip, Hfile. cbn. rewrite Hread, ?Hfile. cbn.
  rewrite Hstage. cbn. rewrite ?Hhead, ?Htip. cbn.
  rewrite String.eqb_refl. cbn. rewrite Hstatus, Hdirty. reflexivity.
Qed.

(** ** The apply loop on a clean temp branch *)

Lemma triple_top {A} (P : Repo -> Prop) (m : M A) :
  triple P m (fun _ _ => True) (fun _ => True).
Proof. intros r _. now destruct (m r) as [[a|e|] r1]. Qed.

Lemma triple_try_split {A} (P : Repo -> Prop) (m : M A) Q E :
  triple P m Q E ->
  triple P (try m)
         (fun x r => match x with inl _ => E r | inr a => Q a r end) E.
Proof.
  intros Hm r Hr. specialize (Hm r Hr). unfold try.
  now destruct (m r) as [[a|e|] r1].
Qed.

Lemma cleanOn_preserved {A} (m : M A) b :
  preserves treeState m ->
  triple (cleanOn b) m (fun _ => cleanOn b) (fun _ => True).
Proof.
  intros Hm r Hc. specialize (Hm r).
  destruct (m r) as [[a|e|] r1]; cbn in *; trivial.
  unfold treeState in Hm. injection Hm as H1 H2 H3.
  unfold cleanOn. now rewrite H1, H2, H3.
Qed.

Lemma CherryPick_cleanOn env sha b :
  triple (cleanOn b) (CherryPick env sha) (fun _ => cleanOn b) (fun _ => True).
Proof.
  intros r (Hhead & [tip Htip] & Hdirty). unfold CherryPick.
  destruct (fault env r (CallCherryPick sha)); [trivial|].
  unfold resolveHead. rewrite Hhead, Htip.
  destruct (pick env r sha) as [newHash| | |]; trivial.
  unfold cleanOn, applyPick. cbn. rewrite Hhead.
  repeat split; [|assumption]. rewrite lookup_insert_eq. eauto.
Qed.

Lemma applyLoop_cleanOn env b pending : forall i st,
  triple (cleanOn b) (applyLoop env pending i st)
         (fun _ => cleanOn b) (fun _ => True).
Proof.
  induction pending as [|commit rest IH]; intros i st.
  - now apply triple_ret.
  - cbn [applyLoop]. destruct (String.eqb (Action commit) "drop"); [apply IH|].
    eapply triple_bind; [apply triple_try_split, CherryPick_cleanOn|].
    intros [e|[]].
    + eapply triple_bind; [apply triple_top|]. intros ?.
      eapply triple_bind; [apply triple_top|]. intros ?.
      now apply triple_fail.
    + eapply triple_bind; [apply cleanOn_preserved, tree_SaveState|].
      intros ?. apply IH.
Qed.

Lemma ApplyCherryPicks_cleanOn env st b :
  triple (cleanOn b) (ApplyCherryPicks env st)
         (fun _ => cleanOn b) (fun _ => True).
Proof.
  unfold ApplyCherryPicks. destruct (CurrentCommitIdx st <? 0).
  - now intros r Hr.
  - eapply triple_bind; [apply applyLoop_cleanOn|]. intros st'.
    eapply triple_bind;
      [apply cleanOn_preserved, preserves_tree, work_print|]. intros ?.
    eapply triple_bind;
      [apply cleanOn_preserved, preserves_tree, work_print|]. intros ?.
    apply cleanOn_preserved, tree_SaveState.
Qed.

Lemma ApplyCherryPicks_stored env st r r' :
  ApplyCherryPicks env st r = (Ok tt, r') ->
  exists j, stateFile r' = Stored (withStage "done" (withCursor j st)).
Proof.
  unfold ApplyCherryPicks. destruct (CurrentCommitIdx st <? 0);
    [discriminate|].
  rewrite bind_unfold.
  destruct (applyLoop env _ (CurrentCommitIdx st) st r) as [[st'|e|] r0] eqn:Hloop;
    try discriminate.
  assert (Hst : exists j, st' = withCursor j st).
  { apply applyLoop_state in Hloop as [->|(j & _ & ->)].
    - exists (CurrentCommitIdx st). now destruct st.
    - now exists j. }
  destruct Hst as (j & ->).
  unfold bind, print, SaveState, external. cbn.
  match goal with
  | |- (if ?c then _ else _) = _ -> _ => destruct c; [discriminate|]
  end.
  intros [= <-]. now exists j.
Qed.

(** X20: a start that returns without error has left everything a finish
    asks for.  The record on disk has the stage "done", names the branch
    that was checked out as the source, the given base, and the temp branch
    named after the clock; that temp branch exists, is checked out, and the
    work tree is as clean as the validator found it.  So the finish
    validator passes on the resulting repository as soon as the record and
    the status can be read. *)
Theorem start_success_is_ready_to_finish (env : Env) (baseBranch : string)
    (r r' : Repo) :
  startRebranch env baseBranch r = (Ok tt, r') ->
  exists st,
    stateFile r' = Stored st
    /\ Stage st = "done"
    /\ head r = OnBranch (SourceBranch st)
    /\ BaseBranch st = baseBranch
    /\ TempBranch st = TempBranchPrefix ++ pretty (now env)
    /\ cleanOn (TempBranch st) r'
    /\ (fault env r' CallReadState = false ->
        fault env r' CallStatus = false ->
        fst (validateFinish env r') = Ok tt).
Proof.
  intros Hrun. unfold startRebranch in Hrun.
  apply bind_Ok_inv in Hrun as ([] & r1 & Hvalid & Hrun).
  pose proof (validateStart_frame env baseBranch r) as Hframe.
  rewrite Hvalid in Hframe. cbn in Hframe. subst r1.
  assert (Hpass : fst (validateStart env baseBranch r) = Ok tt)
    by now rewrite Hvalid.
  apply validateStart_ok in Hpass
    as (_ & Hdirty & src & tip & Hhead & Htip & _).
  apply bind_Ok_inv in Hrun as (sourceBranch & r1 & Hsource & Hrun).
  unfold GetCurrentBranch, resolveHead in Hsource.
  rewrite Hhead, Htip in Hsource. injection Hsource as <- <-.
  apply bind_Ok_inv in Hrun as (commits & r1 & Hcommits & Hrun).
  pose proof (readOnly_GetCommitsBetween env baseBranch src r) as Hframe.
  rewrite Hcommits in Hframe. cbn in Hframe. subst r1.
  destruct commits as [|c commits]; [discriminate|].
  remember (c :: commits) as found eqn:Hfound. clear Hfound.
  repeat match type of Hrun with
  | bind (CreateBranch _ _ _) _ _ = _ => fail 1
  | bind ?m _ ?r0 = _ =>
      let a := fresh "a" in let r1 := fresh "r" in
      let Hstep := fresh "Hstep" in let Hk := fresh "Hk" in
      apply bind_Ok_inv in Hrun as (a & r1 & Hstep & Hrun);
      assert (Hk : workState r1 = workState r0);
      [ eapply preserves_run; [|exact Hstep];
        first [ apply work_print | apply work_printCommits
              | apply preserves_wrapErr, work_CreateInteractiveFile
              | apply preserves_wrapErr, work_LaunchEditor
              | apply preserves_wrapErr, work_ParseInteractiveFile ]
      | clear Hstep ]
  end.
  match type of Hrun with
  | bind _ _ ?r0 = _ =>
      assert (Hwork : workState r0 = workState r) by congruence
  end.
  unfold workState in Hwork. injection Hwork as Hrefs Hhd Hdt _.
  apply bind_Ok_inv in Hrun as ([] & rb & Hcreate & Hrun).
  unfold CreateBranch, gets, fail, external in Hcreate.
  rewrite bind_unfold in Hcreate.
  destruct (refs _ !! baseBranch) as [baseTip|]; [|discriminate].
  match type of Hcreate with
  | (if ?c then _ else _) = _ => destruct c; [discriminate|]
  end.
  injection Hcreate as <-.
  apply bind_Ok_inv in Hrun as ([] & rc & Hcheckout & Hrun).
  unfold CheckoutBranch, external in Hcheckout.
  match type of Hcheckout with
  | (if ?c then _ else _) = _ => destruct c; [discriminate|]
  end.
  injection Hcheckout as <-.
  apply bind_Ok_inv in Hrun as ([] & rs & Hsave & Hrun).
  unfold SaveState, external in Hsave.
  match type of Hsave with
  | (if ?c then _ else _) = _ => destruct c; [discriminate|]
  end.
  injection Hsave as <-.
  set (temp := TempBranchPrefix ++ pretty (now env)) in *.
  match type of Hrun with
  | ApplyCherryPicks env ?s ?r0 = _ =>
      assert (Hclean : cleanOn temp r0);
      [ unfold cleanOn; cbn; rewrite lookup_insert_eq, Hdt; eauto
      | pose proof (ApplyCherryPicks_cleanOn env s temp r0 Hclean) as Hend;
        rewrite Hrun in Hend;
        destruct (ApplyCherryPicks_stored env s r0 r' Hrun) as (j & Hstored) ]
  end.
  eexists. split; [exact Hstored|]. cbn.
  repeat split; try reflexivity; try apply Hend; try assumption.
  intros Hread Hstatus.
  now apply (validateFinish_pass env r' _ Hstored).
Qed.

Lemma start_success_is_ready_to_finish_witness :
  exists st,
    stateFile (snd (startRebranch exampleEnv "main" exampleRepo)) = Stored st
    /\ Stage st = "done"
    /\ TempBranch st = "rebranch-temp-100"
    /\ fst (validateFinish exampleEnv
              (snd (startRebranch exampleEnv "main" exampleRepo))) = Ok tt.
Proof.
  destruct (start_success_is_ready_to_finish exampleEnv "main" exampleRepo
              (snd (startRebranch exampleEnv "main" exampleRepo)))
    as (st & Hstored & Hstage & _ & _ & Htemp & _ & Hfinish).
  - vm_compute. reflexivity.
  - exists st. repeat split; auto.
Defined.

(** ** A start that stops before it branches *)

Lemma applyLoop_errors env pending : forall i st r e r',
  applyLoop env pending i st r = (Fail e, r') -> beforeBranching e = false.
Proof.
  induction pending as [|commit rest IH]; intros i st r e r' Hrun.
  - discriminate.
  - cbn [applyLoop] in Hrun.
    destruct (String.eqb (Action commit) "drop"); [now apply IH in Hrun|].
    apply bind_Fail_inv in Hrun as [Hstop|([err|[]] & r1 & _ & Hrun)].
    + unfold try in Hstop.
      destruct (CherryPick env (SHA commit) r) as [[?|?|] ?]; discriminate.
    + apply bind_Fail_inv in Hrun as [Hstop|(? & r2 & _ & Hrun)].
      { unfold wrapErr in Hstop.
        destruct (SaveState env _ r1) as [[?|?|] ?]; try discriminate.
        now injection Hstop as <- _. }
      apply bind_Fail_inv in Hrun as [Hstop|(? & r3 & _ & Hrun)].
      { unfold sliceSHA in Hstop.
        destruct (slicePrefix 7 (SHA commit)); discriminate. }
      now injection Hrun as <- _.
    + apply bind_Fail_inv in Hrun as [Hstop|(? & r2 & _ & Hrun)].
      { unfold SaveState, external in Hstop.
        destruct (fault env r1 _ || negb true); [|discriminate].
        now injection Hstop as <- _. }
      now apply IH in Hrun.
Qed.

Lemma ApplyCherryPicks_errors env st r e r' :
  ApplyCherryPicks env st r = (Fail e, r') -> beforeBranching e = false.
Proof.
  unfold ApplyCherryPicks. destruct (CurrentCommitIdx st <? 0); [discriminate|].
  intros Hrun.
  apply bind_Fail_inv in Hrun as [Hstop|(? & r1 & _ & Hrun)];
    [now apply applyLoop_errors in Hstop|].
  apply bind_Fail_inv in Hrun as [Hstop|(? & r2 & _ & Hrun)]; [discriminate|].
  apply bind_Fail_inv in Hrun as [Hstop|(? & r3 & _ & Hrun)]; [discriminate|].
  unfold SaveState, external in Hrun.
  destruct (fault env r3 _ || negb true); [|discriminate].
  now injection Hrun as <- _.
Qed.

(** X21: a start that returns one of the errors of its listing phase, that
    is "no commits to rebranch" or a failure to write the pick file, to run
    the editor or to parse the edited listing, has changed no branch, not
    [HEAD], not the state of the work tree, and has written no record: no
    temp branch is left behind by a rejected edit. *)
Theorem start_stopped_before_branching (env : Env) (baseBranch : string)
    (r r' : Repo) (e : Error) :
  startRebranch env baseBranch r = (Fail e, r') ->
  beforeBranching e = true ->
  refs r' = refs r /\ head r' = head r /\ dirty r' = dirty r
  /\ stateFile r' = stateFile r.
Proof.
  intros Hrun Hearly.
  enough (Hwork : workState r' = workState r)
    by (unfold workState in Hwork; now injection Hwork).
  unfold startRebranch in Hrun.
  apply bind_Fail_inv in Hrun as [Hstop|([] & r1 & Hstep & Hrun)].
  { eapply preserves_run; [|exact Hstop].
    apply preserves_readOnly, validateStart_frame. }
  assert (H0 : workState r1 = workState r).
  { eapply preserves_run; [|exact Hstep].
    apply preserves_readOnly, validateStart_frame. }
  clear Hstep.
  apply bind_Fail_inv in Hrun as [Hstop|(sourceBranch & r2 & Hstep & Hrun)].
  { rewrite <- H0. eapply preserves_run; [|exact Hstop].
    apply preserves_readOnly, readOnly_GetCurrentBranch. }
  assert (H1 : workState r2 = workState r).
  { rewrite <- H0. eapply preserves_run; [|exact Hstep].
    apply preserves_readOnly, readOnly_GetCurrentBranch. }
  clear Hstep H0 r1.
  apply bind_Fail_inv in Hrun as [Hstop|(commits & r3 & Hstep & Hrun)].
  { rewrite <- H1. eapply preserves_run; [|exact Hstop].
    apply preserves_readOnly, readOnly_GetCommitsBetween. }
  assert (H2 : workState r3 = workState r).
  { rewrite <- H1. eapply preserves_run; [|exact Hstep].
    apply preserves_readOnly, readOnly_GetCommitsBetween. }
  clear Hstep H1 r2.
  destruct commits as [|c commits];
    [unfold fail in Hrun; now injection Hrun as _ <-|].
  remember (c :: commits) as found eqn:Hfound. clear Hfound.
  rename r3 into r0, H2 into H0.
  repeat match type of Hrun with
  | bind (CreateBranch _ _ _) _ _ = _ => fail 1
  | bind ?m _ ?r0 = _ =>
      let a := fresh "a" in let r1 := fresh "r" in
      let Hstep := fresh "Hstep" in let Hstop := fresh "Hstop" in
      let Hk := fresh "Hk" in
      assert (Hk : preserves workState m)
        by first [ apply work_print | apply work_printCommits
                 | apply preserves_wrapErr, work_CreateInteractiveFile
                 | apply preserves_wrapErr, work_LaunchEditor
                 | apply preserves_wrapErr, work_ParseInteractiveFile ];
      apply bind_Fail_inv in Hrun as [Hstop|(a & r1 & Hstep & Hrun)];
      [ apply (preserves_run _ _ _ _ _ Hk) in Hstop; congruence
      | apply (preserves_run _ _ _ _ _ Hk) in Hstep; clear Hk ]
  end.
  exfalso.
  apply bind_Fail_inv in Hrun as [Hstop|([] & rb & _ & Hrun)].
  { unfold CreateBranch, gets, fail, external in Hstop.
    rewrite bind_unfold in Hstop.
    destruct (refs _ !! baseBranch) as [baseTip|].
    - match type of Hstop with
      | (if ?c then _ else _) = _ => destruct c; [|discriminate]
      end.
      injection Hstop as <- _. discriminate.
    - injection Hstop as <- _. discriminate. }
  apply bind_Fail_inv in Hrun as [Hstop|([] & rc & _ & Hrun)].
  { unfold CheckoutBranch, external in Hstop.
    match type of Hstop with
    | (if ?c then _ else _) = _ => destruct c; [|discriminate]
    end.
    injection Hstop as <- _. discriminate. }
  apply bind_Fail_inv in Hrun as [Hstop|([] & rs & _ & Hrun)].
  { unfold SaveState, external in Hstop.
    match type of Hstop with
    | (if ?c then _ else _) = _ => destruct c; [|discriminate]
    end.
    injection Hstop as <- _. discriminate. }
  apply ApplyCherryPicks_errors in Hrun. congruence.
Qed.

Lemma start_stopped_before_branching_witness :
  fst (startRebranch emptyEditEnv "main" exampleRepo)
  = Fail (ParsePickFileFailed (PickFileError NoCommitsSelected))
  /\ refs (snd (startRebranch emptyEditEnv "main" exampleRepo))
     = refs exampleRepo
  /\ stateFile (snd (startRebranch emptyEditEnv "main" exampleRepo)) = NoFile.
Proof.
  destruct (start_stopped_before_branching emptyEditEnv "main" exampleRepo
              (snd (startRebranch emptyEditEnv "main" exampleRepo))
              (ParsePickFileFailed (PickFileError NoCommitsSelected)))
    as (Hrefs & _ & _ & Hfile).
  - vm_compute. reflexivity.
  - reflexivity.
  - split; [vm_compute; reflexivity|]. split; assumption.
Defined.

(** ** Nothing to rebranch *)

Lemma Reachable_trans objs a b c :
  Reachable objs a b -> Reachable objs b c -> Reachable objs a c.
Proof.
  induction 1 as [h ch Hh|h ch p b Hh Hp _ IH]; intros Hbc; [exact Hbc|].
  eapply Reachable_parent; eauto.
Qed.

Lemma filter_nil_inv {A} (P : A -> bool) (l : list A) x :
  List.filter P l = [] -> In x l -> P x = false.
Proof.
  intros Hnil Hin. destruct (P x) eqn:Hx; [|reflexivity].
  assert (Hmem : In x (List.filter P l)) by (apply filter_In; auto).
  rewrite Hnil in Hmem. destruct Hmem.
Qed.

(** The resolver on a head that the base already contains. *)
Lemma GetCommitsBetween_merged (env : Env) (r : Repo) (base head : string)
    (baseHash headHash : string) :
  refs r !! base = Some baseHash ->
  refs r !! head = Some headHash ->
  is_Some (objects r !! baseHash) ->
  is_Some (objects r !! headHash) ->
  FaithfulWalk env (objects r) baseHash ->
  FaithfulWalk env (objects r) headHash ->
  Reachable (objects r) baseHash headHash ->
  GetCommitsBetween env base head r = (Ok [], r).
Proof.
  intros Hbase Hhead [cb Hcb] [ch Hch] Wbase Whead Hmerged.
  pose proof Whead as (Hstored & Hreach & _).
  unfold GetCommitsBetween. rewrite Hbase, Hhead, Hcb, Hch.
  destruct (String.eqb baseHash headHash); [reflexivity|].
  rewrite (collectCommits_eq env _ _ cb) by assumption.
  rewrite filter_none; [reflexivity|].
  intros [a c] Hin. cbn [fst].
  assert (Ha : inHistory env (objects r) baseHash a = true).
  { apply (inHistory_reachable env _ _ _ Wbase).
    apply (Reachable_trans _ _ headHash); [assumption|].
    apply Hreach. apply in_map_iff. now exists (a, c). }
  rewrite Ha. apply andb_false_r.
Qed.

(** X22: when there is nothing to rebranch.  For base and head references
    that resolve to stored commits, and a history walk that yields exactly
    the reachable commits, the resolver returns the empty list exactly when
    the head commit is the base commit or one of its ancestors, that is,
    when the base already contains the head. *)
Theorem no_commits_iff_head_merged (env : Env) (r : Repo) (base head : string)
    (baseHash headHash : string) :
  refs r !! base = Some baseHash ->
  refs r !! head = Some headHash ->
  is_Some (objects r !! baseHash) ->
  is_Some (objects r !! headHash) ->
  FaithfulWalk env (objects r) baseHash ->
  FaithfulWalk env (objects r) headHash ->
  GetCommitsBetween env base head r = (Ok [], r)
  <-> Reachable (objects r) baseHash headHash.
Proof.
  intros Hbase Hhead [cb Hcb] [ch Hch] Wbase Whead.
  split; [|now apply GetCommitsBetween_merged; eauto].
  pose proof Whead as (Hstored & Hreach & _).
  unfold GetCommitsBetween. rewrite Hbase, Hhead, Hcb, Hch.
  destruct (String.eqb_spec baseHash headHash) as [->|Hne];
    [intros _; now apply Reachable_self with ch|].
  rewrite (collectCommits_eq env _ _ cb) by assumption.
  rewrite app_nil_r. intros [= Hnil].
  apply (f_equal (@rev CommitInfo)) in Hnil. rewrite rev_involutive in Hnil.
  cbn in Hnil. apply map_eq_nil in Hnil.
  assert (Hin : In headHash (map fst (history env (objects r) headHash)))
    by (apply Hreach; now apply Reachable_self with ch).
  apply in_map_iff in Hin as ([a c] & Ha & Hin). cbn in Ha. subst a.
  apply (filter_nil_inv _ _ _ Hnil) in Hin. cbn [fst] in Hin.
  rewrite (proj2 (String.eqb_neq headHash baseHash)) in Hin by congruence.
  cbn in Hin. apply negb_false_iff in Hin.
  now apply (inHistory_reachable env _ _ _ Wbase).
Qed.

Lemma no_commits_iff_head_merged_witness :
  GetCommitsBetween exampleEnv "feature" "main"
    (setRefs (insert "main" "b0000000") exampleRepo)
  = (Ok [], setRefs (insert "main" "b0000000") exampleRepo)
  <-> Reachable exampleObjects "f2222222" "b0000000".
Proof.
  apply (no_commits_iff_head_merged exampleEnv
           (setRefs (insert "main" "b0000000") exampleRepo)
           "feature" "main" "f2222222" "b0000000").
  - reflexivity.
  - reflexivity.
  - now exists (mkCommitObject ["f1111111"] ("Feature two" ++ lf)).
  - now exists (mkCommitObject [] ("Initial commit" ++ lf)).
  - exact example_faithful_feature.
  - unfold FaithfulWalk. vm_compute history. split; [|split].
    + intros a c [[= <- <-]|[]]; reflexivity.
    + intros a. cbn. split.
      * intros [<-|[]]. eapply Reachable_self. reflexivity.
      * intros H. left. symmetry. now apply example_reach_root.
    + repeat constructor. intros [].
Defined.

(** X23: a start from a branch the base already contains.  When the start
    validator passes and the commit of the checked-out branch is the base
    commit or one of its ancestors, start fails with "no commits to
    rebranch" before it prints, writes or calls anything: the repository
    is returned as it was. *)
Theorem start_on_merged_branch (env : Env) (baseBranch source : string)
    (baseHash headHash : string) (r : Repo) :
  fst (validateStart env baseBranch r) = Ok tt ->
  head r = OnBranch source ->
  refs r !! baseBranch = Some baseHash ->
  refs r !! source = Some headHash ->
  is_Some (objects r !! baseHash) ->
  is_Some (objects r !! headHash) ->
  FaithfulWalk env (objects r) baseHash ->
  FaithfulWalk env (objects r) headHash ->
  Reachable (objects r) baseHash headHash ->
  startRebranch env baseBranch r = (Fail NoCommitsToRebranch, r).
Proof.
  intros Hvalid Hon Hbase Hhead Hcb Hch Wbase Whead Hmerged.
  unfold startRebranch.
  rewrite (bind_ok _ _ r tt r)
    by (apply validate_ok; auto using validateStart_frame).
  rewrite (bind_ok _ _ r source r)
    by (unfold GetCurrentBranch, resolveHead; now rewrite Hon, Hhead).
  rewrite (bind_ok _ _ r [] r)
    by (eapply GetCommitsBetween_merged; eauto).
  reflexivity.
Qed.

Lemma start_on_merged_branch_witness :
  startRebranch exampleEnv "feature"
    (setHead (OnBranch "old") (setRefs (insert "old" "b0000000") exampleRepo))
  = (Fail NoCommitsToRebranch,
     setHead (OnBranch "old") (setRefs (insert "old" "b0000000") exampleRepo)).
Proof.
  apply (start_on_merged_branch exampleEnv "feature" "old"
           "f2222222" "b0000000").
  - vm_compute. reflexivity.
  - reflexivity.
  - reflexivity.
  - reflexivity.
  - now exists (mkCommitObject ["f1111111"] ("Feature two" ++ lf)).
  - now exists (mkCommitObject [] ("Initial commit" ++ lf)).
  - exact example_faithful_feature.
  - unfold FaithfulWalk. vm_compute history. split; [|split].
    + intros a c [[= <- <-]|[]]; reflexivity.
    + intros a. cbn. split.
      * intros [<-|[]]. eapply Reachable_self. reflexivity.
      * intros H. left. symmetry. now apply example_reach_root.
    + repeat constructor. intros [].
  - eapply Reachable_parent; [reflexivity|now left|].
    eapply Reachable_parent; [reflexivity|now left|].
    eapply Reachable_self. reflexivity.
Defined.

(** ** A fresh branch *)

(** X24: a [CreateBranch] that succeeds has set the name to the commit of
    the base, whether or not a branch of that name existed, and has left
    [HEAD] and the objects alone.  The branch it has just created has
    nothing to replay onto its base: the resolver returns the empty list
    for it. *)
Theorem created_branch_has_nothing_to_replay (env : Env) (name base : string)
    (r r' : Repo) :
  CreateBranch env name base r = (Ok tt, r') ->
  (forall hash, refs r !! base = Some hash -> is_Some (objects r !! hash)) ->
  (exists hash, refs r !! base = Some hash
                /\ refs r' = <[name := hash]> (refs r))
  /\ head r' = head r
  /\ objects r' = objects r
  /\ GetCommitsBetween env base name r' = (Ok [], r').
Proof.
  intros Hrun Hstored. unfold CreateBranch, gets, fail, external in Hrun.
  rewrite bind_unfold in Hrun.
  destruct (refs r !! base) as [hash|] eqn:Hbase; [|discriminate].
  destruct (fault env r (CallSetReference name hash) || negb true);
    [discriminate|].
  injection Hrun as <-. cbn.
  split; [now exists hash|]. repeat split.
  destruct (Hstored hash eq_refl) as [c Hc].
  unfold GetCommitsBetween. cbn.
  assert (Hb : <[name := hash]> (refs r) !! base = Some hash).
  { destruct (decide (name = base)) as [->|Hne];
      [apply lookup_insert_eq|now rewrite lookup_insert_ne]. }
  rewrite Hb, lookup_insert_eq, Hc, String.eqb_refl. reflexivity.
Qed.

Lemma created_branch_has_nothing_to_replay_witness :
  GetCommitsBetween exampleEnv "main" "topic"
    (snd (CreateBranch exampleEnv "topic" "main" exampleRepo))
  = (Ok [], snd (CreateBranch exampleEnv "topic" "main" exampleRepo)).
Proof.
  apply (created_branch_has_nothing_to_replay exampleEnv "topic" "main"
           exampleRepo).
  - vm_compute. reflexivity.
  - intros hash [= <-]. now exists (mkCommitObject ["b0000000"] ("Main change" ++ lf)).
Defined.

(** ** Locating the repository *)

Section Locate.
Local Open Scope list_scope.

Lemma parentDir_snoc (dir : Path) (name : string) :
  parentDir (dir ++ [name]) = dir.
Proof. apply removelast_last. Qed.

Lemma findGitDirLoop_root stat fuel :
  findGitDirLoop stat fuel []
  = match stat (joinPath [] ".git") with
    | StatOk => Some (joinPath [] ".git")
    | _ => None
    end.
Proof. destruct fuel; cbn; now destruct (stat _). Qed.

Lemma findGitDirLoop_snoc stat (dir : Path) (name : string) :
  findGitDirLoop stat (length (dir ++ [name])) (dir ++ [name])
  = match stat (joinPath (dir ++ [name]) ".git") with
    | StatOk => Some (joinPath (dir ++ [name]) ".git")
    | _ => findGitDirLoop stat (length dir) dir
    end.
Proof.
  rewrite length_app, Nat.add_1_r. cbn [findGitDirLoop].
  rewrite parentDir_snoc.
  destruct (decide (dir = dir ++ [name])) as [Heq|_].
  - apply (f_equal (@length string)) in Heq.
    rewrite length_app in Heq. cbn in Heq. lia.
  - reflexivity.
Qed.

(** The loop returns the [.git] of the deepest directory on the way up
    that has one. *)
Lemma findGitDirLoop_found stat (root : Path) : forall sub : Path,
  stat (joinPath root ".git") = StatOk ->
  (forall k, (0 < k <= length sub)%nat ->
             stat (joinPath (root ++ take k sub) ".git") <> StatOk) ->
  findGitDirLoop stat (length (root ++ sub)) (root ++ sub)
  = Some (joinPath root ".git").
Proof.
  induction sub as [|name sub IH] using rev_ind; intros Hroot Hsub.
  - rewrite app_nil_r. destruct root as [|x root _] using rev_ind.
    + rewrite findGitDirLoop_root. now rewrite Hroot.
    + rewrite findGitDirLoop_snoc. now rewrite Hroot.
  - rewrite app_assoc, findGitDirLoop_snoc.
    assert (Hdeep : stat (joinPath ((root ++ sub) ++ [name]) ".git") <> StatOk).
    { specialize (Hsub (length (sub ++ [name]))).
      rewrite firstn_all, app_assoc in Hsub. apply Hsub.
      rewrite length_app. cbn. lia. }
    destruct (stat (joinPath ((root ++ sub) ++ [name]) ".git"));
      [contradiction| |]; apply IH; auto; intros k Hk;
      specialize (Hsub k); rewrite take_app_le in Hsub by lia;
      apply Hsub; rewrite length_app; cbn; lia.
Qed.

Lemma findGitDirLoop_inv stat : forall dir : Path,
  match findGitDirLoop stat (length dir) dir with
  | Some gitDir =>
      exists root sub : Path,
        dir = (root ++ sub)%list
        /\ gitDir = joinPath root ".git"
        /\ stat gitDir = StatOk
        /\ forall k, (0 < k <= length sub)%nat ->
                     stat (joinPath (root ++ take k sub) ".git") <> StatOk
  | None =>
      forall k, (k <= length dir)%nat ->
                stat (joinPath (take k dir) ".git") <> StatOk
  end.
Proof.
  induction dir as [|name dir IH] using rev_ind.
  - rewrite findGitDirLoop_root.
    destruct (stat (joinPath [] ".git")) eqn:Hstat.
    + exists [], []. repeat split; auto. cbn. intros k Hk. lia.
    + intros k Hk. rewrite take_nil. congruence.
    + intros k Hk. rewrite take_nil. congruence.
  - rewrite findGitDirLoop_snoc.
    assert (Hrest :
      stat (joinPath (dir ++ [name]) ".git") <> StatOk ->
      match findGitDirLoop stat (length dir) dir with
      | Some gitDir =>
          exists root sub : Path,
            (dir ++ [name])%list = (root ++ sub)%list
            /\ gitDir = joinPath root ".git"
            /\ stat gitDir = StatOk
            /\ forall k, (0 < k <= length sub)%nat ->
                         stat (joinPath (root ++ take k sub) ".git") <> StatOk
      | None =>
          forall k, (k <= length (dir ++ [name]))%nat ->
                    stat (joinPath (take k (dir ++ [name])) ".git") <> StatOk
      end).
    { intros Hdeep.
      destruct (findGitDirLoop stat (length dir) dir) as [gitDir|].
      - destruct IH as (root & sub & -> & -> & Hok & Hsub).
        exists root, (sub ++ [name])%list.
        split; [now rewrite app_assoc|]. repeat split; auto.
        intros k Hk. rewrite length_app in Hk. cbn in Hk.
        destruct (decide (k <= length sub)%nat) as [Hle|Hgt].
        + rewrite take_app_le by lia. apply Hsub. lia.
        + replace k with (length (sub ++ [name]))
            by (rewrite length_app; cbn; lia).
          rewrite firstn_all, app_assoc. exact Hdeep.
      - intros k Hk. rewrite length_app in Hk. cbn in Hk.
        destruct (decide (k <= length dir)%nat) as [Hle|Hgt].
        + rewrite take_app_le by lia. now apply IH.
        + replace k with (length (dir ++ [name]))
            by (rewrite length_app; cbn; lia).
          rewrite firstn_all. exact Hdeep. }
    destruct (stat (joinPath (dir ++ [name]) ".git")) eqn:Hstat.
    + exists (dir ++ [name])%list, []. rewrite app_nil_r.
      repeat split; auto. cbn. intros k Hk. lia.
    + apply Hrest. discriminate.
    + apply Hrest. discriminate.
Qed.

(** X25: [findGitDir] returns the [.git] of the nearest enclosing
    directory that has one.  When it returns a path, the working directory
    is some directory [root] followed by [sub], the path is [root/.git],
    [os.Stat] succeeds on it, and it succeeds on no [.git] of a directory
    strictly between [root] and the working directory.  When it reports
    that no [.git] was found, [os.Stat] succeeds on the [.git] of no
    directory from the working directory up to the root. *)
Theorem findGitDir_nearest (stat : Path -> StatResult) (cwd : Path) :
  match findGitDir stat (Some cwd) with
  | inr gitDir =>
      exists root sub : Path,
        cwd = (root ++ sub)%list
        /\ gitDir = joinPath root ".git"
        /\ stat gitDir = StatOk
        /\ forall k, (0 < k <= length sub)%nat ->
                     stat (joinPath (root ++ take k sub) ".git") <> StatOk
  | inl e =>
      e = GitDirNotFound
      /\ forall k, (k <= length cwd)%nat ->
                   stat (joinPath (take k cwd) ".git") <> StatOk
  end.
Proof.
  unfold findGitDir. pose proof (findGitDirLoop_inv stat cwd) as H.
  destruct (findGitDirLoop stat (length cwd) cwd); [exact H|now split].
Qed.

(** X26: the two constructors of the store agree.  Run from the
    repository's top directory or from any directory below it that holds
    no [.git] of its own on the way, [NewFileStore] names the same state
    file as [NewFileStoreInPath] given the top directory, namely
    [REBRANCH_STATE] inside its [.git], next to the pick file. *)
Theorem stores_name_the_same_file (stat : Path -> StatResult)
    (root sub : Path) :
  stat (joinPath root ".git") = StatOk ->
  (forall k, (0 < k <= length sub)%nat ->
             stat (joinPath (root ++ take k sub) ".git") <> StatOk) ->
  NewFileStore stat (Some (root ++ sub)%list) = NewFileStoreInPath stat root
  /\ NewFileStoreInPath stat root
     = inr (joinPath (joinPath root ".git") StateFileName)
  /\ parentDir (GetPickFilePath root) = joinPath root ".git".
Proof.
  intros Hroot Hsub. unfold NewFileStore, NewFileStoreInPath, findGitDir.
  rewrite (findGitDirLoop_found stat root sub Hroot Hsub), Hroot.
  repeat split. apply parentDir_snoc.
Qed.

Lemma stores_name_the_same_file_witness :
  NewFileStore
    (fun p => if decide (p = ["home"; "repo"; ".git"]) then StatOk
              else StatNotExist)
    (Some ["home"; "repo"; "pkg"; "cmd"])
  = inr ["home"; "repo"; ".git"; "REBRANCH_STATE"].
Proof.
  destruct (stores_name_the_same_file
              (fun p => if decide (p = ["home"; "repo"; ".git"]) then StatOk
                        else StatNotExist)
              ["home"; "repo"] ["pkg"; "cmd"]) as (Hsame & Hpath & _).
  - reflexivity.
  - intros k Hk. cbn in Hk.
    assert (Hcases : k = 1%nat \/ k = 2%nat) by lia.
    destruct Hcases as [->| ->]; vm_compute; discriminate.
  - cbn [app] in Hsame. rewrite Hsame. exact Hpath.
Defined.

End Locate.

(** ** The count start and the loop report *)

Lemma countPicked_notDrop (commits : list CommitInfo) :
  Forall (fun c => Action c = "pick" \/ Action c = "drop") commits ->
  countPickedCommits commits
  = Z.of_nat (length (List.filter notDrop commits)).
Proof.
  unfold countPickedCommits. intros Hall. f_equal.
  induction Hall as [|c commits Hc _ IH]; [reflexivity|].
  rewrite filter_cons. cbn [List.filter]. unfold notDrop at 1.
  destruct Hc as [Hc|Hc]; rewrite Hc; cbn.
  - rewrite decide_True by reflexivity. cbn. now rewrite IH.
  - rewrite decide_False by discriminate. exact IH.
Qed.

Lemma parseListing_actions data originals selected :
  parseListing data originals = inr selected ->
  Forall (fun c => Action c = "pick" \/ Action c = "drop") selected.
Proof.
  unfold parseListing. intros Hrun.
  destruct (parseLines (buildCommitMap originals) (splitLines data) 0 [])
    as [e|result] eqn:Hlines; [discriminate|].
  destruct result as [|entry result]; [discriminate|].
  injection Hrun as <-.
  apply (parseLines_entries _
           (fun c => Action c = "pick" \/ Action c = "drop")) in Hlines
    as (Hall & _); auto.
Qed.

(** X27: the number start prints as selected, and the loop prints as
    applied, is the number of cherry-picks made.  For a plan that
    [ParseInteractiveFile] returned, a run of [ApplyCherryPicks] from
    cursor 0 that returns without error has issued exactly
    [countPickedCommits] cherry-pick calls. *)
Theorem reported_count_is_cherry_picks (env : Env) (data : string)
    (originals : list CommitInfo) (st : RebranchState) (r r' : Repo) :
  parseListing data originals = inr (CommitsToApply st) ->
  CurrentCommitIdx st = 0 ->
  ApplyCherryPicks env st r = (Ok tt, r') ->
  exists new,
    calls r' = (calls r ++ new)%list
    /\ Z.of_nat (length (pickedSHAs new))
       = countPickedCommits (CommitsToApply st).
Proof.
  intros Hparse Hcursor Hrun. unfold ApplyCherryPicks in Hrun.
  rewrite Hcursor in Hrun. cbn in Hrun. rewrite drop_0 in Hrun.
  rewrite bind_unfold in Hrun.
  destruct (applyLoop env (CommitsToApply st) 0 st r) as [[st'|e|] r0] eqn:Hloop;
    try discriminate.
  destruct (applyLoop_complete env _ _ _ _ _ _ Hloop) as (new & Hcalls & Hpicked).
  unfold bind, print, SaveState, external in Hrun. cbn in Hrun.
  match type of Hrun with
  | (if ?b then _ else _) = _ => destruct b; [discriminate|]
  end.
  injection Hrun as <-. cbn.
  exists (new ++ [CallSaveState (withStage "done" st')])%list.
  rewrite Hcalls, <- app_assoc. split; [reflexivity|].
  rewrite pickedSHAs_app. cbn. rewrite app_nil_r, Hpicked, length_map.
  symmetry. apply countPicked_notDrop.
  now apply (parseListing_actions data originals).
Qed.

Lemma reported_count_is_cherry_picks_witness :
  exists new,
    calls (snd (ApplyCherryPicks exampleEnv (exampleState 0 "picking")
                  (midRepo 0 "picking")))
    = ([] ++ new)%list
    /\ Z.of_nat (length (pickedSHAs new)) = 2.
Proof.
  destruct (reported_count_is_cherry_picks exampleEnv
              (listingContent examplePlan) examplePlan
              (exampleState 0 "picking") (midRepo 0 "picking")
              (snd (ApplyCherryPicks exampleEnv (exampleState 0 "picking")
                      (midRepo 0 "picking"))))
    as (new & Hcalls & Hcount).
  - vm_compute. reflexivity.
  - reflexivity.
  - vm_compute. reflexivity.
  - exists new. split; [exact Hcalls|exact Hcount].
Defined.
